(** * RWKV linear-attention kernels: recurrent reference and chunked engine

    Shallow embedding of [src/model/experimental/rwkv5_1.py]
    ([rwkv5_1_recurrent]) and [src/model/experimental/rwkv_inner.py]
    ([rwkv_inner]).

    Modelling choices.
    - A tensor is its shape together with its elements in row-major order
      (the layout of a contiguous torch tensor); [view] reinterprets the
      same element list under a new shape.
    - Elements are abstract scalars: the arithmetic, [exp], [log], the
      clamp and every explicit cast of the source are operations of the
      class [Scalar].  No law is assumed about them unless a section says
      so, hence the statements hold for IEEE floats under any rounding as
      well as for exact real arithmetic.
    - A sum of products (matmul, einsum, sum, cumsum) adds its terms from
      left to right.
    - Python exceptions are values of [exn]; a computation that may raise
      returns a [result].

    Outline.  The definitions of the operations and of the two engines
    come first, then the recurrence of the specification and the
    functions that describe the chunked engine for one batch and one
    head.  The proofs follow: the reference engine against the
    recurrence, segmented evaluation, the calls the chunked engine
    refuses, the clamp of the decay, and, in exact arithmetic, the
    chunked engine against the reference engine (first on functions, then
    on tensors, operation by operation). *)

From Stdlib Require Import List ZArith Lia Bool Arith PeanoNat QArith Ring.
From Stdlib Require Reals Qreals Lra.
Import ListNotations.
Local Open Scope nat_scope.

Set Implicit Arguments.

(** ** Exceptions and results *)

(** Why a torch operation refused its operands. *)
Inductive torch_failure : Type :=
| invalid_view          (* view: shape is invalid for input of size n *)
| not_broadcastable     (* elementwise operands do not broadcast *)
| matmul_mismatch       (* inner dimensions of a matrix product differ *)
| bad_rank              (* operand has too few dimensions for the op *)
| empty_tensor_list     (* cat / stack of an empty list *)
| sizes_differ.         (* cat / stack of tensors of different sizes *)

Inductive exn : Type :=
| RuntimeError (why : torch_failure)
| IndexError
| ValueError
| ZeroDivisionError
| AssertionError.

Inductive result (A : Type) : Type :=
| Ok (a : A)
| Raise (e : exn).

Arguments Ok {A} a.
Arguments Raise {A} e.

Definition bind {A B : Type} (c : result A) (k : A -> result B) : result B :=
  match c with
  | Ok a => k a
  | Raise e => Raise e
  end.

Declare Scope result_scope.
Delimit Scope result_scope with result.
Notation "x <- c ;; k" := (bind c (fun x => k))
  (at level 61, c at next level, right associativity) : result_scope.
Notation "' pat <- c ;; k" := (bind c (fun x => match x with pat => k end))
  (at level 61, pat pattern, c at next level, right associativity) : result_scope.
Local Open Scope result_scope.

Definition is_ok {A : Type} (c : result A) : bool :=
  match c with Ok _ => true | Raise _ => false end.

(** ** Element types *)

Inductive dtype : Type := float16 | bfloat16 | float32 | float64.

(** Operations on tensor elements.  [working] is the element type of the
    caller's tensors ([r.dtype] in the source). *)
Class Scalar (F : Type) : Type := {
  fzero : F;
  fadd : F -> F -> F;
  fsub : F -> F -> F;
  fmul : F -> F -> F;
  fmax : F -> F -> F;
  fexp : F -> F;
  flog : F -> F;
  fconst : Q -> F;
  fcast : dtype -> F -> F;
  working : dtype
}.

(** ** Shapes and indices *)

Definition numel (s : list nat) : nat := fold_right Nat.mul 1 s.

(** All multi-indices of a shape, in row-major order. *)
Fixpoint indices (s : list nat) : list (list nat) :=
  match s with
  | [] => [[]]
  | d :: s' => flat_map (fun i => map (cons i) (indices s')) (seq 0 d)
  end.

(** Row-major offset of a multi-index. *)
Fixpoint ravel (s idx : list nat) : nat :=
  match s, idx with
  | d :: s', i :: idx' => i * numel s' + ravel s' idx'
  | _, _ => 0
  end.

Definition insert_at {A : Type} (p : nat) (x : A) (l : list A) : list A :=
  firstn p l ++ x :: skipn p l.

Definition remove_at {A : Type} (p : nat) (l : list A) : list A :=
  firstn p l ++ skipn (S p) l.

Definition set_at {A : Type} (p : nat) (x : A) (l : list A) : list A :=
  firstn p l ++ x :: skipn (S p) l.

Fixpoint list_eqb (a b : list nat) : bool :=
  match a, b with
  | [], [] => true
  | x :: a', y :: b' => (x =? y) && list_eqb a' b'
  | _, _ => false
  end.

(** Broadcasting of two shapes, aligned at the last dimension. *)
Fixpoint broadcast_rev (a b : list nat) : result (list nat) :=
  match a, b with
  | [], _ => Ok b
  | _, [] => Ok a
  | x :: a', y :: b' =>
      s <- broadcast_rev a' b' ;;
      if x =? y then Ok (x :: s)
      else if x =? 1 then Ok (y :: s)
      else if y =? 1 then Ok (x :: s)
      else Raise (RuntimeError not_broadcastable)
  end.

Definition broadcast_shapes (a b : list nat) : result (list nat) :=
  s <- broadcast_rev (rev a) (rev b) ;; Ok (rev s).

(** Index into an operand of shape [s] for the index [idx] of the
    broadcast result: leading dimensions the operand lacks are dropped and
    a dimension of size 1 is read at 0. *)
Definition bidx (s idx : list nat) : list nat :=
  map (fun '(d, i) => if d =? 1 then 0 else i)
      (combine s (skipn (length idx - length s) idx)).

(** Python slice bounds [start:stop] (step 1) on a dimension of size [n]:
    the first position and the length of the slice. *)
Definition slice_bound (n : nat) (x : option Z) (default : Z) : Z :=
  match x with
  | None => default
  | Some z =>
      let z' := if (z <? 0)%Z then (z + Z.of_nat n)%Z else z in
      Z.max 0 (Z.min (Z.of_nat n) z')
  end.

Definition slice_range (n : nat) (start stop : option Z) : nat * nat :=
  let a := slice_bound n start 0%Z in
  let b := slice_bound n stop (Z.of_nat n) in
  (Z.to_nat a, Z.to_nat (b - a)).

(** ** Tensors *)

Section Tensors.
Context {F : Type} `{SF : Scalar F}.

Record tensor : Type := mkTensor { shape : list nat; data : list F }.

Definition well_formed (t : tensor) : Prop :=
    length (data t) = numel (shape t).

Definition get (t : tensor) (idx : list nat) : F :=
    nth (ravel (shape t) idx) (data t) fzero.

Definition tabulate (s : list nat) (f : list nat -> F) : tensor :=
    mkTensor s (map f (indices s)).

  (** Left-to-right sum; the empty sum is zero. *)
Definition fsum (l : list F) : F :=
    match l with
    | [] => fzero
    | x :: xs => fold_left fadd xs x
    end.

Definition rank (t : tensor) : nat := length (shape t).

  (** [t.size()] unpacked into four names. *)
Definition size4 (t : tensor) : result (nat * nat * nat * nat) :=
    match shape t with
    | [a; b; c; d] => Ok (a, b, c, d)
    | _ => Raise ValueError
    end.

  (** [t.size(-d)] for [d >= 1]. *)
Definition size_from_end (d : nat) (t : tensor) : result nat :=
    if d <=? rank t then Ok (nth (rank t - d) (shape t) 0)
    else Raise IndexError.

  (** [t.size(0)]. *)
Definition size0 (t : tensor) : result nat :=
    match shape t with
    | d :: _ => Ok d
    | [] => Raise IndexError
    end.

  (** *** Elementwise operations *)

Definition map_tensor (f : F -> F) (t : tensor) : tensor :=
    mkTensor (shape t) (map f (data t)).

Definition exp (t : tensor) : tensor := map_tensor fexp t.
Definition log (t : tensor) : tensor := map_tensor flog t.
Definition to (d : dtype) (t : tensor) : tensor := map_tensor (fcast d) t.
Definition float (t : tensor) : tensor := to float32 t.
  (** [t.clamp(m)]: lower bound [m], a Python number. *)
Definition clamp (m : Q) (t : tensor) : tensor :=
    map_tensor (fun x => fmax x (fconst m)) t.
Definition zeros_like (t : tensor) : tensor :=
    map_tensor (fun _ => fzero) t.

Definition binop (f : F -> F -> F) (a b : tensor) : result tensor :=
    s <- broadcast_shapes (shape a) (shape b) ;;
    Ok (tabulate s (fun idx =>
          f (get a (bidx (shape a) idx)) (get b (bidx (shape b) idx)))).

Definition add := binop fadd.
Definition sub := binop fsub.
Definition mul := binop fmul.

  (** *** Reshaping *)

  (** Sizes a [view] call resolves to: at most one [-1], inferred from the
      element count; every other entry non-negative; the products agree. *)
Definition infer_size (zs : list Z) (n : nat) : result (list nat) :=
    if existsb (fun z => (z <? -1)%Z) zs then Raise (RuntimeError invalid_view)
    else
      let holes := length (filter (fun z => (z =? -1)%Z) zs) in
      let known :=
        numel (map Z.to_nat (filter (fun z => negb (z =? -1)%Z) zs)) in
      match holes with
      | 0 => if known =? n then Ok (map Z.to_nat zs)
             else Raise (RuntimeError invalid_view)
      | 1 => if (0 <? known) && (n mod known =? 0)
             then Ok (map (fun z => if (z =? -1)%Z then n / known
                                    else Z.to_nat z) zs)
             else Raise (RuntimeError invalid_view)
      | _ => Raise (RuntimeError invalid_view)
      end.

Definition view (zs : list Z) (t : tensor) : result tensor :=
    s <- infer_size zs (numel (shape t)) ;;
    Ok (mkTensor s (data t)).

  (** [t.unsqueeze(p)] for [p >= 0]. *)
Definition unsqueeze (p : nat) (t : tensor) : result tensor :=
    if p <=? rank t then Ok (mkTensor (insert_at p 1 (shape t)) (data t))
    else Raise IndexError.

  (** *** Matrix operations *)

  (** A list split into everything but its last two entries, and those. *)
Definition split_last2 (s : list nat) : option (list nat * nat * nat) :=
    match rev s with
    | p :: n :: rb => Some (rev rb, n, p)
    | _ => None
    end.

  (** [t.mT]: the last two dimensions exchanged. *)
Definition mT (t : tensor) : result tensor :=
    match split_last2 (shape t) with
    | Some (b, n, m) =>
        Ok (tabulate (b ++ [m; n]) (fun idx =>
              match split_last2 idx with
              | Some (ib, i, j) => get t (ib ++ [j; i])
              | None => fzero
              end))
    | None => Raise (RuntimeError bad_rank)
    end.

  (** Batched matrix product of operands of rank at least 2. *)
Definition matmul2 (a b : tensor) : result tensor :=
    match split_last2 (shape a), split_last2 (shape b) with
    | Some (ba, n, m), Some (bb, m', p) =>
        s <- broadcast_shapes ba bb ;;
        if m =? m' then
          Ok (tabulate (s ++ [n; p]) (fun idx =>
                match split_last2 idx with
                | Some (ib, i, j) =>
                    fsum (map (fun l =>
                                 fmul (get a (bidx ba ib ++ [i; l]))
                                      (get b (bidx bb ib ++ [l; j])))
                              (seq 0 m))
                | None => fzero
                end))
        else Raise (RuntimeError matmul_mismatch)
    | _, _ => Raise (RuntimeError bad_rank)
    end.

  (** [a @ b]: a vector operand is given a unit dimension for the product,
      which is removed from the result. *)
Definition matmul (a b : tensor) : result tensor :=
    if (rank a =? 0) || (rank b =? 0) then Raise (RuntimeError bad_rank)
    else
      let a' := if rank a =? 1 then mkTensor (1 :: shape a) (data a) else a in
      let b' := if rank b =? 1 then mkTensor (shape b ++ [1]) (data b) else b in
      c <- matmul2 a' b' ;;
      let s1 := if rank a =? 1
                then remove_at (length (shape c) - 2) (shape c) else shape c in
      let s2 := if rank b =? 1 then removelast s1 else s1 in
      Ok (mkTensor s2 (data c)).

  (** [t.tril(-1)]: entries strictly below the diagonal, zero elsewhere. *)
Definition tril_below (t : tensor) : result tensor :=
    match split_last2 (shape t) with
    | Some _ =>
        Ok (tabulate (shape t) (fun idx =>
              match split_last2 idx with
              | Some (_, i, j) => if j <? i then get t idx else fzero
              | None => fzero
              end))
    | None => Raise (RuntimeError bad_rank)
    end.

  (** [t.diag_embed()]: the last dimension laid out on the diagonal of a
      new square pair of dimensions. *)
Definition diag_embed (t : tensor) : result tensor :=
    match rev (shape t) with
    | n :: _ =>
        Ok (tabulate (shape t ++ [n]) (fun idx =>
              match split_last2 idx with
              | Some (ib, i, j) => if i =? j then get t (ib ++ [i]) else fzero
              | None => fzero
              end))
    | [] => Raise IndexError
    end.

  (** [torch.einsum('bhnztk,bhnztk->bhnzt', a, b)]. *)
Definition einsum_bhnztk (a b : tensor) : result tensor :=
    if (rank a =? 6) && (rank b =? 6) then
      s <- broadcast_shapes (shape a) (shape b) ;;
      Ok (tabulate (removelast s) (fun idx =>
            fsum (map (fun l =>
                         fmul (get a (bidx (shape a) (idx ++ [l])))
                              (get b (bidx (shape b) (idx ++ [l]))))
                      (seq 0 (last s 0)))))
    else Raise (RuntimeError bad_rank).

  (** *** Operations along one dimension

      The dimension is counted from the end: [d = 2] is [dim=-2]. *)

  (** [t[..., start:stop, :, ...]] on dimension [-d]. *)
Definition slice_axis (d : nat) (start stop : option Z) (t : tensor)
    : result tensor :=
    if d <=? rank t then
      let p := rank t - d in
      let '(a, len) := slice_range (nth p (shape t) 0) start stop in
      Ok (tabulate (set_at p len (shape t)) (fun idx =>
            get t (set_at p (a + nth p idx 0) idx)))
    else Raise IndexError.

  (** [t.cumsum(dim=-d)]. *)
Definition cumsum (d : nat) (t : tensor) : result tensor :=
    if d <=? rank t then
      let p := rank t - d in
      Ok (tabulate (shape t) (fun idx =>
            fsum (map (fun l => get t (set_at p l idx))
                      (seq 0 (S (nth p idx 0))))))
    else Raise IndexError.

  (** [t.sum(dim=-d, keepdim=True)]. *)
Definition sum_keepdim (d : nat) (t : tensor) : result tensor :=
    if d <=? rank t then
      let p := rank t - d in
      Ok (tabulate (set_at p 1 (shape t)) (fun idx =>
            fsum (map (fun l => get t (set_at p l idx))
                      (seq 0 (nth p (shape t) 0)))))
    else Raise IndexError.

  (** [t.unbind(dim=-d)]. *)
Definition unbind (d : nat) (t : tensor) : result (list tensor) :=
    if d <=? rank t then
      let p := rank t - d in
      Ok (map (fun n => tabulate (remove_at p (shape t)) (fun idx =>
                          get t (insert_at p n idx)))
              (seq 0 (nth p (shape t) 0)))
    else Raise IndexError.

  (** The tensor of a list that holds position [i] of the concatenated
      dimension [p], with the position inside it. *)
Fixpoint locate (p : nat) (ts : list tensor) (i : nat)
    : option (tensor * nat) :=
    match ts with
    | [] => None
    | t :: ts' =>
        let n := nth p (shape t) 0 in
        if i <? n then Some (t, i) else locate p ts' (i - n)
    end.

  (** [torch.cat(ts, dim=-d)]. *)
Definition cat (d : nat) (ts : list tensor) : result tensor :=
    match ts with
    | [] => Raise (RuntimeError empty_tensor_list)
    | t0 :: _ =>
        if d <=? rank t0 then
          let p := rank t0 - d in
          if forallb (fun t => list_eqb (set_at p 0 (shape t))
                                        (set_at p 0 (shape t0))) ts
          then
            let total := fold_right (fun t n => nth p (shape t) 0 + n) 0 ts in
            Ok (tabulate (set_at p total (shape t0)) (fun idx =>
                  match locate p ts (nth p idx 0) with
                  | Some (t, i) => get t (set_at p i idx)
                  | None => fzero
                  end))
          else Raise (RuntimeError sizes_differ)
        else Raise IndexError
    end.

  (** [torch.stack(ts, dim=p)] for [p >= 0]. *)
Definition stack (p : nat) (ts : list tensor) : result tensor :=
    match ts with
    | [] => Raise (RuntimeError empty_tensor_list)
    | t0 :: _ =>
        if forallb (fun t => list_eqb (shape t) (shape t0)) ts then
          if p <=? rank t0 then
            Ok (tabulate (insert_at p (length ts) (shape t0)) (fun idx =>
                  get (nth (nth p idx 0) ts t0) (remove_at p idx)))
          else Raise IndexError
        else Raise (RuntimeError sizes_differ)
    end.

  (** [t[..., start:stop, :, ...] = x] on dimension [-d]: the tensor [t]
      after the assignment. *)
Definition setitem_axis (d : nat) (start stop : option Z) (t x : tensor)
    : result tensor :=
    if d <=? rank t then
      let p := rank t - d in
      let '(a, len) := slice_range (nth p (shape t) 0) start stop in
      let region := set_at p len (shape t) in
      s <- broadcast_shapes (shape x) region ;;
      if list_eqb s region then
        Ok (tabulate (shape t) (fun idx =>
              let i := nth p idx 0 in
              if (a <=? i) && (i <? a + len)
              then get x (bidx (shape x) (set_at p (i - a) idx))
              else get t idx))
      else Raise (RuntimeError not_broadcastable)
    else Raise IndexError.

End Tensors.


Arguments tensor F : clear implicits.

(** ** The two engines *)

(** [for x in l: s = body(x, s)]. *)
Fixpoint for_each {A S : Type} (body : A -> S -> result S) (l : list A) (s : S)
  : result S :=
  match l with
  | [] => Ok s
  | x :: xs => s' <- body x s ;; for_each body xs s'
  end.

(** [l[i]] on a Python list, [i >= 0]. *)
Definition list_item {A : Type} (l : list A) (i : nat) : result A :=
  match nth_error l i with
  | Some x => Ok x
  | None => Raise IndexError
  end.

(** Lower bound of the decay for the precision the exponentials are
    taken in (rwkv_inner.py, lines 36-40). *)
Definition precision_min_val (precision_dtype : dtype) : result Q :=
  match precision_dtype with
  | float32 => Ok (5 # 1000)%Q
  | float64 => Ok (1 # 10000000000)%Q
  | _ => Raise AssertionError
  end.

Section Engines.
Context {F : Type} `{SF : Scalar F}.

Local Abbreviation tensor := (tensor F).
Local Abbreviation zz := Z.of_nat.

  (** One iteration of the loop of [rwkv5_1_recurrent] (rwkv5_1.py,
      lines 30-33). *)
Definition recurrent_step (r_in k_in v_in w_in u : tensor) (t : nat)
      (acc : list tensor * tensor) : result (list tensor * tensor) :=
    let '(out, kv_state) := acc in
    let t0 := Some (zz t) in
    let t1 := Some (zz t + 1)%Z in
    r <- slice_axis 2 t0 t1 r_in ;;
    k <- slice_axis 2 t0 t1 k_in ;;
    v <- slice_axis 2 t0 t1 v_in ;;
    w <- slice_axis 2 t0 t1 w_in ;;
    kT <- mT k ;;
    kv <- matmul kT v ;;
    uT <- mT u ;;
    ukv <- mul uT kv ;;
    att <- add kv_state ukv ;;
    o <- matmul r att ;;
    wT <- mT w ;;
    decayed <- mul wT kv_state ;;
    kv_state' <- add decayed kv ;;
    Ok (out ++ [o], kv_state').

  (** rwkv5_1.py, lines 26-35. *)
Definition rwkv5_1_recurrent (r_in k_in v_in w_in u kv_state : tensor)
    : result (tensor * tensor) :=
    L <- size_from_end 2 r_in ;;
    '(out, kv_state') <-
      for_each (recurrent_step r_in k_in v_in w_in u) (seq 0 L)
               ([], kv_state) ;;
    out' <- cat 2 out ;;
    Ok (out', kv_state').

  (** The [L == 1] branch of [rwkv_inner] (rwkv_inner.py, lines 22-26). *)
Definition single_step (r k v w u kv_state : tensor)
    : result (tensor * tensor) :=
    kv <- matmul k v ;;
    ukv <- mul u kv ;;
    att <- add kv_state ukv ;;
    out <- matmul r att ;;
    decayed <- mul w kv_state ;;
    kv_state' <- add decayed kv ;;
    Ok (out, kv_state').

  (** The chunk length in effect (rwkv_inner.py, lines 30-31); [L % T]
      raises when [T] is zero. *)
Definition effective_chunk_len (L : nat) (chunk_len : Z) : result Z :=
    if (chunk_len =? 0)%Z then Raise ZeroDivisionError
    else if (zz L mod chunk_len =? 0)%Z then Ok chunk_len
    else Ok 1%Z.

  (** One iteration of the chunk-to-chunk loop (rwkv_inner.py,
      lines 119-120). *)
Definition scan_step (ws wkv : list tensor) (i : nat)
      (acc : list tensor * tensor) : result (list tensor * tensor) :=
    let '(states, kv_state) := acc in
    ws_i <- list_item ws i ;;
    decayed <- mul kv_state ws_i ;;
    wkv_i <- list_item wkv i ;;
    kv_state' <- add decayed wkv_i ;;
    Ok (states ++ [kv_state], kv_state').

  (** The decay in log space and the profiles derived from it. *)
Record decays : Type := mkDecays {
    batch_w : nat;
    wc_log : tensor;
    wc_log_cum : tensor;
    shifted_wc_log_cum : tensor;
    ws : list tensor;
    w_inter : tensor;
    w_intra : tensor
  }.

  (** Clamp, logarithm, cumulative sums and the two decay profiles
      (rwkv_inner.py, lines 36-75). *)
Definition log_space_decay (H K : nat) (N T : Z) (w : tensor)
      (precision_dtype : dtype) : result decays :=
    precision_min_val <- precision_min_val precision_dtype ;;
    let w := clamp precision_min_val w in
    let w_log := log (float w) in
    Bw <- size0 w ;;
    wc_log <- view [zz Bw; zz H; N; T; zz K] w_log ;;
    wc_log_cum <- cumsum 2 wc_log ;;
    first <- slice_axis 2 None (Some 1%Z) wc_log_cum ;;
    rest <- slice_axis 2 None (Some (-1)%Z) wc_log_cum ;;
    shifted_wc_log_cum <- cat 2 [zeros_like first; rest] ;;
    ws <- sum_keepdim 2 wc_log ;;
    w_inter <- sub ws wc_log_cum ;;
    w_intra <- sub wc_log_cum wc_log ;;
    wsT <- mT ws ;;
    ws <- unbind 3 (to working (exp wsT)) ;;
    let w_inter := to working (exp w_inter) in
    let w_intra := to working (exp w_intra) in
    Ok (mkDecays Bw wc_log wc_log_cum shifted_wc_log_cum ws w_inter w_intra).

  (** The shape the two half-chunks of every chunk are viewed in
      (rwkv_inner.py, lines 85-86 and 93-95). *)
Definition subchunk_shape (B H : nat) (N T : Z) (K : nat) : list Z :=
    [zz B; zz H; N; 2%Z; (T / 2)%Z; zz K].

  (** Attention inside every chunk, over its two half-chunks
      (rwkv_inner.py, lines 85-110); [r], [k], [v] are the chunked views
      and [u] is unsqueezed. *)
Definition intra_chunk (B H K V : nat) (N T : Z) (d : decays)
      (r k v u : tensor) (precision_dtype : dtype) : result tensor :=
    let quarter := (T / 4)%Z in
    wc_log_cum <- view (subchunk_shape (batch_w d) H N T K) (wc_log_cum d) ;;
    shifted_wc_log_cum <-
      view (subchunk_shape (batch_w d) H N T K) (shifted_wc_log_cum d) ;;
    wc_log_offset <-
      slice_axis 2 (Some quarter) (Some (quarter + 1)%Z) shifted_wc_log_cum ;;
    (* intra-subchunk *)
    uu <- view [1%Z; zz H; 1%Z; 1%Z; 1%Z; zz K] u ;;
    rr_log <- sub shifted_wc_log_cum wc_log_offset ;;
    let rr_decay := exp (to precision_dtype rr_log) in
    kk_log <- sub wc_log_offset wc_log_cum ;;
    let kk_inv_decay := exp (to precision_dtype kk_log) in
    rr <- view (subchunk_shape B H N T K) r ;;
    kk <- view (subchunk_shape B H N T K) k ;;
    vv <- view (subchunk_shape B H N T V) v ;;
    rd <- mul rr rr_decay ;;
    kd <- mul kk kk_inv_decay ;;
    kdT <- mT kd ;;
    a <- matmul rd kdT ;;
    a <- tril_below (to working a) ;;
    ukk <- mul uu kk ;;
    diag <- einsum_bhnztk rr ukk ;;
    diag <- diag_embed diag ;;
    a <- add a diag ;;
    out <- matmul a vv ;;
    (* inter-subchunk *)
    rr <- slice_axis 3 (Some 1%Z) (Some 2%Z) rr ;;
    rr_decay <- slice_axis 3 (Some 1%Z) (Some 2%Z) rr_decay ;;
    kk <- slice_axis 3 (Some 0%Z) (Some 1%Z) kk ;;
    offset1 <- slice_axis 3 (Some 1%Z) (Some 2%Z) wc_log_offset ;;
    cum0 <- slice_axis 3 (Some 0%Z) (Some 1%Z) wc_log_cum ;;
    kk_log <- sub offset1 cum0 ;;
    let kk_inv_decay := exp (to precision_dtype kk_log) in
    vv <- slice_axis 3 (Some 0%Z) (Some 1%Z) vv ;;
    out1 <- slice_axis 3 (Some 1%Z) (Some 2%Z) out ;;
    rd <- mul rr rr_decay ;;
    kd <- mul kk kk_inv_decay ;;
    kdT <- mT kd ;;
    cross <- matmul rd kdT ;;
    cross <- matmul (to working cross) vv ;;
    out1 <- add out1 cross ;;
    out <- setitem_axis 3 (Some 1%Z) (Some 2%Z) out out1 ;;
    view [zz B; zz H; N; T; zz V] out.

  (** The state entering every chunk and the final state
      (rwkv_inner.py, lines 113-124). *)
Definition chunk_states (N : Z) (d : decays) (k v kv_state : tensor)
    : result (tensor * tensor) :=
    kw <- mul k (w_inter d) ;;
    kwT <- mT kw ;;
    wkv <- matmul kwT v ;;
    wkv <- unbind 3 wkv ;;
    '(states, kv_state') <-
      for_each (scan_step (ws d) wkv) (seq 0 (Z.to_nat N)) ([], kv_state) ;;
    states <- stack 2 states ;;
    Ok (states, kv_state').

  (** The [else] branch of [rwkv_inner] (rwkv_inner.py, lines 28-129). *)
Definition chunked (B H L K V : nat) (r k v w u kv_state : tensor)
      (chunk_len : Z) (precision_dtype : dtype)
    : result (tensor * tensor) :=
    T <- effective_chunk_len L chunk_len ;;
    let N := (zz L / T)%Z in
    d <- log_space_decay H K N T w precision_dtype ;;
    r <- view [zz B; zz H; N; T; zz K] r ;;
    k <- view [zz B; zz H; N; T; zz K] k ;;
    v <- view [zz B; zz H; N; T; zz V] v ;;
    u <- unsqueeze 2 u ;;
    let u := to working u in
    out <- intra_chunk B H K V N T d r k v u precision_dtype ;;
    '(states, kv_state') <- chunk_states N d k v kv_state ;;
    rw <- mul r (w_intra d) ;;
    from_state <- matmul rw states ;;
    out <- add out from_state ;;
    out <- view [zz B; zz H; zz L; zz V] out ;;
    Ok (out, kv_state').

  (** rwkv_inner.py, lines 8-129. *)
Definition rwkv_inner (r k v w u kv_state : tensor) (chunk_len : Z)
      (precision_dtype : dtype) : result (tensor * tensor) :=
    '(B, H, L, K) <- size4 k ;;
    V <- size_from_end 1 v ;;
    if L =? 1 then single_step r k v w u kv_state
    else chunked B H L K V r k v w u kv_state chunk_len precision_dtype.

End Engines.

(** ** An exact instance of the scalars

    Rational numbers with exact arithmetic.  Exponential and logarithm are
    taken in base two and are exact on powers of two, which is all the
    chunked engine needs to be run on decays that are powers of two; no
    cast rounds.  Every result is kept in lowest terms, so equal numbers
    are equal terms. *)

Definition Qlog2 (q : Q) : Q :=
  inject_Z (Z.log2 (Qnum q) - Z.log2 (Zpos (Qden q))).

Definition Qexp2 (q : Q) : Q := Qred (Qpower 2 (Qnum q)).

Definition Qclamp (x m : Q) : Q := if Qle_bool x m then m else x.

#[export] Instance Qexact : Scalar Q := {|
  fzero := 0%Q;
  fadd := fun a b => Qred (a + b);
  fsub := fun a b => Qred (a - b);
  fmul := fun a b => Qred (a * b);
  fmax := Qclamp;
  fexp := Qexp2;
  flog := Qlog2;
  fconst := Qred;
  fcast := fun _ x => x;
  working := float32
|}.

(** A tensor of integers, and one of arbitrary rationals. *)
Definition ztensor (s : list nat) (l : list Z) : tensor Q :=
  mkTensor s (map inject_Z l).

Definition qtensor (s : list nat) (l : list Q) : tensor Q := mkTensor s l.

(** Inputs of the documented shapes with [B = H = 1], [K = 2], [V = 3]
    and [L = 4]; the decays are powers of two above the clamp floor. *)
Module Sample.
Definition r := ztensor [1; 1; 4; 2] [1; 2; 3; 4; 5; 6; 7; 8]%Z.
Definition k := ztensor [1; 1; 4; 2] [2; 1; 0; 3; 1; 1; 4; 2]%Z.
Definition v := ztensor [1; 1; 4; 3] [1; 0; 2; 3; 1; 1; 0; 5; 2; 1; 1; 1]%Z.
Definition w :=
    qtensor [1; 1; 4; 2] [1#2; 1#4; 1; 1#2; 1#8; 1#2; 1#4; 1#4]%Q.
Definition u := ztensor [1; 1; 1; 2] [3; 5]%Z.
Definition kv_state := ztensor [1; 1; 2; 3] [1; 2; 3; 4; 5; 6]%Z.

  (** What the reference engine returns on them. *)
Definition out : tensor Q :=
    qtensor [1; 1; 4; 3]
      [25; 12; 47; 391 # 2; 68; 181 # 2;
       145 # 2; 1007 # 4; 146; 3299 # 16; 2035 # 8; 3485 # 16]%Q.
Definition kv_state' : tensor Q :=
    qtensor [1; 1; 2; 3]
      [261 # 64; 169 # 32; 299 # 64; 13 # 4; 237 # 64; 99 # 32]%Q.
End Sample.

(** Inputs with a single timestep ([L = 1]) and [K = 2]. *)
Module OneStep.
Definition r := ztensor [1; 1; 1; 2] [1; 2]%Z.
Definition k := ztensor [1; 1; 1; 2] [3; 1]%Z.
Definition v := ztensor [1; 1; 1; 2] [1; 2]%Z.
Definition w := qtensor [1; 1; 1; 2] [1#2; 1#4]%Q.
Definition u := ztensor [1; 1; 1; 2] [1; 2]%Z.
Definition kv_state := ztensor [1; 1; 2; 2] [1; 2; 3; 4]%Z.
End OneStep.

(** Inputs with a single timestep and [K = 1]; the decay [1/1024] lies
    below both clamp floors. *)
Module Tiny.
Definition r := ztensor [1; 1; 1; 1] [3]%Z.
Definition k := ztensor [1; 1; 1; 1] [2]%Z.
Definition v := ztensor [1; 1; 1; 2] [1; 2]%Z.
Definition w := qtensor [1; 1; 1; 1] [1 # 1024]%Q.
Definition u := ztensor [1; 1; 1; 1] [5]%Z.
Definition kv_state := ztensor [1; 1; 1; 2] [1; 2]%Z.
End Tiny.


(** ** Predicates used in the statements *)

(** A multi-index lies inside a shape. *)
Definition in_range (idx s : list nat) : Prop := Forall2 lt idx s.

(** ** The recurrence of the reference engine, element by element

    A second definition, written from the specification (section 4.1):
    for every batch [b] and head [h], with [i] a key channel and [j] a
    value channel,
    - [kv_t = k[t]^T @ v[t]];
    - [out[t] = r[t] @ (kv_state + u * kv_t)];
    - [kv_state = (w[t] * kv_state) + kv_t]. *)

Section ReferenceSpec.
Context {F : Type} `{SF : Scalar F}.
Variables r k v w u kv_state : tensor F.

Definition spec_kv (t b h i j : nat) : F :=
  fmul (get k [b; h; t; i]) (get v [b; h; t; j]).

(** The decay is shared by all batches when its batch size is 1. *)
Definition spec_w (t b h i : nat) : F :=
  get w [(if nth 0 (shape w) 0 =? 1 then 0 else b); h; t; i].

(** The state before timestep [t]. *)
Fixpoint spec_state (t b h i j : nat) : F :=
  match t with
  | 0 => get kv_state [b; h; i; j]
  | S t' => fadd (fmul (spec_w t' b h i) (spec_state t' b h i j))
                 (spec_kv t' b h i j)
  end.

(** The output of timestep [t]; [K] is the number of key channels. *)
Definition spec_out (K t b h j : nat) : F :=
  fsum (map (fun i =>
               fmul (get r [b; h; t; i])
                    (fadd (spec_state t b h i j)
                          (fmul (get u [0; h; 0; i]) (spec_kv t b h i j))))
            (seq 0 K)).

End ReferenceSpec.

(** ** Segmented evaluation by the caller

    The specification (sections 2 and 8.4) lets the caller split a
    sequence after its first [s] timesteps, run an engine on the first
    segment, feed the state it returns to a second run on the remaining
    timesteps, and concatenate the two outputs along time. *)

Section Streaming.
Context {F : Type} `{SF : Scalar F}.

Definition engine : Type :=
  tensor F -> tensor F -> tensor F -> tensor F -> tensor F -> tensor F ->
  result (tensor F * tensor F).

Definition streamed (run : engine) (s : nat) (r k v w u kv_state : tensor F)
  : result (tensor F * tensor F) :=
  let upto := slice_axis 2 None (Some (Z.of_nat s)) in
  let from := slice_axis 2 (Some (Z.of_nat s)) None in
  r1 <- upto r ;; k1 <- upto k ;; v1 <- upto v ;; w1 <- upto w ;;
  '(out1, kv_state1) <- run r1 k1 v1 w1 u kv_state ;;
  r2 <- from r ;; k2 <- from k ;; v2 <- from v ;; w2 <- from w ;;
  '(out2, kv_state2) <- run r2 k2 v2 w2 u kv_state1 ;;
  out <- cat 2 [out1; out2] ;;
  Ok (out, kv_state2).

End Streaming.

(** ** Outcomes

    Whether a computation returned or which exception it raised, and two
    computations that end the same way with related values. *)

Definition outcome {A : Type} (c : result A) : option exn :=
  match c with
  | Ok _ => None
  | Raise e => Some e
  end.

Definition rel_result {A B : Type} (R : A -> B -> Prop) (x : result A)
    (y : result B) : Prop :=
  match x, y with
  | Ok a, Ok b => R a b
  | Raise e, Raise e' => e = e'
  | _, _ => False
  end.

Section Like.
Context {F : Type} `{SF : Scalar F}.

(** Two tensors of the same shape. *)
Definition like (a b : tensor F) : Prop := shape a = shape b.

Definition like2 (a b : tensor F * tensor F) : Prop :=
  like (fst a) (fst b) /\ like (snd a) (snd b).

Definition like_acc (a b : list (tensor F) * tensor F) : Prop :=
  Forall2 like (fst a) (fst b) /\ like (snd a) (snd b).

Definition decays_like (d d' : decays) : Prop :=
  batch_w d = batch_w d'
  /\ like (wc_log d) (wc_log d')
  /\ like (wc_log_cum d) (wc_log_cum d')
  /\ like (shifted_wc_log_cum d) (shifted_wc_log_cum d')
  /\ Forall2 like (ws d) (ws d')
  /\ like (w_inter d) (w_inter d')
  /\ like (w_intra d) (w_intra d').

End Like.

(** ** The real numbers as scalars

    Exact arithmetic with the real exponential and the natural logarithm;
    no cast rounds.  A tensor of rationals is read as a tensor of reals. *)

Module RealScalars.
Import Stdlib.Reals.Reals Stdlib.Reals.Qreals.

#[global] Instance Rexact : Scalar R := {|
  fzero := 0%R;
  fadd := Rplus;
  fsub := Rminus;
  fmul := Rmult;
  fmax := Rmax;
  fexp := Rtrigo_def.exp;
  flog := ln;
  fconst := Q2R;
  fcast := fun _ x => x;
  working := float32
|}.

Definition of_rationals (t : tensor Q) : tensor R :=
  mkTensor (shape t) (map Q2R (data t)).

End RealScalars.

(** The sample inputs read as real numbers. *)
Module RealSample.
Definition r := RealScalars.of_rationals Sample.r.
Definition k := RealScalars.of_rationals Sample.k.
Definition v := RealScalars.of_rationals Sample.v.
Definition w := RealScalars.of_rationals Sample.w.
Definition u := RealScalars.of_rationals Sample.u.
Definition kv_state := RealScalars.of_rationals Sample.kv_state.
End RealSample.

(** Inputs of the documented shapes with [B = H = K = V = 1] and
    [L = 3]. *)
Module Triple.
Definition r := ztensor [1; 1; 3; 1] [1; 2; 3]%Z.
Definition k := ztensor [1; 1; 3; 1] [1; 1; 1]%Z.
Definition v := ztensor [1; 1; 3; 1] [1; 2; 3]%Z.
Definition w := qtensor [1; 1; 3; 1] [1#2; 1#2; 1#2]%Q.
Definition u := ztensor [1; 1; 1; 1] [1]%Z.
Definition kv_state := ztensor [1; 1; 1; 1] [0]%Z.
End Triple.

(** Inputs whose [r] disagrees with [k] in both the time and the key
    dimension while holding as many elements ([k] has [L = 2], [K = 2];
    [r] has 4 timesteps of 1 channel). *)
Module Mismatch.
Definition r := ztensor [1; 1; 4; 1] [1; 2; 3; 4]%Z.
Definition k := ztensor [1; 1; 2; 2] [1; 2; 3; 4]%Z.
Definition v := ztensor [1; 1; 2; 1] [1; 2]%Z.
Definition w := qtensor [1; 1; 2; 2] [1; 1; 1; 1]%Q.
Definition u := ztensor [1; 1; 1; 2] [1; 2]%Z.
Definition kv_state := ztensor [1; 1; 2; 1] [1; 2]%Z.
End Mismatch.


(** ** The two recurrences on plain functions

    For one batch and one head the inputs are functions of a timestep and
    a channel.  [Sref] and [Oref] are the recurrence of the reference
    engine; the definitions that follow are, operation by operation, what
    the chunked engine computes for the chunk that starts at time [t0],
    with half-chunks of length [h2] and the decay re-based at position
    [q] of every half-chunk. *)

Section ChunkFunctions.
Context {F : Type} `{SF : Scalar F}.

(** [f a + f (a+1) + ... + f (a+n-1)], added from left to right. *)
Definition bigsum (f : nat -> F) (a n : nat) : F := fsum (map f (seq a n)).

Variables (K h2 q : nat).
Variables (r k v lw w : nat -> nat -> F) (u : nat -> F).

Section Reference.
Variable S0 : nat -> nat -> F.

Fixpoint Sref (t i j : nat) : F :=
  match t with
  | 0 => S0 i j
  | S t' => fadd (fmul (w t' i) (Sref t' i j)) (fmul (k t' i) (v t' j))
  end.

Definition Oref (t j : nat) : F :=
  bigsum (fun i =>
            fmul (r t i)
                 (fadd (Sref t i j) (fmul (u i) (fmul (k t i) (v t j)))))
         0 K.

End Reference.

(** The sum of [n] log-decays from time [a], and the product of the
    decays it stands for. *)
Definition Lg (i a n : nat) : F := bigsum (fun l => lw l i) a n.
Definition Wexp (i a n : nat) : F := fexp (Lg i a n).

Variable t0 : nat.

Definition cum (p i : nat) : F := bigsum (fun l => lw (t0 + l) i) 0 (S p).

Definition shifted (p i : nat) : F :=
  if p =? 0 then fzero else cum (p - 1) i.

Definition off (z i : nat) : F := shifted (z * h2 + q) i.

Definition rd (z t' i : nat) : F :=
  fexp (fsub (shifted (z * h2 + t') i) (off z i)).

Definition kd (z s' i : nat) : F :=
  fexp (fsub (off z i) (cum (z * h2 + s') i)).

Definition X (z t' s' : nat) : F :=
  bigsum (fun i =>
            fmul (fmul (r (t0 + (z * h2 + t')) i) (rd z t' i))
                 (fmul (k (t0 + (z * h2 + s')) i) (kd z s' i)))
         0 K.

Definition Dg (p : nat) : F :=
  bigsum (fun i => fmul (r (t0 + p) i) (fmul (u i) (k (t0 + p) i))) 0 K.

Definition A (z t' s' : nat) : F :=
  fadd (if s' <? t' then X z t' s' else fzero)
       (if t' =? s' then Dg (z * h2 + t') else fzero).

Definition O1 (z t' j : nat) : F :=
  bigsum (fun s' => fmul (A z t' s') (v (t0 + (z * h2 + s')) j)) 0 h2.

Definition kd2 (s' i : nat) : F := fexp (fsub (off 1 i) (cum s' i)).

Definition Xc (t' s' : nat) : F :=
  bigsum (fun i =>
            fmul (fmul (r (t0 + (h2 + t')) i) (rd 1 t' i))
                 (fmul (k (t0 + s') i) (kd2 s' i)))
         0 K.

Definition cross (t' j : nat) : F :=
  bigsum (fun s' => fmul (Xc t' s') (v (t0 + s') j)) 0 h2.

Definition Ointra (z t' j : nat) : F :=
  if z =? 1 then fadd (O1 1 t' j) (cross t' j) else O1 z t' j.

Definition wslog (i : nat) : F :=
  bigsum (fun l => lw (t0 + l) i) 0 (h2 + h2).

Definition winter (p i : nat) : F := fexp (fsub (wslog i) (cum p i)).

Definition wintra (p i : nat) : F :=
  fexp (fsub (cum p i) (lw (t0 + p) i)).

Definition wkv (i j : nat) : F :=
  bigsum (fun p => fmul (fmul (k (t0 + p) i) (winter p i)) (v (t0 + p) j))
         0 (h2 + h2).

Definition Snext (S : nat -> nat -> F) (i j : nat) : F :=
  fadd (fmul (S i j) (fexp (wslog i))) (wkv i j).

Definition Ochunk (S : nat -> nat -> F) (z t' j : nat) : F :=
  fadd (Ointra z t' j)
       (bigsum (fun i =>
                  fmul (fmul (r (t0 + (z * h2 + t')) i)
                             (wintra (z * h2 + t') i))
                       (S i j))
               0 K).

(** Attention of the query at position [pt] of the chunk to the key at an
    earlier position [ps]. *)
Definition Y (pt ps : nat) : F :=
  bigsum (fun i =>
            fmul (fmul (r (t0 + pt) i) (k (t0 + ps) i))
                 (Wexp i (t0 + S ps) (pt - S ps)))
         0 K.

End ChunkFunctions.

(** ** Tensors described by functions

    A tensor of a given shape, well formed, whose element at every index
    is the value of a function. *)

Section Holds.
Context {F : Type} `{SF : Scalar F}.

Definition holds4 (t : tensor F) (a b c d : nat)
    (f : nat -> nat -> nat -> nat -> F) : Prop :=
  shape t = [a; b; c; d] /\ well_formed t
  /\ forall i1 i2 i3 i4, i1 < a -> i2 < b -> i3 < c -> i4 < d ->
       get t [i1; i2; i3; i4] = f i1 i2 i3 i4.

Definition holds5 (t : tensor F) (a b c d e : nat)
    (f : nat -> nat -> nat -> nat -> nat -> F) : Prop :=
  shape t = [a; b; c; d; e] /\ well_formed t
  /\ forall i1 i2 i3 i4 i5, i1 < a -> i2 < b -> i3 < c -> i4 < d -> i5 < e ->
       get t [i1; i2; i3; i4; i5] = f i1 i2 i3 i4 i5.

Definition holds6 (t : tensor F) (a b c d e g : nat)
    (f : nat -> nat -> nat -> nat -> nat -> nat -> F) : Prop :=
  shape t = [a; b; c; d; e; g] /\ well_formed t
  /\ forall i1 i2 i3 i4 i5 i6,
       i1 < a -> i2 < b -> i3 < c -> i4 < d -> i5 < e -> i6 < g ->
       get t [i1; i2; i3; i4; i5; i6] = f i1 i2 i3 i4 i5 i6.

End Holds.

(** The state the chunked engine holds after [n] whole chunks. *)

Section ChunkIteration.
Context {F : Type} `{SF : Scalar F}.
Variable h2 : nat.
Variables (k v lw : nat -> nat -> F).
Variable S0 : nat -> nat -> F.

Fixpoint Schunk (n : nat) : nat -> nat -> F :=
  match n with
  | 0 => S0
  | S n' => Snext h2 k v lw (n' * (h2 + h2)) (Schunk n')
  end.

End ChunkIteration.

(** ** Exact arithmetic

    The scalars form a commutative ring on which the exponential turns
    sums into products, and no cast rounds. *)

Record exact_arithmetic {F : Type} `{SF : Scalar F} (fone : F)
    (fopp : F -> F) : Prop := {
  exact_ring : ring_theory fzero fone fadd fmul fsub fopp eq;
  exact_exp_add : forall a b : F, fexp (fadd a b) = fmul (fexp a) (fexp b);
  exact_exp_zero : fexp fzero = fone;
  exact_cast : forall (d : dtype) (x : F), fcast d x = x
}.

(** Every decay of [w] comes back unchanged from the clamp at the floor
    [m], the logarithm and the exponential; with real numbers these are
    the decays that are not below the floor. *)
Definition decay_exact {F : Type} `{SF : Scalar F} (m : Q) (w : tensor F)
  : Prop :=
  Forall (fun x => fexp (flog (fmax x (fconst m))) = x) (data w).

(** The shapes the docstring of [rwkv_inner] asks for (rwkv_inner.py,
    lines 9-17), on tensors that hold as many elements as their shape
    says. *)
Definition documented {F : Type} (B Bw H L K V : nat)
    (r k v w u kv_state : tensor F) : Prop :=
  shape r = [B; H; L; K] /\ shape k = [B; H; L; K]
  /\ shape v = [B; H; L; V] /\ shape w = [Bw; H; L; K]
  /\ (Bw = B \/ Bw = 1) /\ shape u = [1; H; 1; K]
  /\ shape kv_state = [B; H; K; V]
  /\ well_formed r /\ well_formed k /\ well_formed v /\ well_formed w
  /\ well_formed u /\ well_formed kv_state.

(** ** The sanity check of the repository (rwkv5_1.py, lines 37-59)

    [sanity_check] draws random inputs, runs the reference engine and
    prints its output, then runs the chunked engine with chunks of
    length two and prints its output. *)

Section SanityCheck.
Context {F : Type} `{SF : Scalar F}.

(** [t.expand(sizes...)] for sizes without [-1]: [t] broadcast to the shape
    [sizes].  A dimension of [t] other than 1 has to agree with the
    requested size, and [sizes] has at least the rank of [t]. *)
Definition expand (sizes : list nat) (t : tensor F) : result (tensor F) :=
  s <- broadcast_shapes (shape t) sizes ;;
  if list_eqb s sizes
  then Ok (tabulate sizes (fun idx => get t (bidx (shape t) idx)))
  else Raise (RuntimeError not_broadcastable).

(** [torch.zeros(sizes...)]. *)
Definition zeros (sizes : list nat) : tensor F :=
  tabulate sizes (fun _ => fzero).

(** [torch.rand(sizes...)]: the random generator is the stream of the
    numbers it is going to produce; a draw takes as many numbers as the
    tensor holds and leaves the rest of the stream. *)
Definition rand (sizes : list nat) (gen : nat -> F)
  : tensor F * (nat -> F) :=
  (mkTensor sizes (map gen (seq 0 (numel sizes))),
   fun i => gen (numel sizes + i)).

(** What [sanity_check] has printed when it ends, and how it ends. *)
Definition sanity_check (gen : nat -> F)
  : list (tensor F) * result unit :=
  let T := 4 in
  let B := 1 in
  let H := 1 in
  let K := 3 in
  let V := 5 in
  let '(r, gen) := rand [B; H; T; K] gen in
  let '(k, gen) := rand [B; H; T; K] gen in
  let '(v, gen) := rand [B; H; T; V] gen in
  let '(w0, gen) := rand [1; H; 1; 1] gen in
  match expand [B; H; T; K] w0 with
  | Raise e => ([], Raise e)
  | Ok w =>
      let '(u, gen) := rand [1; H; 1; 1] gen in
      let kv_state := zeros [B; H; K; V] in
      let precision_min_val := (2 # 100)%Q in
      let w := clamp precision_min_val w in
      (* recurrent *)
      match rwkv5_1_recurrent r k v w u kv_state with
      | Raise e => ([], Raise e)
      | Ok (out, _) =>
          (* parallel *)
          match rwkv_inner r k v w u kv_state 2%Z float32 with
          | Raise e => ([out], Raise e)
          | Ok (out', _) => ([out; out'], Ok tt)
          end
      end
  end.

End SanityCheck.

(** ** Shapes across arithmetics

    Two tensors, possibly over different scalars, of the same shape; and
    the arithmetic with a single number, on which an engine computes its
    control flow and the shapes of its results and nothing else. *)

Definition alike {F1 F2 : Type} (a : tensor F1) (b : tensor F2) : Prop :=
  shape a = shape b.

Definition alike2 {F1 F2 : Type} (a : tensor F1 * tensor F1)
    (b : tensor F2 * tensor F2) : Prop :=
  alike (fst a) (fst b) /\ alike (snd a) (snd b).

Definition alike_acc {F1 F2 : Type} (a : list (tensor F1) * tensor F1)
    (b : list (tensor F2) * tensor F2) : Prop :=
  Forall2 alike (fst a) (fst b) /\ alike (snd a) (snd b).

Definition decays_alike {F1 F2 : Type} (d : decays (F := F1))
    (d' : decays (F := F2)) : Prop :=
  batch_w d = batch_w d'
  /\ alike (wc_log d) (wc_log d')
  /\ alike (wc_log_cum d) (wc_log_cum d')
  /\ alike (shifted_wc_log_cum d) (shifted_wc_log_cum d')
  /\ Forall2 alike (ws d) (ws d')
  /\ alike (w_inter d) (w_inter d')
  /\ alike (w_intra d) (w_intra d').

#[global] Instance OnePoint : Scalar unit := {|
  fzero := tt;
  fadd := fun _ _ => tt;
  fsub := fun _ _ => tt;
  fmul := fun _ _ => tt;
  fmax := fun _ _ => tt;
  fexp := fun _ => tt;
  flog := fun _ => tt;
  fconst := fun _ => tt;
  fcast := fun _ _ => tt;
  working := float32
|}.

(** The tensor of a shape over the one-point arithmetic. *)
Definition blank (s : list nat) : tensor unit :=
  tabulate s (fun _ => tt).
(** * Properties *)

Local Open Scope nat_scope.
Local Open Scope result_scope.

(** ** Indices of a shape *)

Lemma numel_app (a b : list nat) : numel (a ++ b) = numel a * numel b.
Proof.
  induction a as [|x a IH]; simpl; [lia|]. rewrite IH. lia.
Qed.

Lemma length_flat_map_const {A B : Type} (g : A -> list B) (n : nat)
      (l : list A) :
  (forall x, length (g x) = n) -> length (flat_map g l) = length l * n.
Proof.
  intros Hg. induction l as [|x l IH]; simpl; [reflexivity|].
  rewrite length_app, Hg, IH. reflexivity.
Qed.

Lemma length_indices (s : list nat) : length (indices s) = numel s.
Proof.
  induction s as [|d s IH]; simpl; [reflexivity|].
  rewrite length_flat_map_const with (n := numel s).
  - now rewrite length_seq.
  - intros i. now rewrite length_map.
Qed.

Lemma nth_error_blocks {A : Type} (g : nat -> list A) (n : nat) :
  (forall i, length (g i) = n) ->
  forall d a i r, i < d -> r < n ->
    nth_error (flat_map g (seq a d)) (i * n + r) = nth_error (g (a + i)) r.
Proof.
  intros Hg. induction d as [|d IH]; intros a i r Hi Hr; [lia|].
  simpl. destruct i as [|i].
  - simpl. rewrite nth_error_app1 by (rewrite Hg; exact Hr).
    now rewrite Nat.add_0_r.
  - rewrite nth_error_app2 by (rewrite Hg; simpl; lia).
    rewrite Hg. replace (S i * n + r - n) with (i * n + r) by (simpl; lia).
    rewrite IH by lia. f_equal. f_equal. lia.
Qed.

Lemma ravel_lt (s idx : list nat) : in_range idx s -> ravel s idx < numel s.
Proof.
  intros H. induction H as [|i d idx s Hi _ IH]; simpl; [lia|]. nia.
Qed.

Lemma nth_error_indices (s idx : list nat) :
  in_range idx s -> nth_error (indices s) (ravel s idx) = Some idx.
Proof.
  intros H. induction H as [|i d idx s Hi Hr IH]; simpl; [reflexivity|].
  rewrite nth_error_blocks with (n := numel s).
  - simpl. rewrite nth_error_map, IH. reflexivity.
  - intros j. now rewrite length_map, length_indices.
  - exact Hi.
  - now apply ravel_lt.
Qed.

Lemma indices_in_range (s : list nat) (n : nat) :
  n < numel s ->
  exists idx, nth_error (indices s) n = Some idx /\ in_range idx s
              /\ ravel s idx = n.
Proof.
  revert n. induction s as [|d s IH]; intros n Hn; simpl in *.
  - exists []. assert (n = 0) by lia. subst. repeat split. constructor.
  - assert (Hm : numel s <> 0) by (intros E; rewrite E in Hn; lia).
    assert (Hq : n / numel s < d)
      by (apply Nat.Div0.div_lt_upper_bound; lia).
    assert (Hr : n mod numel s < numel s) by (apply Nat.mod_upper_bound; lia).
    destruct (IH _ Hr) as (idx & E & R & V).
    exists (n / numel s :: idx).
    assert (En : n = n / numel s * numel s + n mod numel s).
    { rewrite Nat.mul_comm. apply Nat.div_mod_eq. }
    repeat split.
    + rewrite En at 1.
      rewrite nth_error_blocks with (n := numel s); auto.
      * simpl. rewrite nth_error_map, E. reflexivity.
      * intros j. now rewrite length_map, length_indices.
    + constructor; assumption.
    + simpl. rewrite V. lia.
Qed.

Lemma in_indices (s idx : list nat) : In idx (indices s) -> in_range idx s.
Proof.
  intros H. apply In_nth_error in H. destruct H as (n & H).
  assert (Hn : n < numel s).
  { rewrite <- length_indices. apply nth_error_Some. congruence. }
  destruct (indices_in_range s Hn) as (idx' & E & R & _).
  congruence.
Qed.

(** ** Reading and building tensors *)

Section TensorFacts.
Context {F : Type} `{SF : Scalar F}.
Local Abbreviation tensor := (tensor F).

Lemma well_formed_tabulate (s : list nat) (f : list nat -> F) :
  well_formed (tabulate s f).
Proof. unfold well_formed. simpl. now rewrite length_map, length_indices. Qed.

Lemma get_tabulate (s : list nat) (f : list nat -> F) (idx : list nat) :
  in_range idx s -> get (tabulate s f) idx = f idx.
Proof.
  intros H. unfold get. simpl.
  apply nth_error_nth. rewrite nth_error_map, nth_error_indices by exact H.
  reflexivity.
Qed.

Lemma tabulate_ext (s : list nat) (f g : list nat -> F) :
  (forall idx, in_range idx s -> f idx = g idx) ->
  tabulate s f = tabulate s g.
Proof.
  intros H. unfold tabulate. f_equal. apply map_ext_in.
  intros idx Hin. apply H. now apply in_indices.
Qed.

Lemma tabulate_get (t : tensor) :
  well_formed t -> tabulate (shape t) (get t) = t.
Proof.
  destruct t as [s d]. unfold well_formed, tabulate. simpl. intros W.
  f_equal. apply nth_error_ext. intros n.
  rewrite nth_error_map.
  destruct (Nat.lt_ge_cases n (numel s)) as [Hn|Hn].
  - destruct (indices_in_range s Hn) as (idx & E & R & V).
    rewrite E. simpl. unfold get. simpl. rewrite V.
    symmetry. apply nth_error_nth'. lia.
  - assert (E1 : nth_error (indices s) n = None)
      by (apply nth_error_None; rewrite length_indices; lia).
    assert (E2 : nth_error d n = None) by (apply nth_error_None; lia).
    rewrite E1, E2. reflexivity.
Qed.

(** Two well-formed tensors of one shape with the same elements are
    equal. *)
Lemma tensor_ext (a b : tensor) :
  well_formed a -> well_formed b -> shape a = shape b ->
  (forall idx, in_range idx (shape a) -> get a idx = get b idx) ->
  a = b.
Proof.
  intros Wa Wb Hs H.
  rewrite <- (tabulate_get Wa), <- (tabulate_get Wb), <- Hs.
  now apply tabulate_ext.
Qed.

End TensorFacts.

(** ** Broadcasting *)

Lemma sel_lt (n i : nat) : i < n -> (if n =? 1 then 0 else i) = i.
Proof. intros H. destruct (Nat.eqb_spec n 1); lia. Qed.

Lemma broadcast_rev_into (a s : list nat) :
  Forall2 (fun x y => x = y \/ x = 1) a s -> broadcast_rev a s = Ok s.
Proof.
  intros H. induction H as [|x y a s Hxy _ IH]; [reflexivity|].
  simpl. rewrite IH. simpl.
  destruct (Nat.eqb_spec x y) as [-> | Hne]; [reflexivity|].
  destruct Hxy as [-> | ->]; [congruence|]. reflexivity.
Qed.

Lemma Forall2_rev_intro {A B : Type} (R : A -> B -> Prop) (a : list A)
      (b : list B) :
  Forall2 R a b -> Forall2 R (rev a) (rev b).
Proof.
  intros H. induction H; simpl; [constructor|].
  apply Forall2_app; [assumption|]. constructor; [assumption|constructor].
Qed.

(** A shape that is, dimension by dimension, equal to [s] or 1
    broadcasts with [s] to [s]. *)
Lemma broadcast_shapes_into (a s : list nat) :
  Forall2 (fun x y => x = y \/ x = 1) a s -> broadcast_shapes a s = Ok s.
Proof.
  intros H. unfold broadcast_shapes.
  rewrite broadcast_rev_into by now apply Forall2_rev_intro.
  simpl. now rewrite rev_involutive.
Qed.

Lemma broadcast_shapes_same (s : list nat) : broadcast_shapes s s = Ok s.
Proof.
  apply broadcast_shapes_into. induction s; constructor; auto.
Qed.

Lemma list_eqb_refl (s : list nat) : list_eqb s s = true.
Proof. induction s; simpl; [reflexivity|]. now rewrite Nat.eqb_refl. Qed.

(** ** Slices *)

Lemma slice_range_one (n t : nat) :
  t < n ->
  slice_range n (Some (Z.of_nat t)) (Some (Z.of_nat t + 1)%Z) = (t, 1).
Proof.
  intros H. unfold slice_range, slice_bound.
  destruct (Z.ltb_spec (Z.of_nat t) 0); [lia|].
  destruct (Z.ltb_spec (Z.of_nat t + 1) 0); [lia|].
  f_equal; lia.
Qed.

Ltac in_range_tac :=
  unfold in_range;
  repeat (apply Forall2_cons; [cbn [length] in *; lia|]); apply Forall2_nil.

(** ** The operations of the reference engine on tensors of rank 4 *)

Section Rank4.
Context {F : Type} `{SF : Scalar F}.
Local Abbreviation tensor := (tensor F).

Lemma slice_time (x : tensor) (B H L K t : nat) :
  shape x = [B; H; L; K] -> t < L ->
  exists y,
    slice_axis 2 (Some (Z.of_nat t)) (Some (Z.of_nat t + 1)%Z) x = Ok y
    /\ shape y = [B; H; 1; K]
    /\ forall b h i, b < B -> h < H -> i < K ->
         get y [b; h; 0; i] = get x [b; h; t; i].
Proof.
  intros Hs Ht. unfold slice_axis, rank. rewrite Hs.
  cbn [length Nat.leb Nat.sub nth]. rewrite slice_range_one by exact Ht.
  eexists. split; [reflexivity|]. split; [reflexivity|].
  intros b h i Hb Hh Hi.
  rewrite get_tabulate by (cbn; in_range_tac).
  cbn. now rewrite Nat.add_0_r.
Qed.

Lemma mT_rank4 (x : tensor) (B H n m : nat) :
  shape x = [B; H; n; m] ->
  exists y,
    mT x = Ok y /\ shape y = [B; H; m; n]
    /\ forall b h i j, b < B -> h < H -> i < m -> j < n ->
         get y [b; h; i; j] = get x [b; h; j; i].
Proof.
  intros Hs. unfold mT, split_last2. rewrite Hs. cbn [rev app].
  eexists. split; [reflexivity|]. split; [reflexivity|].
  intros b h i j Hb Hh Hi Hj.
  rewrite get_tabulate by (cbn; in_range_tac). reflexivity.
Qed.

Lemma matmul_rank4 (a b : tensor) (B H n m p : nat) :
  shape a = [B; H; n; m] -> shape b = [B; H; m; p] ->
  exists c,
    matmul a b = Ok c /\ shape c = [B; H; n; p]
    /\ forall x h i j, x < B -> h < H -> i < n -> j < p ->
         get c [x; h; i; j]
         = fsum (map (fun l => fmul (get a [x; h; i; l]) (get b [x; h; l; j]))
                     (seq 0 m)).
Proof.
  intros Ha Hb. unfold matmul, rank. rewrite Ha, Hb.
  cbn [length Nat.eqb orb]. unfold matmul2, split_last2. rewrite Ha, Hb.
  cbn [rev app]. rewrite broadcast_shapes_same. cbn [bind].
  rewrite Nat.eqb_refl. cbn [bind shape data tabulate].
  eexists. split; [reflexivity|]. split; [reflexivity|].
  intros x h i j Hx Hh Hi Hj.
  change (mkTensor ?s (map ?f (indices ?s))) with (tabulate s f).
  rewrite get_tabulate by (cbn; in_range_tac).
  cbn. rewrite !sel_lt by assumption. reflexivity.
Qed.

(** An elementwise operation whose left operand is broadcast over the
    batch and the last dimension. *)
Lemma binop_rank4 (f : F -> F -> F) (a b : tensor) (Ba Va B H K V : nat) :
  shape a = [Ba; H; K; Va] -> shape b = [B; H; K; V] ->
  Ba = B \/ Ba = 1 -> Va = V \/ Va = 1 ->
  exists c,
    binop f a b = Ok c /\ shape c = [B; H; K; V]
    /\ forall x h i j, x < B -> h < H -> i < K -> j < V ->
         get c [x; h; i; j]
         = f (get a [(if Ba =? 1 then 0 else x); h; i;
                     (if Va =? 1 then 0 else j)])
             (get b [x; h; i; j]).
Proof.
  intros Ha Hb HB HV. unfold binop. rewrite Ha, Hb.
  rewrite broadcast_shapes_into
    by (repeat (apply Forall2_cons; [auto|]); apply Forall2_nil).
  cbn [bind]. eexists. split; [reflexivity|]. split; [reflexivity|].
  intros x h i j Hx Hh Hi Hj.
  rewrite get_tabulate by in_range_tac.
  cbn. rewrite (sel_lt Hx), (sel_lt Hh), (sel_lt Hi), (sel_lt Hj).
  reflexivity.
Qed.

End Rank4.

(** ** The reference engine computes the specified recurrence *)

Section RecurrentCorrect.
Context {F : Type} `{SF : Scalar F}.
Local Abbreviation tensor := (tensor F).

Lemma locate_rows (outs : list tensor) (B H V t : nat) (d : tensor) :
  Forall (fun o => shape o = [B; H; 1; V]) outs -> t < length outs ->
  locate 2 outs t = Some (nth t outs d, 0).
Proof.
  intros Hall. revert t. induction Hall as [|o outs Ho _ IH]; intros t Ht.
  - simpl in Ht. lia.
  - simpl. rewrite Ho. cbn [nth]. destruct t as [|t]; [reflexivity|].
    cbn [Nat.ltb Nat.leb Nat.sub]. rewrite Nat.sub_0_r.
    apply IH. simpl in Ht. lia.
Qed.

Lemma cat_rows (outs : list tensor) (B H V : nat) (d : tensor) :
  Forall (fun o => shape o = [B; H; 1; V]) outs -> outs <> [] ->
  exists c,
    cat 2 outs = Ok c /\ well_formed c /\ shape c = [B; H; length outs; V]
    /\ forall b h t j, b < B -> h < H -> t < length outs -> j < V ->
         get c [b; h; t; j] = get (nth t outs d) [b; h; 0; j].
Proof.
  intros Hall Hne. destruct outs as [|o0 outs]; [congruence|].
  assert (H0 : shape o0 = [B; H; 1; V]) by now inversion Hall.
  unfold cat, rank. rewrite H0. cbn [length Nat.leb Nat.sub].
  assert (Hf : forallb (fun t => list_eqb (set_at 2 0 (shape t))
                                   (set_at 2 0 [B; H; 1; V])) (o0 :: outs)
               = true).
  { apply forallb_forall. intros t Hin.
    rewrite Forall_forall in Hall. rewrite (Hall t Hin).
    apply list_eqb_refl. }
  rewrite Hf.
  assert (Ht : fold_right (fun t n => nth 2 (shape t) 0 + n) 0 (o0 :: outs)
               = length (o0 :: outs)).
  { clear Hf H0 Hne. induction Hall as [|o l Ho _ IH]; [reflexivity|].
    cbn [fold_right length]. rewrite IH, Ho. reflexivity. }
  rewrite Ht.
  eexists. split; [reflexivity|].
  split; [apply well_formed_tabulate|]. split; [reflexivity|].
  intros b h t j Hb Hh Htl Hj.
  rewrite get_tabulate by (cbn [set_at firstn skipn app]; in_range_tac).
  cbn [nth]. rewrite (locate_rows d Hall Htl). reflexivity.
Qed.

Variables r_in k_in v_in w_in u kv0 : tensor.
Variables B H L K V Bw : nat.
Hypothesis Hr : shape r_in = [B; H; L; K].
Hypothesis Hk : shape k_in = [B; H; L; K].
Hypothesis Hv : shape v_in = [B; H; L; V].
Hypothesis Hw : shape w_in = [Bw; H; L; K].
Hypothesis HBw : Bw = B \/ Bw = 1.
Hypothesis Hu : shape u = [1; H; 1; K].

Local Abbreviation state_at := (spec_state k_in v_in w_in kv0).
Local Abbreviation out_at := (spec_out r_in k_in v_in w_in u kv0 K).

Lemma recurrent_step_spec (t : nat) (outs : list tensor) (st : tensor) :
  t < L -> shape st = [B; H; K; V] ->
  (forall b h i j, b < B -> h < H -> i < K -> j < V ->
     get st [b; h; i; j] = state_at t b h i j) ->
  exists o st',
    recurrent_step r_in k_in v_in w_in u t (outs, st) = Ok (outs ++ [o], st')
    /\ shape o = [B; H; 1; V]
    /\ (forall b h j, b < B -> h < H -> j < V ->
          get o [b; h; 0; j] = out_at t b h j)
    /\ shape st' = [B; H; K; V]
    /\ (forall b h i j, b < B -> h < H -> i < K -> j < V ->
          get st' [b; h; i; j] = state_at (S t) b h i j).
Proof.
  intros Ht Hst Gst. unfold recurrent_step.
  destruct (slice_time r_in Hr Ht) as (r & -> & Sr & Gr).
  destruct (slice_time k_in Hk Ht) as (k & -> & Sk & Gk).
  destruct (slice_time v_in Hv Ht) as (v & -> & Sv & Gv).
  destruct (slice_time w_in Hw Ht) as (w & -> & Sw & Gw).
  cbn [bind].
  destruct (mT_rank4 k Sk) as (kT & -> & SkT & GkT).
  cbn [bind].
  destruct (matmul_rank4 kT v SkT Sv) as (kv & -> & Skv & Gkv).
  cbn [bind].
  destruct (mT_rank4 u Hu) as (uT & -> & SuT & GuT).
  cbn [bind].
  destruct (binop_rank4 fmul uT kv SuT Skv (or_intror eq_refl)
              (or_intror eq_refl)) as (ukv & Eukv & Sukv & Gukv).
  unfold mul. rewrite Eukv. cbn [bind].
  destruct (binop_rank4 fadd st ukv Hst Sukv (or_introl eq_refl)
              (or_introl eq_refl)) as (att & Eatt & Satt & Gatt).
  unfold add at 1. rewrite Eatt. cbn [bind].
  destruct (matmul_rank4 r att Sr Satt) as (o & -> & So & Go).
  cbn [bind].
  destruct (mT_rank4 w Sw) as (wT & -> & SwT & GwT).
  cbn [bind].
  destruct (binop_rank4 fmul wT st SwT Hst HBw (or_intror eq_refl))
    as (dec & Edec & Sdec & Gdec).
  rewrite Edec. cbn [bind].
  destruct (binop_rank4 fadd dec kv Sdec Skv (or_introl eq_refl)
              (or_introl eq_refl)) as (st' & Est' & Sst' & Gst').
  unfold add. rewrite Est'. cbn [bind].
  assert (Kv : forall b h i j, b < B -> h < H -> i < K -> j < V ->
                 get kv [b; h; i; j] = spec_kv k_in v_in t b h i j).
  { intros b h i j Hb Hh Hi Hj. rewrite Gkv by assumption.
    cbn [seq map fsum fold_left].
    rewrite GkT, Gk, Gv by (assumption || lia). reflexivity. }
  exists o, st'. split; [reflexivity|]. split; [exact So|].
  split; [|split; [exact Sst'|]].
  - intros b h j Hb Hh Hj. rewrite Go by (assumption || lia).
    unfold spec_out. f_equal. apply map_ext_in. intros i Hi.
    apply in_seq in Hi.
    rewrite Gr, Gatt by (assumption || lia).
    rewrite (sel_lt Hb), (sel_lt Hj).
    rewrite Gukv, Kv, Gst by (assumption || lia). cbn [Nat.eqb].
    rewrite GuT by (assumption || lia). reflexivity.
  - intros b h i j Hb Hh Hi Hj.
    rewrite Gst' by assumption.
    rewrite (sel_lt Hb), (sel_lt Hj).
    rewrite Gdec, Kv, Gst by assumption. cbn [Nat.eqb spec_state].
    assert (Bcase : (if Bw =? 1 then 0 else b) < Bw).
    { destruct (Nat.eqb_spec Bw 1); destruct HBw; lia. }
    rewrite GwT by (assumption || lia).
    rewrite Gw by (assumption || lia).
    unfold spec_w. rewrite Hw. reflexivity.
Qed.

Lemma recurrent_loop_spec (n : nat) :
  forall (a : nat) (outs : list tensor) (st : tensor),
    a + n <= L -> shape st = [B; H; K; V] ->
    (forall b h i j, b < B -> h < H -> i < K -> j < V ->
       get st [b; h; i; j] = state_at a b h i j) ->
    length outs = a ->
    Forall (fun o => shape o = [B; H; 1; V]) outs ->
    (forall t b h j, t < a -> b < B -> h < H -> j < V ->
       get (nth t outs kv0) [b; h; 0; j] = out_at t b h j) ->
    exists outs' st',
      for_each (recurrent_step r_in k_in v_in w_in u) (seq a n) (outs, st)
      = Ok (outs', st')
      /\ shape st' = [B; H; K; V]
      /\ (forall b h i j, b < B -> h < H -> i < K -> j < V ->
            get st' [b; h; i; j] = state_at (a + n) b h i j)
      /\ length outs' = a + n
      /\ Forall (fun o => shape o = [B; H; 1; V]) outs'
      /\ (forall t b h j, t < a + n -> b < B -> h < H -> j < V ->
            get (nth t outs' kv0) [b; h; 0; j] = out_at t b h j).
Proof.
  induction n as [|n IH]; intros a outs st Hle Sst Gst Hlen Hall Gout.
  - exists outs, st. rewrite Nat.add_0_r. cbn [seq for_each].
    repeat split; assumption.
  - cbn [seq for_each].
    destruct (@recurrent_step_spec a outs st) as (o & st1 & -> & So & Go & Sst1 & Gst1);
      [lia | assumption | assumption |].
    cbn [bind].
    destruct (IH (S a) (outs ++ [o]) st1) as (outs' & st' & E & R1 & R2 & R3 & R4 & R5).
    + lia.
    + exact Sst1.
    + exact Gst1.
    + rewrite length_app. simpl. lia.
    + apply Forall_app. split; [assumption|]. constructor; [assumption|constructor].
    + intros t b h j Ht Hb Hh Hj.
      destruct (Nat.eq_dec t a) as [->|Hne].
      * rewrite app_nth2 by lia. rewrite Hlen, Nat.sub_diag. cbn [nth].
        now apply Go.
      * rewrite app_nth1 by lia. apply Gout; (assumption || lia).
    + exists outs', st'. replace (a + S n) with (S a + n) by lia.
      repeat split; assumption.
Qed.

Hypothesis Hs : shape kv0 = [B; H; K; V].

(** The outputs and the final state of the reference engine, element by
    element. *)
Lemma recurrent_elements :
  0 < L ->
  exists out kv_state',
    rwkv5_1_recurrent r_in k_in v_in w_in u kv0 = Ok (out, kv_state')
    /\ shape out = [B; H; L; V]
    /\ shape kv_state' = [B; H; K; V]
    /\ (forall b h t j, b < B -> h < H -> t < L -> j < V ->
          get out [b; h; t; j] = out_at t b h j)
    /\ (forall b h i j, b < B -> h < H -> i < K -> j < V ->
          get kv_state' [b; h; i; j] = state_at L b h i j).
Proof.
  intros HL. unfold rwkv5_1_recurrent, size_from_end, rank.
  rewrite Hr. cbn [length Nat.leb Nat.sub nth bind].
  destruct (@recurrent_loop_spec L 0 [] kv0)
    as (outs & st & -> & Sst & Gst & Hlen & Hall & Gout);
    [lia | exact Hs | reflexivity | reflexivity | constructor
     | intros; lia |].
  cbn [bind].
  destruct (cat_rows kv0 Hall) as (c & -> & _ & Sc & Gc).
  { intros ->. simpl in Hlen. lia. }
  cbn [bind]. exists c, st.
  split; [reflexivity|]. rewrite Hlen in Sc. cbn [Nat.add] in *.
  split; [exact Sc|]. split; [exact Sst|]. split; [|exact Gst].
  intros b h t j Hb Hh Ht Hj.
  rewrite Gc by (assumption || lia). now apply Gout.
Qed.

(** C2. On inputs of the documented shapes and at least one timestep,
    the reference engine returns, for every timestep [t], the output
    [out[t] = r[t] @ (kv_state + u * kv_t)] with [kv_t = k[t]^T @ v[t]],
    where the state is updated by [kv_state = w[t] * kv_state + kv_t]
    after every step; the outputs are concatenated along time and the
    state after the last step is returned with them. *)
Theorem rwkv5_1_recurrent_correct :
  0 < L ->
  exists out kv_state',
    rwkv5_1_recurrent r_in k_in v_in w_in u kv0 = Ok (out, kv_state')
    /\ shape out = [B; H; L; V]
    /\ shape kv_state' = [B; H; K; V]
    /\ (forall b h t j, b < B -> h < H -> t < L -> j < V ->
          get out [b; h; t; j] = out_at t b h j)
    /\ (forall b h i j, b < B -> h < H -> i < K -> j < V ->
          get kv_state' [b; h; i; j] = state_at L b h i j).
Proof.
  intros HL. unfold rwkv5_1_recurrent, size_from_end, rank.
  rewrite Hr. cbn [length Nat.leb Nat.sub nth bind].
  destruct (@recurrent_loop_spec L 0 [] kv0)
    as (outs & st & -> & Sst & Gst & Hlen & Hall & Gout);
    [lia | exact Hs | reflexivity | reflexivity | constructor
     | intros; lia |].
  cbn [bind].
  destruct (cat_rows kv0 Hall) as (c & -> & _ & Sc & Gc).
  { intros ->. simpl in Hlen. lia. }
  cbn [bind]. exists c, st.
  split; [reflexivity|]. rewrite Hlen in Sc. cbn [Nat.add] in *.
  split; [exact Sc|]. split; [exact Sst|]. split; [|exact Gst].
  intros b h t j Hb Hh Ht Hj.
  rewrite Gc by (assumption || lia). now apply Gout.
Qed.

End RecurrentCorrect.

(** ** Loops *)

Lemma for_each_ext {A S : Type} (f g : A -> S -> result S) (l : list A) :
  (forall x, In x l -> forall s, f x s = g x s) ->
  forall s, for_each f l s = for_each g l s.
Proof.
  induction l as [|x l IH]; intros Hfg s; [reflexivity|].
  simpl. rewrite Hfg by (left; reflexivity).
  destruct (g x s); [|reflexivity]. simpl.
  apply IH. intros y Hy. apply Hfg. now right.
Qed.

Lemma for_each_app {A S : Type} (f : A -> S -> result S) (l1 l2 : list A)
      (s : S) :
  for_each f (l1 ++ l2) s = (s' <- for_each f l1 s ;; for_each f l2 s').
Proof.
  revert s. induction l1 as [|x l1 IH]; intros s; [reflexivity|].
  simpl. destruct (f x s); [|reflexivity]. simpl. apply IH.
Qed.

Lemma for_each_seq_shift {S : Type} (f : nat -> S -> result S) (k n : nat) :
  forall a s,
    for_each (fun t => f (k + t)) (seq a n) s = for_each f (seq (k + a) n) s.
Proof.
  induction n as [|n IH]; intros a s; [reflexivity|].
  simpl. destruct (f (k + a) s); [|reflexivity]. simpl.
  rewrite IH. now rewrite Nat.add_succ_r.
Qed.

(** ** Slices of slices *)

Lemma in_range4 (idx : list nat) (a b c d : nat) :
  in_range idx [a; b; c; d] ->
  exists i j k l, idx = [i; j; k; l] /\ i < a /\ j < b /\ k < c /\ l < d.
Proof.
  unfold in_range. intros H.
  destruct idx as [|i [|j [|k [|l [|? ?]]]]];
    repeat match goal with
           | H : Forall2 _ _ _ |- _ => inversion H; clear H; subst
           end.
  exists i, j, k, l. auto.
Qed.

Lemma slice_range_upto (n s : nat) :
  s <= n -> slice_range n None (Some (Z.of_nat s)) = (0, s).
Proof.
  intros H. unfold slice_range, slice_bound.
  destruct (Z.ltb_spec (Z.of_nat s) 0); [lia|]. f_equal; lia.
Qed.

Lemma slice_range_from (n s : nat) :
  s <= n -> slice_range n (Some (Z.of_nat s)) None = (s, n - s).
Proof.
  intros H. unfold slice_range, slice_bound.
  destruct (Z.ltb_spec (Z.of_nat s) 0); [lia|]. f_equal; lia.
Qed.

Section Segments.
Context {F : Type} `{SF : Scalar F}.
Local Abbreviation tensor := (tensor F).

Lemma slice_upto (x : tensor) (A H L K s : nat) :
  shape x = [A; H; L; K] -> s <= L ->
  slice_axis 2 None (Some (Z.of_nat s)) x
  = Ok (tabulate [A; H; s; K] (fun idx =>
          get x (set_at 2 (0 + nth 2 idx 0) idx))).
Proof.
  intros Hs Hle. unfold slice_axis, rank. rewrite Hs.
  cbn [length Nat.leb Nat.sub nth]. now rewrite slice_range_upto.
Qed.

Lemma slice_from (x : tensor) (A H L K s : nat) :
  shape x = [A; H; L; K] -> s <= L ->
  slice_axis 2 (Some (Z.of_nat s)) None x
  = Ok (tabulate [A; H; L - s; K] (fun idx =>
          get x (set_at 2 (s + nth 2 idx 0) idx))).
Proof.
  intros Hs Hle. unfold slice_axis, rank. rewrite Hs.
  cbn [length Nat.leb Nat.sub nth]. now rewrite slice_range_from.
Qed.

(** One timestep of a segment is that timestep of the whole sequence. *)
Lemma slice_time_of_segment (x : tensor) (A H L K a n t : nat) :
  shape x = [A; H; L; K] -> a + n <= L -> t < n ->
  slice_axis 2 (Some (Z.of_nat t)) (Some (Z.of_nat t + 1)%Z)
    (tabulate [A; H; n; K] (fun idx =>
       get x (set_at 2 (a + nth 2 idx 0) idx)))
  = slice_axis 2 (Some (Z.of_nat (a + t))) (Some (Z.of_nat (a + t) + 1)%Z) x.
Proof.
  intros Hs Hle Ht. unfold slice_axis, rank. rewrite Hs.
  cbn [shape tabulate length Nat.leb Nat.sub nth].
  rewrite (slice_range_one Ht).
  rewrite (@slice_range_one L (a + t)) by lia. f_equal.
  apply tabulate_ext. intros idx Hin.
  apply in_range4 in Hin. destruct Hin as (b & h & z & i & -> & Hb & Hh & Hz & Hi).
  cbn [set_at firstn skipn app nth].
  change (mkTensor ?s (map ?f (indices ?s))) with (tabulate s f).
  rewrite get_tabulate by in_range_tac.
  cbn [set_at firstn skipn app nth]. now rewrite Nat.add_assoc.
Qed.

End Segments.

(** ** Segmented evaluation of the reference engine *)

Section RecurrentStreaming.
Context {F : Type} `{SF : Scalar F}.
Local Abbreviation tensor := (tensor F).

Lemma cat_pair (o1 o2 : tensor) (B H n1 n2 V : nat) :
  shape o1 = [B; H; n1; V] -> shape o2 = [B; H; n2; V] ->
  exists c,
    cat 2 [o1; o2] = Ok c /\ well_formed c /\ shape c = [B; H; n1 + n2; V]
    /\ forall b h t j, b < B -> h < H -> t < n1 + n2 -> j < V ->
         get c [b; h; t; j]
         = if t <? n1 then get o1 [b; h; t; j] else get o2 [b; h; t - n1; j].
Proof.
  intros H1 H2. unfold cat, rank. rewrite H1.
  cbn [length Nat.leb Nat.sub forallb fold_right]. rewrite H1, H2.
  cbn [set_at firstn skipn app nth]. rewrite !list_eqb_refl.
  cbn [andb]. rewrite Nat.add_0_r.
  eexists. split; [reflexivity|].
  split; [apply well_formed_tabulate|]. split; [reflexivity|].
  intros b h t j Hb Hh Ht Hj.
  rewrite get_tabulate by in_range_tac.
  cbn [nth locate]. rewrite H1, H2. cbn [nth].
  destruct (Nat.ltb_spec t n1) as [Hlt|Hge]; [reflexivity|].
  destruct (Nat.ltb_spec (t - n1) n2) as [Hlt|Hge']; [reflexivity|lia].
Qed.

Lemma recurrent_step_prefix (r k v w u : tensor) (pre : list tensor)
      (t : nat) (outs : list tensor) (st : tensor) :
  recurrent_step r k v w u t (pre ++ outs, st)
  = ('(o, st') <- recurrent_step r k v w u t (outs, st) ;; Ok (pre ++ o, st')).
Proof.
  unfold recurrent_step.
  repeat match goal with
         | |- bind ?c _ = bind (bind ?c _) _ =>
             destruct c; cbn [bind]; [|reflexivity]
         end.
  now rewrite app_assoc.
Qed.

Lemma recurrent_loop_prefix (r k v w u : tensor) (pre : list tensor)
      (l : list nat) :
  forall (outs : list tensor) (st : tensor),
    for_each (recurrent_step r k v w u) l (pre ++ outs, st)
    = ('(o, st') <- for_each (recurrent_step r k v w u) l (outs, st) ;;
       Ok (pre ++ o, st')).
Proof.
  induction l as [|t l IH]; intros outs st; [reflexivity|].
  cbn [for_each]. rewrite recurrent_step_prefix.
  destruct (recurrent_step r k v w u t (outs, st)) as [[o st']|e];
    [|reflexivity].
  cbn [bind]. apply IH.
Qed.

Variables r_in k_in v_in w_in u kv0 : tensor.
Variables B H L K V Bw s : nat.
Hypothesis Hr : shape r_in = [B; H; L; K].
Hypothesis Hk : shape k_in = [B; H; L; K].
Hypothesis Hv : shape v_in = [B; H; L; V].
Hypothesis Hw : shape w_in = [Bw; H; L; K].
Hypothesis HBw : Bw = B \/ Bw = 1.
Hypothesis Hu : shape u = [1; H; 1; K].
Hypothesis Hs : shape kv0 = [B; H; K; V].
Hypothesis Hsplit : 0 < s < L.

Local Abbreviation segment2 x n d :=
  (tabulate [n; H; L - s; d] (fun idx =>
     get x (set_at 2 (s + nth 2 idx 0) idx))).
Local Abbreviation segment1 x n d :=
  (tabulate [n; H; s; d] (fun idx =>
     get x (set_at 2 (0 + nth 2 idx 0) idx))).

Lemma step_of_segment1 (t : nat) (acc : list tensor * tensor) :
  t < s ->
  recurrent_step (segment1 r_in B K) (segment1 k_in B K) (segment1 v_in B V)
    (segment1 w_in Bw K) u t acc
  = recurrent_step r_in k_in v_in w_in u t acc.
Proof.
  intros Ht. unfold recurrent_step. destruct acc as [outs st].
  rewrite (@slice_time_of_segment _ _ r_in B H L K 0 s t) by (assumption || lia).
  rewrite (@slice_time_of_segment _ _ k_in B H L K 0 s t) by (assumption || lia).
  rewrite (@slice_time_of_segment _ _ v_in B H L V 0 s t) by (assumption || lia).
  rewrite (@slice_time_of_segment _ _ w_in Bw H L K 0 s t) by (assumption || lia).
  reflexivity.
Qed.

Lemma step_of_segment2 (t : nat) (acc : list tensor * tensor) :
  t < L - s ->
  recurrent_step (segment2 r_in B K) (segment2 k_in B K) (segment2 v_in B V)
    (segment2 w_in Bw K) u t acc
  = recurrent_step r_in k_in v_in w_in u (s + t) acc.
Proof.
  intros Ht. unfold recurrent_step. destruct acc as [outs st].
  rewrite (@slice_time_of_segment _ _ r_in B H L K s (L - s) t) by (assumption || lia).
  rewrite (@slice_time_of_segment _ _ k_in B H L K s (L - s) t) by (assumption || lia).
  rewrite (@slice_time_of_segment _ _ v_in B H L V s (L - s) t) by (assumption || lia).
  rewrite (@slice_time_of_segment _ _ w_in Bw H L K s (L - s) t) by (assumption || lia).
  reflexivity.
Qed.

(** Split after [s] timesteps with both segments non-empty, the two
    runs of the reference engine give what one run gives. *)
Lemma recurrent_streaming :
  exists out kv_state',
    rwkv5_1_recurrent r_in k_in v_in w_in u kv0 = Ok (out, kv_state')
    /\ streamed rwkv5_1_recurrent s r_in k_in v_in w_in u kv0
       = Ok (out, kv_state').
Proof.
  (* the loop of the whole run, cut at [s] *)
  destruct (@recurrent_loop_spec _ _ r_in k_in v_in w_in u kv0 B H L K V Bw
              Hr Hk Hv Hw HBw Hu s 0 [] kv0)
    as (outs1 & st1 & E1 & Sst1 & Gst1 & Len1 & All1 & Gout1);
    [lia | exact Hs | reflexivity | reflexivity | constructor
     | intros; lia |].
  cbn [Nat.add] in *.
  destruct (@recurrent_loop_spec _ _ r_in k_in v_in w_in u kv0 B H L K V Bw
              Hr Hk Hv Hw HBw Hu (L - s) s outs1 st1)
    as (outsF & st2 & EF & Sst2 & _ & LenF & AllF & _);
    [lia | exact Sst1 | exact Gst1 | exact Len1 | exact All1 | exact Gout1 |].
  pose proof (recurrent_loop_prefix r_in k_in v_in w_in u outs1
                (seq s (L - s)) [] st1) as P.
  rewrite app_nil_r, EF in P.
  destruct (for_each (recurrent_step r_in k_in v_in w_in u) (seq s (L - s))
              ([], st1)) as [[outs2 st2']|e] eqn:E2; [|discriminate].
  cbn [bind] in P. injection P as -> ->.
  apply Forall_app in AllF. destruct AllF as [_ All2].
  assert (Len2 : length outs2 = L - s).
  { rewrite length_app in LenF. lia. }
  assert (AllF : Forall (fun o => shape o = [B; H; 1; V]) (outs1 ++ outs2))
    by (apply Forall_app; now split).
  destruct (cat_rows kv0 AllF) as (c & Ec & Wc & Sc & Gc).
  { destruct outs1; [simpl in Len1; lia | discriminate]. }
  destruct (cat_rows kv0 All1) as (o1 & Eo1 & _ & So1 & Go1).
  { destruct outs1; [simpl in Len1; lia | discriminate]. }
  destruct (cat_rows kv0 All2) as (o2 & Eo2 & _ & So2 & Go2).
  { destruct outs2; [simpl in Len2; lia | discriminate]. }
  rewrite Len1 in So1. rewrite Len2 in So2.
  destruct (cat_pair o1 o2 So1 So2) as (c' & Ec' & Wc' & Sc' & Gc').
  exists c, st2'. split.
  - (* one run *)
    unfold rwkv5_1_recurrent, size_from_end, rank. rewrite Hr.
    cbn [length Nat.leb Nat.sub nth bind].
    replace L with (s + (L - s)) at 1 by lia.
    rewrite seq_app, for_each_app, E1. cbn [bind Nat.add].
    rewrite <- (app_nil_r outs1) at 1.
    rewrite recurrent_loop_prefix, E2. cbn [bind].
    rewrite Ec. reflexivity.
  - (* two runs *)
    unfold streamed.
    rewrite (slice_upto r_in Hr), (slice_upto k_in Hk), (slice_upto v_in Hv),
      (slice_upto w_in Hw) by lia.
    cbn [bind].
    unfold rwkv5_1_recurrent at 1. unfold size_from_end, rank.
    cbn [shape tabulate length Nat.leb Nat.sub nth bind].
    rewrite (for_each_ext _ (recurrent_step r_in k_in v_in w_in u)).
    2:{ intros t Ht acc. apply in_seq in Ht.
        apply step_of_segment1. lia. }
    rewrite E1. cbn [bind]. rewrite Eo1. cbn [bind].
    rewrite (slice_from r_in Hr), (slice_from k_in Hk), (slice_from v_in Hv),
      (slice_from w_in Hw) by lia.
    cbn [bind].
    unfold rwkv5_1_recurrent. unfold size_from_end, rank.
    cbn [shape tabulate length Nat.leb Nat.sub nth bind].
    rewrite (for_each_ext _
               (fun t => recurrent_step r_in k_in v_in w_in u (s + t))).
    2:{ intros t Ht acc. apply in_seq in Ht.
        apply step_of_segment2. lia. }
    rewrite for_each_seq_shift, Nat.add_0_r, E2. cbn [bind].
    rewrite Eo2. cbn [bind]. rewrite Ec'. cbn [bind].
    do 2 f_equal. symmetry.
    apply tensor_ext; try assumption.
    { rewrite Sc, Sc', length_app, Len1, Len2. reflexivity. }
    rewrite Sc. intros idx Hin. apply in_range4 in Hin.
    destruct Hin as (b & h & t & j & -> & Hb & Hh & Ht & Hj).
    rewrite length_app, Len1, Len2 in Ht.
    rewrite Gc by (rewrite ?length_app; (assumption || lia)).
    rewrite Gc' by (assumption || lia).
    destruct (Nat.ltb_spec t s) as [Hlt|Hge].
    + rewrite app_nth1 by lia. rewrite Go1 by (assumption || lia).
      reflexivity.
    + rewrite app_nth2 by lia. rewrite Go2 by (assumption || lia).
      now rewrite Len1.
Qed.

End RecurrentStreaming.

(** ** Shapes of the results of the operations *)

Lemma infer_size_nonneg (zs : list Z) (n : nat) :
  Forall (fun z => (0 <= z)%Z) zs ->
  infer_size zs n
  = if numel (map Z.to_nat zs) =? n then Ok (map Z.to_nat zs)
    else Raise (RuntimeError invalid_view).
Proof.
  intros H. unfold infer_size.
  assert (E1 : existsb (fun z => (z <? -1)%Z) zs = false).
  { induction H as [|z zs Hz _ IH]; [reflexivity|].
    cbn [existsb]. rewrite IH, orb_false_r. apply Z.ltb_ge. lia. }
  assert (E2 : filter (fun z => (z =? -1)%Z) zs = []).
  { clear E1. induction H as [|z zs Hz _ IH]; [reflexivity|].
    cbn [filter]. rewrite IH.
    replace (z =? -1)%Z with false by (symmetry; apply Z.eqb_neq; lia).
    reflexivity. }
  assert (E3 : filter (fun z => negb (z =? -1)%Z) zs = zs).
  { clear E1 E2. induction H as [|z zs Hz _ IH]; [reflexivity|].
    cbn [filter]. rewrite IH.
    replace (z =? -1)%Z with false by (symmetry; apply Z.eqb_neq; lia).
    reflexivity. }
  now rewrite E1, E2, E3.
Qed.

Section ShapeFacts.
Context {F : Type} `{SF : Scalar F}.
Local Abbreviation tensor := (tensor F).

Lemma view_ok (zs : list Z) (t : tensor) :
  Forall (fun z => (0 <= z)%Z) zs ->
  numel (map Z.to_nat zs) = numel (shape t) ->
  view zs t = Ok (mkTensor (map Z.to_nat zs) (data t)).
Proof.
  intros Hz Hn. unfold view. rewrite infer_size_nonneg by exact Hz.
  rewrite Hn, Nat.eqb_refl. reflexivity.
Qed.

Lemma view_fails (zs : list Z) (t : tensor) :
  Forall (fun z => (0 <= z)%Z) zs ->
  numel (map Z.to_nat zs) <> numel (shape t) ->
  view zs t = Raise (RuntimeError invalid_view).
Proof.
  intros Hz Hn. unfold view. rewrite infer_size_nonneg by exact Hz.
  apply Nat.eqb_neq in Hn. rewrite Hn. reflexivity.
Qed.

Lemma binop_shape (f : F -> F -> F) (a b : tensor) (s : list nat) :
  broadcast_shapes (shape a) (shape b) = Ok s ->
  exists y, binop f a b = Ok y /\ shape y = s.
Proof.
  intros H. unfold binop. rewrite H. cbn [bind]. eexists. split; reflexivity.
Qed.

Lemma cumsum_shape (d : nat) (t : tensor) :
  d <= rank t -> exists y, cumsum d t = Ok y /\ shape y = shape t.
Proof.
  intros H. unfold cumsum. apply Nat.leb_le in H. rewrite H.
  eexists. split; reflexivity.
Qed.

Lemma sum_keepdim_shape (d : nat) (t : tensor) :
  d <= rank t ->
  exists y, sum_keepdim d t = Ok y
            /\ shape y = set_at (rank t - d) 1 (shape t).
Proof.
  intros H. unfold sum_keepdim. apply Nat.leb_le in H. rewrite H.
  eexists. split; reflexivity.
Qed.

Lemma slice_axis_shape (d : nat) (a b : option Z) (t : tensor) :
  d <= rank t ->
  exists y,
    slice_axis d a b t = Ok y
    /\ shape y
       = set_at (rank t - d)
           (snd (slice_range (nth (rank t - d) (shape t) 0) a b)) (shape t).
Proof.
  intros H. unfold slice_axis. apply Nat.leb_le in H. rewrite H.
  destruct (slice_range _ a b) as [x len].
  eexists. split; reflexivity.
Qed.

Lemma unbind_ok (d : nat) (t : tensor) :
  d <= rank t -> exists l, unbind d t = Ok l.
Proof.
  intros H. unfold unbind. apply Nat.leb_le in H. rewrite H.
  eexists. reflexivity.
Qed.

Lemma mT_rank5 (t : tensor) (a b c n m : nat) :
  shape t = [a; b; c; n; m] ->
  exists y, mT t = Ok y /\ shape y = [a; b; c; m; n].
Proof.
  intros H. unfold mT, split_last2. rewrite H. cbn [rev app].
  eexists. split; reflexivity.
Qed.

Lemma cat_rank5 (x y : tensor) (a b c n1 n2 e : nat) :
  shape x = [a; b; c; n1; e] -> shape y = [a; b; c; n2; e] ->
  exists z, cat 2 [x; y] = Ok z /\ shape z = [a; b; c; n1 + n2; e].
Proof.
  intros Hx Hy. unfold cat, rank. rewrite Hx.
  cbn [length Nat.leb Nat.sub forallb fold_right]. rewrite Hx, Hy.
  cbn [set_at firstn skipn app nth]. rewrite !list_eqb_refl.
  cbn [andb]. rewrite Nat.add_0_r.
  eexists. split; reflexivity.
Qed.

End ShapeFacts.

Lemma slice_range_first (n : nat) :
  0 < n -> slice_range n None (Some 1%Z) = (0, 1).
Proof.
  intros H. unfold slice_range, slice_bound. cbn [Z.ltb Z.compare].
  f_equal; lia.
Qed.

Lemma slice_range_but_last (n : nat) :
  0 < n -> slice_range n None (Some (-1)%Z) = (0, n - 1).
Proof.
  intros H. unfold slice_range, slice_bound. cbn [Z.ltb Z.compare].
  f_equal; lia.
Qed.

(** ** The decay profiles of the chunked engine *)

Section Chunked.
Context {F : Type} `{SF : Scalar F}.
Local Abbreviation tensor := (tensor F).
Local Abbreviation zz := Z.of_nat.

Ltac rank_leq := unfold rank; repeat match goal with
                                     | H : shape _ = _ |- _ => rewrite H
                                     end; cbn [length]; lia.

Lemma log_space_decay_ok (w : tensor) (Bw H L K Nn Tn : nat) (p : dtype)
      (m : Q) :
  shape w = [Bw; H; L; K] -> L = Nn * Tn -> 0 < Tn ->
  precision_min_val p = Ok m ->
  exists d,
    log_space_decay H K (zz Nn) (zz Tn) w p = Ok d
    /\ batch_w d = Bw
    /\ data (wc_log d)
       = map (fun x => flog (fcast float32 (fmax x (fconst m)))) (data w)
    /\ shape (wc_log d) = [Bw; H; Nn; Tn; K]
    /\ shape (wc_log_cum d) = [Bw; H; Nn; Tn; K]
    /\ shape (shifted_wc_log_cum d) = [Bw; H; Nn; Tn; K]
    /\ shape (w_inter d) = [Bw; H; Nn; Tn; K]
    /\ shape (w_intra d) = [Bw; H; Nn; Tn; K].
Proof.
  intros Hw HL HT Hp. unfold log_space_decay. rewrite Hp. cbn [bind].
  unfold size0 at 1. cbn [clamp map_tensor shape]. rewrite Hw. cbn [bind].
  rewrite view_ok.
  2:{ repeat (apply Forall_cons; [lia|]). apply Forall_nil. }
  2:{ cbn [log float to clamp map_tensor shape map]. rewrite Hw, !Nat2Z.id.
      cbn [numel fold_right]. subst L. ring. }
  cbn [bind map]. rewrite !Nat2Z.id.
  match goal with
  | |- context [cumsum 2 ?t] => set (wc := t)
  end.
  assert (Swc : shape wc = [Bw; H; Nn; Tn; K]) by reflexivity.
  assert (Dwc : data wc
                = map (fun x => flog (fcast float32 (fmax x (fconst m))))
                      (data w)).
  { subst wc. cbn [data log float to clamp map_tensor]. now rewrite !map_map. }
  clearbody wc.
  destruct (@cumsum_shape _ _ 2 wc) as (cum & -> & Scum); [rank_leq|].
  rewrite Swc in Scum. cbn [bind].
  destruct (@slice_axis_shape _ _ 2 None (Some 1%Z) cum) as (fst_ & -> & Sfst);
    [rank_leq|].
  unfold rank in Sfst. rewrite Scum in Sfst.
  cbn [length Nat.sub nth] in Sfst. rewrite slice_range_first in Sfst by exact HT.
  cbn [snd set_at firstn skipn app] in Sfst. cbn [bind].
  destruct (@slice_axis_shape _ _ 2 None (Some (-1)%Z) cum) as (rest & -> & Srest);
    [rank_leq|].
  unfold rank in Srest. rewrite Scum in Srest.
  cbn [length Nat.sub nth] in Srest.
  rewrite slice_range_but_last in Srest by exact HT.
  cbn [snd set_at firstn skipn app] in Srest. cbn [bind].
  destruct (@cat_rank5 _ _ (zeros_like fst_) rest Bw H Nn 1 (Tn - 1) K)
    as (shifted & -> & Sshifted); [exact Sfst | exact Srest |].
  replace (1 + (Tn - 1)) with Tn in Sshifted by lia. cbn [bind].
  destruct (@sum_keepdim_shape _ _ 2 wc) as (ws & -> & Sws); [rank_leq|].
  unfold rank in Sws. rewrite Swc in Sws.
  cbn [length Nat.sub set_at firstn skipn app] in Sws. cbn [bind].
  destruct (@binop_shape _ _ fsub ws cum [Bw; H; Nn; Tn; K])
    as (winter & Ewinter & Swinter).
  { rewrite Sws, Scum. apply broadcast_shapes_into.
    repeat (apply Forall2_cons; [auto|]). apply Forall2_nil. }
  unfold sub at 1. rewrite Ewinter. cbn [bind].
  destruct (@binop_shape _ _ fsub cum wc [Bw; H; Nn; Tn; K])
    as (wintra & Ewintra & Swintra).
  { rewrite Swc, Scum. apply broadcast_shapes_same. }
  unfold sub. rewrite Ewintra. cbn [bind].
  destruct (mT_rank5 ws Sws) as (wsT & -> & SwsT). cbn [bind].
  destruct (@unbind_ok _ _ 3 (to working (exp wsT))) as (wsl & ->).
  { unfold rank. cbn [to exp map_tensor shape]. rewrite SwsT. cbn [length]. lia. }
  cbn [bind]. eexists. split; [reflexivity|].
  cbn [batch_w wc_log wc_log_cum shifted_wc_log_cum w_inter w_intra
       to exp map_tensor shape].
  auto 10.
Qed.

Lemma effective_chunk_len_divides (L : nat) (chunk_len T : Z) :
  (1 <= chunk_len)%Z -> effective_chunk_len L chunk_len = Ok T ->
  (1 <= T)%Z /\ (zz L mod T = 0)%Z.
Proof.
  intros Hc. unfold effective_chunk_len.
  destruct (Z.eqb_spec chunk_len 0); [lia|].
  destruct (Z.eqb_spec (zz L mod chunk_len) 0) as [E|E]; intros [= <-].
  - split; assumption.
  - split; [lia|apply Z.mod_1_r].
Qed.

Lemma chunk_count (L : nat) (T : Z) :
  (1 <= T)%Z -> (zz L mod T = 0)%Z ->
  T = zz (Z.to_nat T) /\ (zz L / T)%Z = zz (Z.to_nat (zz L / T))
  /\ L = Z.to_nat (zz L / T) * Z.to_nat T.
Proof.
  intros HT Hm.
  assert (0 <= zz L / T)%Z by (apply Z.div_pos; lia).
  repeat split; try lia.
  pose proof (Z.div_mod (zz L) T ltac:(lia)) as E. rewrite Hm in E. nia.
Qed.

Lemma subchunk_view_fails (t : tensor) (A H Nn Tn K : nat) :
  shape t = [A; H; Nn; Tn; K] ->
  0 < A -> 0 < H -> 0 < Nn -> 0 < K -> Nat.odd Tn = true ->
  view (subchunk_shape A H (zz Nn) (zz Tn) K) t
  = Raise (RuntimeError invalid_view).
Proof.
  intros Hs HA HH HN HK Hodd. unfold subchunk_shape.
  change 2%Z with (zz 2). rewrite <- Nat2Z.inj_div.
  apply view_fails.
  - repeat (apply Forall_cons; [lia|]). apply Forall_nil.
  - rewrite Hs. cbn [map numel fold_right]. rewrite !Nat2Z.id.
    apply Nat.odd_spec in Hodd. destruct Hodd as (q & ->).
    replace ((2 * q + 1) / 2) with q.
    2:{ apply Nat.div_unique with (r := 1); lia. }
    nia.
Qed.

Lemma rwkv_inner_enters_chunked (r k v w u kv_state : tensor)
      (B H L K : nat) (chunk_len : Z) (precision_dtype : dtype) :
  shape k = [B; H; L; K] -> 1 <= rank v -> L <> 1 ->
  rwkv_inner r k v w u kv_state chunk_len precision_dtype
  = chunked B H L K (nth (rank v - 1) (shape v) 0) r k v w u kv_state
      chunk_len precision_dtype.
Proof.
  intros Hk Hv HL. unfold rwkv_inner, size4, size_from_end. rewrite Hk.
  apply Nat.leb_le in Hv. rewrite Hv. cbn [bind].
  destruct (Nat.eqb_spec L 1); [contradiction|reflexivity].
Qed.

Section OddChunk.
Variables r k v w u kv_state : tensor.
Variables B H L K V Bw : nat.
Variables (chunk_len T : Z) (precision_dtype : dtype).
Hypothesis Hr : shape r = [B; H; L; K].
Hypothesis Hk : shape k = [B; H; L; K].
Hypothesis Hv : shape v = [B; H; L; V].
Hypothesis Hw : shape w = [Bw; H; L; K].
Hypothesis HBw : Bw = B \/ Bw = 1.
Hypothesis Hu : shape u = [1; H; 1; K].
Hypothesis HB : 0 < B.
Hypothesis HH : 0 < H.
Hypothesis HK : 0 < K.
Hypothesis HL : 1 < L.
Hypothesis Hc : (1 <= chunk_len)%Z.
Hypothesis Hp : precision_dtype = float32 \/ precision_dtype = float64.
Hypothesis HT : effective_chunk_len L chunk_len = Ok T.
Hypothesis Hodd : Z.odd T = true.

Lemma chunked_odd_raises :
  (exists d,
     log_space_decay H K (zz L / T) T w precision_dtype = Ok d
     /\ view (subchunk_shape (batch_w d) H (zz L / T) T K) (wc_log_cum d)
        = Raise (RuntimeError invalid_view))
  /\ chunked B H L K V r k v w u kv_state chunk_len precision_dtype
     = Raise (RuntimeError invalid_view).
Proof.
  destruct (effective_chunk_len_divides L Hc HT) as [HT1 Hmod].
  destruct (chunk_count L HT1 Hmod) as (ET & EN & EL).
  set (Tn := Z.to_nat T) in *. set (Nn := Z.to_nat (zz L / T)) in *.
  assert (HTn : 0 < Tn) by lia.
  assert (HNn : 0 < Nn) by (destruct Nn; lia).
  assert (HoddN : Nat.odd Tn = true).
  { apply Nat.odd_spec. pose proof Hodd as Ho.
    apply Z.odd_spec in Ho. destruct Ho as (q & Hq).
    exists (Z.to_nat q). lia. }
  assert (Hm : exists m, precision_min_val precision_dtype = Ok m).
  { destruct Hp as [-> | ->]; eexists; reflexivity. }
  destruct Hm as (m & Hm).
  assert (HBw' : 0 < Bw) by (destruct HBw; lia).
  unfold chunked. rewrite HT. cbn [bind]. rewrite EN, ET.
  destruct (@log_space_decay_ok w Bw H L K Nn Tn precision_dtype m
              Hw EL HTn Hm)
    as (d & Ed & Eb & _ & _ & Scum & _).
  rewrite Ed.
  assert (Fail : view (subchunk_shape (batch_w d) H (zz Nn) (zz Tn) K)
                   (wc_log_cum d) = Raise (RuntimeError invalid_view)).
  { rewrite Eb. now apply subchunk_view_fails. }
  split; [exists d; split; [reflexivity | exact Fail]|].
  cbn [bind].
  rewrite (@view_ok _ _ r), (@view_ok _ _ k), (@view_ok _ _ v).
  2-7: try (repeat (apply Forall_cons; [lia|]); apply Forall_nil).
  2-4: try (cbn [map numel fold_right]; rewrite ?Hr, ?Hk, ?Hv, !Nat2Z.id;
            cbn [numel fold_right]; rewrite EL; ring).
  cbn [bind]. unfold unsqueeze, rank. rewrite Hu. cbn [length Nat.leb bind].
  unfold intra_chunk. rewrite Fail. reflexivity.
Qed.

(** C10. On inputs of the documented shapes with at least one batch,
    head and key channel, more than one timestep and a chunk length of
    at least 1, an odd chunk length in effect (after the fallback to 1)
    makes the engine raise: the decay profiles are computed, and
    the view of the cumulative log-decay as two half-chunks of length
    [T // 2] is refused, so no result is returned. *)
Theorem odd_chunk_len_raises :
  (exists d,
     log_space_decay H K (zz L / T) T w precision_dtype = Ok d
     /\ view (subchunk_shape (batch_w d) H (zz L / T) T K) (wc_log_cum d)
        = Raise (RuntimeError invalid_view))
  /\ rwkv_inner r k v w u kv_state chunk_len precision_dtype
     = Raise (RuntimeError invalid_view).
Proof.
  rewrite (@rwkv_inner_enters_chunked r k v w u kv_state B H L K chunk_len
             precision_dtype Hk) by (unfold rank; rewrite ?Hv; simpl; lia).
  unfold rank. rewrite Hv. exact chunked_odd_raises.
Qed.

End OddChunk.

(** A sequence length that the chunk length does not divide leaves the
    chunk length 1 in effect, which is odd: the engine raises. *)
Lemma inexact_multiple_raises (r k v w u kv_state : tensor)
      (B H L K V Bw : nat) (chunk_len : Z) (precision_dtype : dtype) :
  shape r = [B; H; L; K] -> shape k = [B; H; L; K] ->
  shape v = [B; H; L; V] -> shape w = [Bw; H; L; K] ->
  Bw = B \/ Bw = 1 -> shape u = [1; H; 1; K] ->
  0 < B -> 0 < H -> 0 < K -> 1 < L -> (1 <= chunk_len)%Z ->
  precision_dtype = float32 \/ precision_dtype = float64 ->
  (zz L mod chunk_len <> 0)%Z ->
  rwkv_inner r k v w u kv_state chunk_len precision_dtype
  = Raise (RuntimeError invalid_view).
Proof.
  intros Hr Hk Hv Hw HBw Hu HB HH HK HL Hc Hp Hmod.
  rewrite (@rwkv_inner_enters_chunked r k v w u kv_state B H L K chunk_len
             precision_dtype Hk) by (unfold rank; rewrite ?Hv; simpl; lia).
  unfold rank. rewrite Hv. cbn [length Nat.sub nth].
  refine (proj2 (chunked_odd_raises r k v w u kv_state (T := 1%Z)
                   Hr Hk Hv Hw HBw Hu HB HH HK HL Hc Hp _ eq_refl)).
  unfold effective_chunk_len.
  destruct (Z.eqb_spec chunk_len 0); [lia|].
  destruct (Z.eqb_spec (zz L mod chunk_len) 0); [contradiction|reflexivity].
Qed.

End Chunked.

(** ** Errors depend on shapes only *)

Lemma rel_result_bind {A A' B B' : Type} (R : A -> A' -> Prop)
      (Q : B -> B' -> Prop) (c : result A) (c' : result A')
      (k : A -> result B) (k' : A' -> result B') :
  rel_result R c c' ->
  (forall x x', R x x' -> rel_result Q (k x) (k' x')) ->
  rel_result Q (bind c k) (bind c' k').
Proof.
  destruct c, c'; simpl; intros H Hk; try contradiction; auto.
Qed.

Lemma rel_result_outcome {A B : Type} (R : A -> B -> Prop) (x : result A)
      (y : result B) :
  rel_result R x y -> outcome x = outcome y.
Proof.
  destruct x, y; simpl; intros H; try contradiction; congruence.
Qed.

Section LikeFacts.
Context {F : Type} `{SF : Scalar F}.
Local Abbreviation tensor := (tensor F).

Ltac like_tac :=
  unfold like in *; intros;
  repeat match goal with
         | H : shape _ = shape _ |- _ => rewrite H; clear H
         end;
  unfold rel_result, bind;
  repeat match goal with
         | |- context [match ?x with _ => _ end] =>
             lazymatch x with
             | context [match _ with _ => _ end] => fail
             | _ => destruct x
             end
         end;
  cbn; auto.

Lemma map_tensor_like (f g : F -> F) (a b : tensor) :
  like a b -> like (map_tensor f a) (map_tensor g b).
Proof. unfold like. simpl. auto. Qed.

Lemma like_refl (a : tensor) : like a a.
Proof. reflexivity. Qed.

Lemma binop_like (f : F -> F -> F) (a a' b b' : tensor) :
  like a a' -> like b b' -> rel_result like (binop f a b) (binop f a' b').
Proof. unfold binop. like_tac. Qed.

Lemma view_like (zs : list Z) (a a' : tensor) :
  like a a' -> rel_result like (view zs a) (view zs a').
Proof. unfold view. like_tac. Qed.

Lemma unsqueeze_like (p : nat) (a a' : tensor) :
  like a a' -> rel_result like (unsqueeze p a) (unsqueeze p a').
Proof. unfold unsqueeze, rank. like_tac. Qed.

Lemma mT_like (a a' : tensor) :
  like a a' -> rel_result like (mT a) (mT a').
Proof. unfold mT. like_tac. Qed.

Lemma matmul2_like (a a' b b' : tensor) :
  like a a' -> like b b' -> rel_result like (matmul2 a b) (matmul2 a' b').
Proof. unfold matmul2. like_tac. Qed.

Lemma matmul_like (a a' b b' : tensor) :
  like a a' -> like b b' -> rel_result like (matmul a b) (matmul a' b').
Proof.
  intros Ha Hb. unfold matmul, rank. rewrite Ha, Hb.
  destruct (_ || _); [reflexivity|].
  eapply rel_result_bind.
  - apply matmul2_like.
    + destruct (length (shape a') =? 1); [reflexivity|assumption].
    + destruct (length (shape b') =? 1); [reflexivity|assumption].
  - intros c c' Hc. unfold like in *. cbn. now rewrite Hc.
Qed.

Lemma tril_below_like (a a' : tensor) :
  like a a' -> rel_result like (tril_below a) (tril_below a').
Proof. unfold tril_below. like_tac. Qed.

Lemma diag_embed_like (a a' : tensor) :
  like a a' -> rel_result like (diag_embed a) (diag_embed a').
Proof. unfold diag_embed. like_tac. Qed.

Lemma einsum_like (a a' b b' : tensor) :
  like a a' -> like b b' ->
  rel_result like (einsum_bhnztk a b) (einsum_bhnztk a' b').
Proof. unfold einsum_bhnztk, rank. like_tac. Qed.

Lemma slice_axis_like (d : nat) (x y : option Z) (a a' : tensor) :
  like a a' -> rel_result like (slice_axis d x y a) (slice_axis d x y a').
Proof. unfold slice_axis, rank. like_tac. Qed.

Lemma cumsum_like (d : nat) (a a' : tensor) :
  like a a' -> rel_result like (cumsum d a) (cumsum d a').
Proof. unfold cumsum, rank. like_tac. Qed.

Lemma sum_keepdim_like (d : nat) (a a' : tensor) :
  like a a' -> rel_result like (sum_keepdim d a) (sum_keepdim d a').
Proof. unfold sum_keepdim, rank. like_tac. Qed.

Lemma setitem_axis_like (d : nat) (x y : option Z) (a a' b b' : tensor) :
  like a a' -> like b b' ->
  rel_result like (setitem_axis d x y a b) (setitem_axis d x y a' b').
Proof. unfold setitem_axis, rank. like_tac. Qed.

Lemma unbind_like (d : nat) (a a' : tensor) :
  like a a' -> rel_result (Forall2 like) (unbind d a) (unbind d a').
Proof.
  unfold unbind, rank, like. intros ->. destruct (d <=? _); [|reflexivity].
  cbn. induction (seq 0 _); cbn; constructor; auto.
Qed.

Lemma forallb_like (P : list nat -> bool) (ts ts' : list tensor) :
  Forall2 like ts ts' ->
  forallb (fun t => P (shape t)) ts = forallb (fun t => P (shape t)) ts'.
Proof.
  intros H. induction H as [|t t' ts ts' Ht _ IH]; [reflexivity|].
  cbn. unfold like in Ht. now rewrite Ht, IH.
Qed.

Lemma total_like (p : nat) (ts ts' : list tensor) :
  Forall2 like ts ts' ->
  fold_right (fun t n => nth p (shape t) 0 + n) 0 ts
  = fold_right (fun t n => nth p (shape t) 0 + n) 0 ts'.
Proof.
  intros H. induction H as [|t t' ts ts' Ht _ IH]; [reflexivity|].
  cbn. unfold like in Ht. now rewrite Ht, IH.
Qed.

Lemma cat_like (d : nat) (ts ts' : list tensor) :
  Forall2 like ts ts' -> rel_result like (cat d ts) (cat d ts').
Proof.
  intros H. pose proof (total_like (rank (hd (mkTensor [] []) ts') - d) H) as Ht.
  destruct H as [|t t' ts ts' H0 H]; [reflexivity|].
  unfold cat, rank in *. cbn [hd] in Ht. unfold like in H0. rewrite H0.
  destruct (d <=? _); [|reflexivity].
  rewrite (forallb_like
             (fun s => list_eqb (set_at (length (shape t') - d) 0 s)
                         (set_at (length (shape t') - d) 0 (shape t')))
             (Forall2_cons t t' H0 H)).
  destruct (forallb _ _); [|reflexivity].
  rewrite Ht. reflexivity.
Qed.

Lemma stack_like (p : nat) (ts ts' : list tensor) :
  Forall2 like ts ts' -> rel_result like (stack p ts) (stack p ts').
Proof.
  intros H. pose proof (Forall2_length H) as Hlen.
  destruct H as [|t t' ts ts' H0 H]; [reflexivity|].
  unfold stack, rank. unfold like in H0. rewrite H0.
  rewrite (forallb_like (fun s => list_eqb s (shape t'))
             (Forall2_cons t t' H0 H)).
  destruct (forallb _ _); [|reflexivity].
  destruct (p <=? _); [|reflexivity].
  rewrite Hlen. reflexivity.
Qed.

Lemma list_item_like (l l' : list tensor) (i : nat) :
  Forall2 like l l' -> rel_result like (list_item l i) (list_item l' i).
Proof.
  intros H. revert i. unfold list_item.
  induction H as [|t t' l l' Ht _ IH]; intros [|i]; cbn; auto.
Qed.

Lemma for_each_like {A S S' : Type} (R : S -> S' -> Prop)
      (f : A -> S -> result S) (g : A -> S' -> result S') (l : list A) :
  (forall x s s', R s s' -> rel_result R (f x s) (g x s')) ->
  forall s s', R s s' -> rel_result R (for_each f l s) (for_each g l s').
Proof.
  intros Hfg. induction l as [|x l IH]; intros s s' Hs; [exact Hs|].
  cbn [for_each]. eapply rel_result_bind; [now apply Hfg|]. exact IH.
Qed.

End LikeFacts.

Create HintDb like.

#[local] Hint Resolve binop_like view_like unsqueeze_like mT_like matmul_like
  tril_below_like diag_embed_like einsum_like slice_axis_like cumsum_like
  sum_keepdim_like setitem_axis_like unbind_like cat_like stack_like
  list_item_like map_tensor_like like_refl : like.

Section LikeEngines.
Context {F : Type} `{SF : Scalar F}.
Local Abbreviation tensor := (tensor F).

Lemma exp_like (a b : tensor) : like a b -> like (exp a) (exp b).
Proof. apply map_tensor_like. Qed.

Lemma log_like (a b : tensor) : like a b -> like (log a) (log b).
Proof. apply map_tensor_like. Qed.

Lemma to_like (d : dtype) (a b : tensor) : like a b -> like (to d a) (to d b).
Proof. apply map_tensor_like. Qed.

Lemma float_like (a b : tensor) : like a b -> like (float a) (float b).
Proof. apply map_tensor_like. Qed.

Lemma clamp_like (m : Q) (a b : tensor) :
  like a b -> like (clamp m a) (clamp m b).
Proof. apply map_tensor_like. Qed.

Lemma zeros_like_like (a b : tensor) :
  like a b -> like (zeros_like a) (zeros_like b).
Proof. apply map_tensor_like. Qed.

Lemma add_like (a a' b b' : tensor) :
  like a a' -> like b b' -> rel_result like (add a b) (add a' b').
Proof. apply binop_like. Qed.

Lemma sub_like (a a' b b' : tensor) :
  like a a' -> like b b' -> rel_result like (sub a b) (sub a' b').
Proof. apply binop_like. Qed.

Lemma mul_like (a a' b b' : tensor) :
  like a a' -> like b b' -> rel_result like (mul a b) (mul a' b').
Proof. apply binop_like. Qed.

Hint Resolve exp_like log_like to_like float_like clamp_like zeros_like_like
  add_like sub_like mul_like : like.

Ltac rel_step :=
  lazymatch goal with
  | |- rel_result _ (bind _ _) (bind _ _) =>
      eapply rel_result_bind; [solve [eauto 6 with like] | intros ? ? ?]
  end.

Lemma single_step_like (r r' k k' v v' w w' u u' s s' : tensor) :
  like r r' -> like k k' -> like v v' -> like w w' -> like u u' ->
  like s s' ->
  rel_result like2 (single_step r k v w u s) (single_step r' k' v' w' u' s').
Proof.
  intros. unfold single_step. repeat rel_step.
  cbn. split; assumption.
Qed.

Lemma log_space_decay_like (H K : nat) (N T : Z) (w w' : tensor) (p : dtype) :
  like w w' ->
  rel_result decays_like (log_space_decay H K N T w p)
    (log_space_decay H K N T w' p).
Proof.
  intros Hw. unfold log_space_decay.
  destruct (precision_min_val p) as [m|e]; [|reflexivity]. cbn [bind].
  eapply rel_result_bind with (R := eq).
  { unfold size0. cbn [clamp map_tensor shape]. unfold like in Hw.
    rewrite Hw. destruct (shape w'); reflexivity. }
  intros Bw ? <-. cbv zeta. repeat rel_step.
  cbn. unfold decays_like. cbn. repeat split; eauto with like.
Qed.

Lemma intra_chunk_like (B H K V : nat) (N T : Z) (d d' : decays)
      (r r' k k' v v' u u' : tensor) (p : dtype) :
  decays_like d d' -> like r r' -> like k k' -> like v v' -> like u u' ->
  rel_result like (intra_chunk B H K V N T d r k v u p)
    (intra_chunk B H K V N T d' r' k' v' u' p).
Proof.
  intros (Eb & _ & Hcum & Hsh & _) Hr Hk Hv Hu. unfold intra_chunk.
  rewrite Eb. cbv zeta. repeat rel_step. eauto with like.
Qed.

Lemma scan_step_like (ws ws' wkv wkv' : list tensor) (i : nat)
      (acc acc' : list tensor * tensor) :
  Forall2 like ws ws' -> Forall2 like wkv wkv' -> like_acc acc acc' ->
  rel_result like_acc (scan_step ws wkv i acc) (scan_step ws' wkv' i acc').
Proof.
  intros Hws Hwkv Hacc. destruct acc as [st s], acc' as [st' s'].
  destruct Hacc as [Hst Hs]. cbn [fst snd] in *.
  unfold scan_step. repeat rel_step.
  cbn. split; cbn; [|assumption].
  apply Forall2_app; [assumption|]. constructor; [assumption|constructor].
Qed.

Lemma chunk_states_like (N : Z) (d d' : decays) (k k' v v' s s' : tensor) :
  decays_like d d' -> like k k' -> like v v' -> like s s' ->
  rel_result like2 (chunk_states N d k v s) (chunk_states N d' k' v' s').
Proof.
  intros (_ & _ & _ & _ & Hws & Hinter & _) Hk Hv Hs. unfold chunk_states.
  repeat rel_step.
  eapply rel_result_bind with (R := like_acc).
  { apply for_each_like.
    - intros. now apply scan_step_like.
    - split; [constructor|assumption]. }
  intros [sts fin] [sts' fin'] [Hsts Hfin]. cbn [fst snd] in *.
  rel_step. cbn. split; assumption.
Qed.

Lemma chunked_like (B H L K V : nat) (r r' k k' v v' w w' u u' s s' : tensor)
      (chunk_len : Z) (p : dtype) :
  like r r' -> like k k' -> like v v' -> like w w' -> like u u' ->
  like s s' ->
  rel_result like2 (chunked B H L K V r k v w u s chunk_len p)
    (chunked B H L K V r' k' v' w' u' s' chunk_len p).
Proof.
  intros Hr Hk Hv Hw Hu Hs. unfold chunked.
  destruct (effective_chunk_len L chunk_len) as [T|e]; [|reflexivity].
  cbn [bind]. cbv zeta.
  eapply rel_result_bind; [now apply log_space_decay_like|].
  intros d d' Hd. repeat rel_step.
  eapply rel_result_bind.
  { apply intra_chunk_like; eauto with like. }
  intros out out' Hout.
  eapply rel_result_bind; [now apply chunk_states_like|].
  intros [sts fin] [sts' fin'] [Hsts Hfin]. cbn [fst snd] in *.
  destruct Hd as (_ & _ & _ & _ & _ & _ & Hintra).
  repeat rel_step. cbn. split; assumption.
Qed.

(** Whether the engine returns, and the exception it raises otherwise,
    depend on the shapes of its arguments only. *)
Lemma rwkv_inner_like (r r' k k' v v' w w' u u' s s' : tensor)
      (chunk_len : Z) (p : dtype) :
  like r r' -> like k k' -> like v v' -> like w w' -> like u u' ->
  like s s' ->
  rel_result like2 (rwkv_inner r k v w u s chunk_len p)
    (rwkv_inner r' k' v' w' u' s' chunk_len p).
Proof.
  intros Hr Hk Hv Hw Hu Hs. unfold rwkv_inner.
  eapply rel_result_bind with (R := eq).
  { unfold size4. unfold like in Hk. rewrite Hk.
    destruct (shape k') as [|? [|? [|? [|? [|? ?]]]]]; reflexivity. }
  intros [[[B H] L] K] ? <-.
  eapply rel_result_bind with (R := eq).
  { unfold size_from_end, rank. unfold like in Hv. rewrite Hv.
    destruct (1 <=? _); reflexivity. }
  intros V ? <-.
  destruct (L =? 1).
  - now apply single_step_like.
  - now apply chunked_like.
Qed.

End LikeEngines.

(** ** The clamp of the decay *)

Ltac bind_inv H :=
  repeat match type of H with
         | bind ?c _ = Ok _ =>
             let E := fresh "E" in
             destruct c eqn:E; cbn [bind] in H; [|discriminate H]
         end.

Section Clamp.
Context {F : Type} `{SF : Scalar F}.
Local Abbreviation tensor := (tensor F).
Local Abbreviation zz := Z.of_nat.


Lemma log_space_decay_inv (H K : nat) (N T : Z) (w : tensor) (p : dtype)
      (d : decays) :
  log_space_decay H K N T w p = Ok d ->
  exists m,
    precision_min_val p = Ok m
    /\ size0 w = Ok (batch_w d)
    /\ view [zz (batch_w d); zz H; N; T; zz K] (log (float (clamp m w)))
       = Ok (wc_log d).
Proof.
  intros E. unfold log_space_decay in E.
  destruct (precision_min_val p) as [m|e]; cbn [bind] in E; [|discriminate].
  exists m. split; [reflexivity|].
  bind_inv E. injection E as <-. cbn [batch_w wc_log].
  split; assumption.
Qed.


Section Idempotent.
Hypothesis fmax_idem : forall x m : F, fmax (fmax x m) m = fmax x m.

Lemma clamp_idem (m : Q) (w : tensor) : clamp m (clamp m w) = clamp m w.
Proof.
  unfold clamp, map_tensor. cbn [shape data]. f_equal.
  rewrite map_map. apply map_ext. intros x. apply fmax_idem.
Qed.

Lemma chunked_clamps (B H L K V : nat) (r k v w u s : tensor)
      (chunk_len : Z) (p : dtype) (m : Q) :
  precision_min_val p = Ok m ->
  chunked B H L K V r k v (clamp m w) u s chunk_len p
  = chunked B H L K V r k v w u s chunk_len p.
Proof.
  intros Hm. unfold chunked, log_space_decay. rewrite Hm. cbn [bind].
  now rewrite clamp_idem.
Qed.

(** C6 (amended). No value of the decay makes the engine raise: whether
    it returns, and the exception otherwise, are the same for every decay
    tensor of one shape.  With more than one timestep (or none) the decay
    is clamped up to the floor before it is used: the call returns what
    it returns on the clamped decay.  With exactly one timestep the decay
    enters the state update as given. *)
Theorem decay_never_raises (r k v w u s : tensor) (B H L K : nat)
        (chunk_len : Z) (precision_dtype : dtype) :
  shape k = [B; H; L; K] -> 1 <= rank v ->
  (forall w', shape w' = shape w ->
     outcome (rwkv_inner r k v w' u s chunk_len precision_dtype)
     = outcome (rwkv_inner r k v w u s chunk_len precision_dtype))
  /\ (L <> 1 ->
      forall floor, precision_min_val precision_dtype = Ok floor ->
        rwkv_inner r k v (clamp floor w) u s chunk_len precision_dtype
        = rwkv_inner r k v w u s chunk_len precision_dtype)
  /\ (L = 1 ->
      rwkv_inner r k v w u s chunk_len precision_dtype
      = single_step r k v w u s).
Proof.
  intros Hk Hv. split; [|split].
  - intros w' Hw. eapply rel_result_outcome.
    apply rwkv_inner_like; try apply like_refl. exact Hw.
  - intros HL m Hm.
    rewrite !(@rwkv_inner_enters_chunked _ _ r k v _ u s B H L K chunk_len
                precision_dtype Hk Hv HL).
    now apply chunked_clamps.
  - intros ->. unfold rwkv_inner, size4, size_from_end. rewrite Hk.
    apply Nat.leb_le in Hv. rewrite Hv. reflexivity.
Qed.

End Idempotent.
End Clamp.

(** ** Calls the engine rejects *)

Lemma numel_insert_one (p : nat) (s : list nat) :
  numel (insert_at p 1 s) = numel s.
Proof.
  unfold insert_at. rewrite <- (firstn_skipn p s) at 3.
  rewrite !numel_app. simpl. lia.
Qed.

Lemma infer_size_negative (a b c L n : nat) (T : Z) :
  (T < 0)%Z -> L <> 1 -> (Z.of_nat L mod T = 0)%Z ->
  infer_size [Z.of_nat a; Z.of_nat b; (Z.of_nat L / T)%Z; T; Z.of_nat c] n
  = Raise (RuntimeError invalid_view).
Proof.
  intros HT HL Hmod.
  pose proof (Z.div_mod (Z.of_nat L) T ltac:(lia)) as E. rewrite Hmod in E.
  set (N := (Z.of_nat L / T)%Z) in *.
  destruct (Z.eq_dec T (-1)) as [->|HT1].
  - destruct (Nat.eq_dec L 0) as [->|HL0].
    + assert (N = 0%Z) by lia. subst N. rewrite H. unfold infer_size.
      cbn [existsb filter]. 
      replace (Z.of_nat a <? -1)%Z with false by (symmetry; apply Z.ltb_ge; lia).
      replace (Z.of_nat b <? -1)%Z with false by (symmetry; apply Z.ltb_ge; lia).
      replace (Z.of_nat c <? -1)%Z with false by (symmetry; apply Z.ltb_ge; lia).
      replace (Z.of_nat a =? -1)%Z with false by (symmetry; apply Z.eqb_neq; lia).
      replace (Z.of_nat b =? -1)%Z with false by (symmetry; apply Z.eqb_neq; lia).
      replace (Z.of_nat c =? -1)%Z with false by (symmetry; apply Z.eqb_neq; lia).
      cbn. rewrite !Nat.mul_0_r. reflexivity.
    + unfold infer_size.
      replace (existsb _ _) with true; [reflexivity|].
      symmetry. apply existsb_exists. exists N.
      split; [simpl; auto|]. apply Z.ltb_lt. lia.
  - unfold infer_size.
    replace (existsb _ _) with true; [reflexivity|].
    symmetry. apply existsb_exists. exists T.
    split; [simpl; auto|]. apply Z.ltb_lt. lia.
Qed.

Section Rejected.
Context {F : Type} `{SF : Scalar F}.
Local Abbreviation tensor := (tensor F).
Local Abbreviation zz := Z.of_nat.

Lemma view_ok_inv (zs : list Z) (t t' : tensor) :
  Forall (fun z => (0 <= z)%Z) zs -> view zs t = Ok t' ->
  numel (shape t) = numel (map Z.to_nat zs).
Proof.
  intros Hz. unfold view. rewrite infer_size_nonneg by exact Hz.
  destruct (Nat.eqb_spec (numel (map Z.to_nat zs)) (numel (shape t)));
    [auto|discriminate].
Qed.

Lemma unsqueeze_numel (p : nat) (t t' : tensor) :
  unsqueeze p t = Ok t' -> numel (shape t') = numel (shape t).
Proof.
  unfold unsqueeze. destruct (p <=? rank t); [|discriminate].
  intros [= <-]. apply numel_insert_one.
Qed.

Variables r k v w u kv_state : tensor.
Variables B H L K : nat.
Variables (chunk_len : Z) (precision_dtype : dtype).
Hypothesis Hk : shape k = [B; H; L; K].
Hypothesis Hv : 1 <= rank v.

Local Abbreviation V := (nth (rank v - 1) (shape v) 0).

Lemma zero_chunk_len_raises :
  L <> 1 -> chunk_len = 0%Z ->
  rwkv_inner r k v w u kv_state chunk_len precision_dtype
  = Raise ZeroDivisionError.
Proof.
  intros HL ->.
  rewrite (@rwkv_inner_enters_chunked _ _ r k v w u kv_state B H L K 0%Z
             precision_dtype Hk Hv HL).
  reflexivity.
Qed.

Lemma negative_divisor_raises :
  L <> 1 -> (chunk_len < 0)%Z -> (zz L mod chunk_len = 0)%Z ->
  exists e,
    rwkv_inner r k v w u kv_state chunk_len precision_dtype = Raise e.
Proof.
  intros HL Hc Hmod.
  rewrite (@rwkv_inner_enters_chunked _ _ r k v w u kv_state B H L K
             chunk_len precision_dtype Hk Hv HL).
  unfold chunked, effective_chunk_len.
  destruct (Z.eqb_spec chunk_len 0); [lia|].
  rewrite Hmod. cbn [Z.eqb bind].
  destruct (log_space_decay _ _ _ _ _ _) as [d|e] eqn:Ed;
    [|eexists; reflexivity].
  exfalso. apply log_space_decay_inv in Ed.
  destruct Ed as (m & _ & _ & Ev). unfold view in Ev.
  rewrite infer_size_negative in Ev by assumption. discriminate.
Qed.

Lemma accepted_counts (res : tensor * tensor) :
  L <> 1 -> (1 <= chunk_len)%Z ->
  rwkv_inner r k v w u kv_state chunk_len precision_dtype = Ok res ->
  numel (shape r) = B * H * L * K
  /\ numel (shape v) = B * H * L * V
  /\ numel (shape u) = H * K
  /\ numel (shape w) = nth 0 (shape w) 0 * H * L * K.
Proof.
  intros HL Hc E.
  rewrite (@rwkv_inner_enters_chunked _ _ r k v w u kv_state B H L K
             chunk_len precision_dtype Hk Hv HL) in E.
  unfold chunked in E.
  destruct (effective_chunk_len L chunk_len) as [T|e] eqn:ET;
    cbn [bind] in E; [|discriminate].
  destruct (effective_chunk_len_divides L Hc ET) as [HT1 Hmod].
  destruct (chunk_count L HT1 Hmod) as (ETn & ENn & EL).
  set (Tn := Z.to_nat T) in *. set (Nn := Z.to_nat (zz L / T)) in *.
  rewrite ENn, ETn in E.
  destruct (log_space_decay _ _ _ _ _ _) as [d|e] eqn:Ed;
    cbn [bind] in E; [|discriminate].
  destruct (view _ r) as [r1|e] eqn:Er; cbn [bind] in E; [|discriminate].
  destruct (view _ k) as [k1|e] eqn:Ek; cbn [bind] in E; [|discriminate].
  destruct (view _ v) as [v1|e] eqn:Ev; cbn [bind] in E; [|discriminate].
  destruct (unsqueeze 2 u) as [u1|e] eqn:Eu; cbn [bind] in E; [|discriminate].
  destruct (intra_chunk _ _ _ _ _ _ _ _ _ _ _ _) as [out|e] eqn:Ei;
    cbn [bind] in E; [|discriminate].
  clear E.
  assert (Nonneg : forall a b c : nat,
             Forall (fun z => (0 <= z)%Z) [zz a; zz b; zz Nn; zz Tn; zz c]).
  { intros. repeat (apply Forall_cons; [lia|]). apply Forall_nil. }
  apply view_ok_inv in Er; [|apply Nonneg].
  apply view_ok_inv in Ev; [|apply Nonneg].
  cbn [map numel fold_right] in Er, Ev. rewrite !Nat2Z.id in Er, Ev.
  (* the bonus *)
  unfold intra_chunk in Ei. cbv zeta in Ei. bind_inv Ei.
  match goal with
  | Hu : view [1%Z; _; 1%Z; 1%Z; 1%Z; _] _ = Ok _ |- _ => rename Hu into Nu
  end.
  apply view_ok_inv in Nu;
    [|repeat (apply Forall_cons; [lia|]); apply Forall_nil].
  cbn [to map_tensor shape] in Nu.
  rewrite (unsqueeze_numel _ _ Eu) in Nu.
  cbn [map] in Nu. change (Z.to_nat 1) with 1 in Nu.
  rewrite !Nat2Z.id in Nu. cbn [numel fold_right] in Nu.
  fold (numel (shape u)) in Nu.
  (* the decay *)
  apply log_space_decay_inv in Ed. destruct Ed as (m & _ & Es & Ew).
  apply view_ok_inv in Ew; [|apply Nonneg].
  cbn [log float to clamp map_tensor shape] in Ew.
  cbn [map] in Ew. rewrite !Nat2Z.id in Ew. cbn [numel fold_right] in Ew.
  fold (numel (shape w)) in Ew.
  assert (Hb : nth 0 (shape w) 0 = batch_w d).
  { unfold size0 in Es. destruct (shape w); [discriminate|].
    now injection Es. }
  rewrite Hb, Er, Ev, Nu, Ew, EL. repeat split; ring.
Qed.

(** C9 (amended). The engine checks nothing before it computes; a call
    fails only where an operation refuses its operands.  With exactly one
    timestep the chunk length is never looked at.  Otherwise a zero chunk
    length raises [ZeroDivisionError], a negative chunk length that
    divides the sequence length raises, and with a chunk length of at
    least 1 the engine raises whenever [r], [v], [u] or [w] does not have
    the number of elements that the shape of [k] calls for
    ([B*H*L*K], [B*H*L*V], [H*K] and [Bw*H*L*K]). *)
Theorem rejected_calls :
  (L = 1 ->
   forall chunk_len' precision_dtype',
     rwkv_inner r k v w u kv_state chunk_len precision_dtype
     = rwkv_inner r k v w u kv_state chunk_len' precision_dtype')
  /\ (L <> 1 ->
      (chunk_len = 0%Z ->
       rwkv_inner r k v w u kv_state chunk_len precision_dtype
       = Raise ZeroDivisionError)
      /\ ((chunk_len < 0)%Z -> (zz L mod chunk_len = 0)%Z ->
          exists e,
            rwkv_inner r k v w u kv_state chunk_len precision_dtype
            = Raise e)
      /\ ((1 <= chunk_len)%Z ->
          numel (shape r) <> B * H * L * K
          \/ numel (shape v) <> B * H * L * V
          \/ numel (shape u) <> H * K
          \/ numel (shape w) <> nth 0 (shape w) 0 * H * L * K ->
          exists e,
            rwkv_inner r k v w u kv_state chunk_len precision_dtype
            = Raise e)).
Proof.
  split.
  - intros -> c' p'. unfold rwkv_inner, size4, size_from_end. rewrite Hk.
    pose proof Hv as Hv'. apply Nat.leb_le in Hv'. rewrite Hv'. reflexivity.
  - intros HL. split; [now apply zero_chunk_len_raises|].
    split; [now apply negative_divisor_raises|].
    intros Hc Hbad.
    destruct (rwkv_inner r k v w u kv_state chunk_len precision_dtype)
      as [res|e] eqn:E; [|eexists; reflexivity].
    exfalso. destruct (accepted_counts HL Hc E) as (E1 & E2 & E3 & E4).
    tauto.
Qed.

End Rejected.


(** ** Sums *)

Section Sums.
Context {F : Type} `{SF : Scalar F}.
Variables (fone : F) (fopp : F -> F).
Hypothesis Fring : ring_theory fzero fone fadd fmul fsub fopp eq.
Add Ring FringR : Fring.

Declare Scope F_scope.
Delimit Scope F_scope with F.
Local Infix "+" := fadd : F_scope.
Local Infix "*" := fmul : F_scope.
Local Infix "-" := fsub : F_scope.

Lemma fold_left_fadd (l : list F) (x : F) :
  fold_left fadd l x = (x + fsum l)%F.
Proof.
  revert x. induction l as [|y l IH]; intros x; simpl.
  - ring.
  - rewrite IH. rewrite (IH y). ring.
Qed.

Lemma fsum_cons (x : F) (l : list F) : fsum (x :: l) = (x + fsum l)%F.
Proof. simpl. apply fold_left_fadd. Qed.

Lemma fsum_app (l1 l2 : list F) : fsum (l1 ++ l2) = (fsum l1 + fsum l2)%F.
Proof.
  induction l1 as [|x l1 IH].
  - simpl. ring.
  - rewrite <- app_comm_cons, !fsum_cons, IH. ring.
Qed.

Lemma bigsum_0 (f : nat -> F) (a : nat) : bigsum f a 0 = fzero.
Proof. reflexivity. Qed.

Lemma bigsum_S_l (f : nat -> F) (a n : nat) :
  bigsum f a (S n) = (f a + bigsum f (S a) n)%F.
Proof. unfold bigsum. cbn [seq map]. apply fsum_cons. Qed.

Lemma bigsum_split (f : nat -> F) (a n m : nat) :
  bigsum f a (n + m) = (bigsum f a n + bigsum f (a + n)%nat m)%F.
Proof. unfold bigsum. now rewrite seq_app, map_app, fsum_app. Qed.

Lemma bigsum_S_r (f : nat -> F) (a n : nat) :
  bigsum f a (S n) = (bigsum f a n + f (a + n)%nat)%F.
Proof.
  replace (S n) with (n + 1) by lia. rewrite bigsum_split.
  rewrite bigsum_S_l, bigsum_0. ring.
Qed.

Lemma bigsum_ext (f g : nat -> F) (a n : nat) :
  (forall i, a <= i < a + n -> f i = g i) -> bigsum f a n = bigsum g a n.
Proof.
  intros H. unfold bigsum. f_equal. apply map_ext_in.
  intros i Hi. apply in_seq in Hi. now apply H.
Qed.

Lemma bigsum_zero (a n : nat) : bigsum (fun _ => fzero) a n = fzero.
Proof.
  revert a. induction n as [|n IH]; intros a; [reflexivity|].
  rewrite bigsum_S_l, IH. ring.
Qed.

Lemma bigsum_add (f g : nat -> F) (a n : nat) :
  bigsum (fun i => f i + g i)%F a n = (bigsum f a n + bigsum g a n)%F.
Proof.
  revert a. induction n as [|n IH]; intros a.
  - rewrite !bigsum_0. ring.
  - rewrite !bigsum_S_l, IH. ring.
Qed.

Lemma bigsum_mul_l (c : F) (f : nat -> F) (a n : nat) :
  bigsum (fun i => c * f i)%F a n = (c * bigsum f a n)%F.
Proof.
  revert a. induction n as [|n IH]; intros a.
  - rewrite !bigsum_0. ring.
  - rewrite !bigsum_S_l, IH. ring.
Qed.

Lemma bigsum_mul_r (c : F) (f : nat -> F) (a n : nat) :
  bigsum (fun i => f i * c)%F a n = (bigsum f a n * c)%F.
Proof.
  revert a. induction n as [|n IH]; intros a.
  - rewrite !bigsum_0. ring.
  - rewrite !bigsum_S_l, IH. ring.
Qed.

Lemma bigsum_swap (f : nat -> nat -> F) (a n b m : nat) :
  bigsum (fun i => bigsum (fun j => f i j) b m) a n
  = bigsum (fun j => bigsum (fun i => f i j) a n) b m.
Proof.
  revert a. induction n as [|n IH]; intros a.
  - rewrite bigsum_0. symmetry. apply bigsum_zero.
  - rewrite bigsum_S_l, IH. rewrite <- bigsum_add.
    apply bigsum_ext. intros j _. now rewrite bigsum_S_l.
Qed.

Lemma bigsum_shift (f : nat -> F) (a c n : nat) :
  bigsum f (a + c) n = bigsum (fun i => f (i + c)) a n.
Proof.
  revert a. induction n as [|n IH]; intros a; [reflexivity|].
  rewrite !bigsum_S_l. f_equal. apply (IH (S a)).
Qed.

Lemma bigsum_from0 (f : nat -> F) (a n : nat) :
  bigsum f a n = bigsum (fun l => f (a + l)%nat) 0 n.
Proof.
  pose proof (bigsum_shift f 0 a n) as E. cbn [Nat.add] in E. rewrite E.
  apply bigsum_ext. intros l _. now rewrite Nat.add_comm.
Qed.

(** Sum of the terms below [t] only. *)
Lemma bigsum_below (g : nat -> F) (t n : nat) :
  t <= n ->
  bigsum (fun s => if s <? t then g s else fzero) 0 n = bigsum g 0 t.
Proof.
  intros H. replace n with (t + (n - t)) by lia. rewrite bigsum_split.
  rewrite (@bigsum_ext _ g _ _).
  2:{ intros i Hi. destruct (Nat.ltb_spec i t); [reflexivity|lia]. }
  rewrite (@bigsum_ext _ (fun _ => fzero) (0 + t) _).
  2:{ intros i Hi. destruct (Nat.ltb_spec i t); [lia|reflexivity]. }
  rewrite bigsum_zero. ring.
Qed.

(** Sum with a single non-zero term. *)
Lemma bigsum_single (g : nat -> F) (t n : nat) :
  t < n ->
  bigsum (fun s => if t =? s then g s else fzero) 0 n = g t.
Proof.
  intros H. replace n with (t + S (n - t - 1)) by lia.
  rewrite bigsum_split, bigsum_S_l.
  rewrite (@bigsum_ext _ (fun _ => fzero) 0 _).
  2:{ intros i Hi. destruct (Nat.eqb_spec t i); [lia|reflexivity]. }
  rewrite (@bigsum_ext _ (fun _ => fzero) (S (0 + t)) _).
  2:{ intros i Hi. destruct (Nat.eqb_spec t i); [lia|reflexivity]. }
  rewrite !bigsum_zero. cbn [Nat.add]. rewrite Nat.eqb_refl. ring.
Qed.


(** ** The chunked recurrence, for one batch and one head *)

Section ChunkAlgebra.
Hypothesis exp_add : forall a b : F, fexp (a + b)%F = (fexp a * fexp b)%F.
Hypothesis exp_zero : fexp fzero = fone.

Variables (K h2 q : nat).
Variables (r k v lw w : nat -> nat -> F) (u : nat -> F).
Hypothesis Hw : forall t i, fexp (lw t i) = w t i.

Local Abbreviation T := (h2 + h2).
Local Abbreviation Sref' := (Sref k v w).
Local Abbreviation Oref' := (Oref K r k v w u).
Local Abbreviation Lg' := (Lg lw).
Local Abbreviation Wexp' := (Wexp lw).

Lemma Lg_split (i a n m : nat) : Lg' i a (n + m) = (Lg' i a n + Lg' i (a + n) m)%F.
Proof. apply bigsum_split. Qed.

Lemma Wexp_0 (i a : nat) : Wexp' i a 0 = fone.
Proof. unfold Wexp, Lg. rewrite bigsum_0. exact exp_zero. Qed.

Lemma Wexp_S (i a n : nat) : Wexp' i a (S n) = (Wexp' i a n * w (a + n) i)%F.
Proof.
  unfold Wexp, Lg. rewrite bigsum_S_r, exp_add, Hw. reflexivity.
Qed.

Lemma Sref_closed (S0 : nat -> nat -> F) (a m i j : nat) :
  Sref' S0 (a + m) i j
  = (Wexp' i a m * Sref' S0 a i j
     + bigsum (fun s => Wexp' i (a + S s) (m - S s)
                        * (k (a + s) i * v (a + s) j)) 0 m)%F.
Proof.
  induction m as [|m IH].
  - rewrite Nat.add_0_r, Wexp_0, bigsum_0. ring.
  - rewrite Nat.add_succ_r. cbn [Sref]. rewrite IH, Wexp_S, bigsum_S_r.
    cbn [Nat.add]. rewrite Nat.sub_diag, Wexp_0.
    rewrite (@bigsum_ext
               (fun s => Wexp' i (a + S s) (S m - S s)
                         * (k (a + s) i * v (a + s) j))%F
               (fun s => w (a + m) i
                         * (Wexp' i (a + S s) (m - S s)
                            * (k (a + s) i * v (a + s) j)))%F _ _).
    2:{ intros s Hs. replace (S m - S s) with (S (m - S s)) by lia.
        rewrite Wexp_S. replace (a + S s + (m - S s)) with (a + m) by lia.
        ring. }
    rewrite bigsum_mul_l. ring.
Qed.

(** The chunk that starts at time [t0]. *)
Section Chunk.
Variable t0 : nat.
Local Abbreviation cum' := (cum lw t0).
Local Abbreviation shifted' := (shifted lw t0).
Local Abbreviation off' := (off h2 q lw t0).
Local Abbreviation rd' := (rd h2 q lw t0).
Local Abbreviation kd' := (kd h2 q lw t0).
Local Abbreviation X' := (X K h2 q r k lw t0).
Local Abbreviation Dg' := (Dg K r k u t0).
Local Abbreviation A' := (A K h2 q r k lw u t0).
Local Abbreviation O1' := (O1 K h2 q r k v lw u t0).
Local Abbreviation kd2' := (kd2 h2 q lw t0).
Local Abbreviation Xc' := (Xc K h2 q r k lw t0).
Local Abbreviation cross' := (cross K h2 q r k v lw t0).
Local Abbreviation Ointra' := (Ointra K h2 q r k v lw u t0).
Local Abbreviation wslog' := (wslog h2 lw t0).
Local Abbreviation winter' := (winter h2 lw t0).
Local Abbreviation wintra' := (wintra lw t0).
Local Abbreviation wkv' := (wkv h2 k v lw t0).
Local Abbreviation Snext' := (Snext h2 k v lw t0).
Local Abbreviation Ochunk' := (Ochunk K h2 q r k v lw u t0).
Local Abbreviation Y' := (Y K r k lw t0).

Lemma cum_Lg (p i : nat) : cum' p i = Lg' i t0 (S p).
Proof.
  unfold cum, Lg. now rewrite (bigsum_from0 _ t0).
Qed.

Lemma shifted_Lg (p i : nat) : shifted' p i = Lg' i t0 p.
Proof.
  unfold shifted. destruct p as [|p]; [reflexivity|].
  cbn [Nat.eqb Nat.sub]. rewrite Nat.sub_0_r. apply cum_Lg.
Qed.

Lemma wslog_Lg (i : nat) : wslog' i = Lg' i t0 T.
Proof.
  unfold wslog, Lg. now rewrite (bigsum_from0 _ t0).
Qed.

(** The decay between a key at [ps] and a later query at [pt]. *)
Lemma decay_between (x : F) (ps pt i : nat) :
  ps < pt ->
  (fexp (shifted' pt i - x) * fexp (x - cum' ps i))%F
  = Wexp' i (t0 + S ps) (pt - S ps).
Proof.
  intros H. rewrite <- exp_add, shifted_Lg, cum_Lg. unfold Wexp. f_equal.
  replace pt with (S ps + (pt - S ps)) at 1 by lia. rewrite Lg_split. ring.
Qed.

Lemma winter_Wexp (p i : nat) :
  p < T -> winter' p i = Wexp' i (t0 + S p) (T - S p).
Proof.
  intros H. unfold winter, Wexp. rewrite wslog_Lg, cum_Lg. f_equal.
  replace T with (S p + (T - S p)) at 1 by lia. rewrite Lg_split. ring.
Qed.

Lemma wintra_Wexp (p i : nat) : wintra' p i = Wexp' i t0 p.
Proof.
  unfold wintra, Wexp. rewrite cum_Lg. f_equal.
  unfold Lg. rewrite bigsum_S_r. ring.
Qed.

(** The state after the chunk. *)
Lemma Snext_Sref (S0 : nat -> nat -> F) (i j : nat) :
  Snext' (Sref' S0 t0) i j = Sref' S0 (t0 + T) i j.
Proof.
  rewrite Sref_closed. unfold Snext, wkv. rewrite wslog_Lg.
  fold (Wexp' i t0 T).
  rewrite (@bigsum_ext
             (fun p => k (t0 + p) i * winter' p i * v (t0 + p) j)%F
             (fun s => Wexp' i (t0 + S s) (T - S s)
                       * (k (t0 + s) i * v (t0 + s) j))%F _ _).
  2:{ intros p Hp. rewrite winter_Wexp by lia. ring. }
  ring.
Qed.

Lemma X_Y (z t' s' : nat) :
  s' < t' -> X' z t' s' = Y' (z * h2 + t') (z * h2 + s').
Proof.
  intros H. unfold X, Y. apply bigsum_ext. intros i _.
  unfold rd, kd.
  rewrite <- (@decay_between (off' z i) (z * h2 + s') (z * h2 + t') i) by lia.
  ring.
Qed.

Lemma Xc_Y (t' s' : nat) : s' < h2 -> Xc' t' s' = Y' (h2 + t') s'.
Proof.
  intros H. unfold Xc, Y. apply bigsum_ext. intros i _.
  unfold rd, kd2. rewrite Nat.mul_1_l.
  rewrite <- (@decay_between (off' 1 i) s' (h2 + t') i) by lia.
  ring.
Qed.

Lemma O1_Y (z t' j : nat) :
  t' < h2 ->
  O1' z t' j
  = (bigsum (fun s' => Y' (z * h2 + t') (z * h2 + s')
                       * v (t0 + (z * h2 + s')) j) 0 t'
     + Dg' (z * h2 + t') * v (t0 + (z * h2 + t')) j)%F.
Proof.
  intros H. unfold O1, A.
  rewrite (@bigsum_ext _
             (fun s' =>
                (if s' <? t'
                 then Y' (z * h2 + t') (z * h2 + s')
                      * v (t0 + (z * h2 + s')) j
                 else fzero)
                + (if t' =? s'
                   then Dg' (z * h2 + t') * v (t0 + (z * h2 + s')) j
                   else fzero))%F _ _).
  2:{ intros s' _. destruct (Nat.ltb_spec s' t') as [Hlt|Hge];
        destruct (Nat.eqb_spec t' s'); try rewrite X_Y by assumption; ring. }
  rewrite bigsum_add, bigsum_below by lia.
  rewrite (@bigsum_single
             (fun s' => Dg' (z * h2 + t') * v (t0 + (z * h2 + s')) j)%F t' h2)
    by assumption.
  reflexivity.
Qed.

(** All the attention inside the chunk of the query at position
    [z * h2 + t']. *)
Lemma Ointra_Y (z t' j : nat) :
  z < 2 -> t' < h2 ->
  Ointra' z t' j
  = (bigsum (fun ps => Y' (z * h2 + t') ps * v (t0 + ps) j) 0 (z * h2 + t')
     + Dg' (z * h2 + t') * v (t0 + (z * h2 + t')) j)%F.
Proof.
  intros Hz Ht. unfold Ointra. destruct z as [|[|z]]; [| |lia].
  - cbn [Nat.eqb]. rewrite O1_Y by assumption. reflexivity.
  - cbn [Nat.eqb]. rewrite O1_Y by assumption.
    rewrite Nat.mul_1_l, bigsum_split. cbn [Nat.add].
    unfold cross.
    rewrite (@bigsum_ext (fun s' => Xc' t' s' * v (t0 + s') j)%F
               (fun ps => Y' (h2 + t') ps * v (t0 + ps) j)%F _ _).
    2:{ intros s' Hs. rewrite Xc_Y by lia. reflexivity. }
    rewrite (@bigsum_shift _ 0 h2 _). cbn [Nat.add].
    rewrite (@bigsum_ext (fun i => Y' (h2 + t') (i + h2) * v (t0 + (i + h2)) j)%F
               (fun s' => Y' (h2 + t') (h2 + s') * v (t0 + (h2 + s')) j)%F _ _).
    2:{ intros s' _. now rewrite (Nat.add_comm s' h2). }
    ring.
Qed.

(** The output of the chunked computation is the output of the
    recurrence. *)
Lemma Ochunk_Oref (S0 : nat -> nat -> F) (z t' j : nat) :
  z < 2 -> t' < h2 ->
  Ochunk' (Sref' S0 t0) z t' j = Oref' S0 (t0 + (z * h2 + t')) j.
Proof.
  intros Hz Ht. unfold Ochunk, Oref. rewrite Ointra_Y by assumption.
  set (pt := z * h2 + t').
  (* the recurrence, expanded over the chunk *)
  rewrite (@bigsum_ext
             (fun i => r (t0 + pt) i
                       * (Sref' S0 (t0 + pt) i j
                          + u i * (k (t0 + pt) i * v (t0 + pt) j)))%F
             (fun i => bigsum (fun ps => (r (t0 + pt) i * k (t0 + ps) i
                                          * Wexp' i (t0 + S ps) (pt - S ps))
                                         * v (t0 + ps) j) 0 pt
                       + (r (t0 + pt) i * (u i * k (t0 + pt) i)
                          * v (t0 + pt) j
                          + r (t0 + pt) i * wintra' pt i * Sref' S0 t0 i j))%F _ _).
  2:{ intros i _. rewrite Sref_closed, wintra_Wexp.
      rewrite (@bigsum_ext
                 (fun ps => (r (t0 + pt) i * k (t0 + ps) i
                             * Wexp' i (t0 + S ps) (pt - S ps))
                            * v (t0 + ps) j)%F
                 (fun ps => r (t0 + pt) i
                            * (Wexp' i (t0 + S ps) (pt - S ps)
                               * (k (t0 + ps) i * v (t0 + ps) j)))%F 0 pt).
      2:{ intros ps _. ring. }
      rewrite bigsum_mul_l. ring. }
  rewrite bigsum_add, bigsum_add, bigsum_swap.
  unfold Y, Dg. rewrite !bigsum_mul_r.
  rewrite (@bigsum_ext
             (fun j0 => bigsum (fun i => r (t0 + pt) i * k (t0 + j0) i
                                         * Wexp' i (t0 + S j0) (pt - S j0)
                                         * v (t0 + j0) j) 0 K)%F
             (fun j0 => bigsum (fun i => r (t0 + pt) i * k (t0 + j0) i
                                         * Wexp' i (t0 + S j0) (pt - S j0))
                          0 K * v (t0 + j0) j)%F _ _).
  2:{ intros ps _. now rewrite bigsum_mul_r. }
  ring.
Qed.

End Chunk.
End ChunkAlgebra.
End Sums.

Unset Implicit Arguments.

(** ** Elements of the results of the operations *)

Section Elements.
Context {F : Type} `{SF : Scalar F}.
Local Abbreviation tensor := (tensor F).

Lemma get_map_tensor (f : F -> F) (t : tensor) (idx : list nat) :
  well_formed t -> in_range idx (shape t) ->
  get (map_tensor f t) idx = f (get t idx).
Proof.
  intros W R. unfold get. cbn [map_tensor shape data].
  pose proof (ravel_lt R) as Hlt. rewrite <- W in Hlt.
  rewrite (nth_indep _ fzero (f fzero)) by now rewrite length_map.
  apply map_nth.
Qed.

Lemma well_formed_map_tensor (f : F -> F) (t : tensor) :
  well_formed t -> well_formed (map_tensor f t).
Proof. unfold well_formed. cbn. now rewrite length_map. Qed.

Lemma view_spec (zs : list Z) (t : tensor) :
  Forall (fun z => (0 <= z)%Z) zs ->
  numel (map Z.to_nat zs) = numel (shape t) -> well_formed t ->
  exists y,
    view zs t = Ok y /\ shape y = map Z.to_nat zs /\ well_formed y
    /\ data y = data t.
Proof.
  intros Hz Hn W. rewrite view_ok by assumption.
  eexists. split; [reflexivity|]. split; [reflexivity|].
  split; [|reflexivity]. unfold well_formed. cbn [shape data]. congruence.
Qed.

Lemma in_range_app (a b s1 s2 : list nat) :
  in_range a s1 -> in_range b s2 -> in_range (a ++ b) (s1 ++ s2).
Proof. apply Forall2_app. Qed.

Lemma split_last2_app (bs : list nat) (n m : nat) :
  split_last2 (bs ++ [n; m]) = Some (bs, n, m).
Proof.
  unfold split_last2. rewrite rev_app_distr. cbn [rev app].
  now rewrite rev_involutive.
Qed.

Lemma binop_get (f : F -> F -> F) (a b : tensor) (s : list nat) :
  broadcast_shapes (shape a) (shape b) = Ok s ->
  exists y,
    binop f a b = Ok y /\ shape y = s /\ well_formed y
    /\ forall idx, in_range idx s ->
         get y idx
         = f (get a (bidx (shape a) idx)) (get b (bidx (shape b) idx)).
Proof.
  intros H. unfold binop. rewrite H. cbn [bind].
  eexists. split; [reflexivity|]. split; [reflexivity|].
  split; [apply well_formed_tabulate|].
  intros idx Hr. now rewrite get_tabulate.
Qed.

Lemma cumsum_get (d : nat) (t : tensor) :
  d <= rank t ->
  exists y,
    cumsum d t = Ok y /\ shape y = shape t /\ well_formed y
    /\ forall idx, in_range idx (shape t) ->
         get y idx
         = bigsum (fun l => get t (set_at (rank t - d) l idx)) 0
             (S (nth (rank t - d) idx 0)).
Proof.
  intros H. unfold cumsum. apply Nat.leb_le in H. rewrite H.
  eexists. split; [reflexivity|]. split; [reflexivity|].
  split; [apply well_formed_tabulate|].
  intros idx Hr. now rewrite get_tabulate.
Qed.

Lemma sum_keepdim_get (d : nat) (t : tensor) :
  d <= rank t ->
  exists y,
    sum_keepdim d t = Ok y /\ shape y = set_at (rank t - d) 1 (shape t)
    /\ well_formed y
    /\ forall idx, in_range idx (set_at (rank t - d) 1 (shape t)) ->
         get y idx
         = bigsum (fun l => get t (set_at (rank t - d) l idx)) 0
             (nth (rank t - d) (shape t) 0).
Proof.
  intros H. unfold sum_keepdim. apply Nat.leb_le in H. rewrite H.
  eexists. split; [reflexivity|]. split; [reflexivity|].
  split; [apply well_formed_tabulate|].
  intros idx Hr. now rewrite get_tabulate.
Qed.

Lemma slice_axis_get (d : nat) (a b : option Z) (t : tensor) (st len : nat) :
  d <= rank t ->
  slice_range (nth (rank t - d) (shape t) 0) a b = (st, len) ->
  exists y,
    slice_axis d a b t = Ok y /\ shape y = set_at (rank t - d) len (shape t)
    /\ well_formed y
    /\ forall idx, in_range idx (set_at (rank t - d) len (shape t)) ->
         get y idx
         = get t (set_at (rank t - d) (st + nth (rank t - d) idx 0) idx).
Proof.
  intros H E. unfold slice_axis. apply Nat.leb_le in H. rewrite H, E.
  eexists. split; [reflexivity|]. split; [reflexivity|].
  split; [apply well_formed_tabulate|].
  intros idx Hr. now rewrite get_tabulate.
Qed.

Lemma mT_get (t : tensor) (bs : list nat) (n m : nat) :
  shape t = bs ++ [n; m] ->
  exists y,
    mT t = Ok y /\ shape y = bs ++ [m; n] /\ well_formed y
    /\ forall ib i j, in_range ib bs -> i < m -> j < n ->
         get y (ib ++ [i; j]) = get t (ib ++ [j; i]).
Proof.
  intros H. unfold mT. rewrite H, split_last2_app.
  eexists. split; [reflexivity|]. split; [reflexivity|].
  split; [apply well_formed_tabulate|].
  intros ib i j Hb Hi Hj.
  rewrite get_tabulate by (apply in_range_app; [assumption|in_range_tac]).
  now rewrite split_last2_app.
Qed.

Lemma matmul_get (a b : tensor) (ba bb s : list nat) (n m p : nat) :
  shape a = ba ++ [n; m] -> shape b = bb ++ [m; p] ->
  broadcast_shapes ba bb = Ok s ->
  exists y,
    matmul a b = Ok y /\ shape y = s ++ [n; p] /\ well_formed y
    /\ forall ib i j, in_range ib s -> i < n -> j < p ->
         get y (ib ++ [i; j])
         = bigsum (fun l => fmul (get a (bidx ba ib ++ [i; l]))
                                 (get b (bidx bb ib ++ [l; j]))) 0 m.
Proof.
  intros Ha Hb Hs. unfold matmul, rank. rewrite Ha, Hb, !length_app.
  cbn [length]. rewrite !Nat.add_succ_r. cbn [Nat.eqb orb].
  unfold matmul2. rewrite Ha, Hb, !split_last2_app, Hs. cbn [bind].
  rewrite Nat.eqb_refl. cbn [bind shape data tabulate].
  change (mkTensor ?sh (map ?f (indices ?sh))) with (tabulate sh f).
  eexists. split; [reflexivity|]. split; [reflexivity|].
  split; [apply well_formed_tabulate|].
  intros ib i j Hr Hi Hj.
  rewrite get_tabulate by (apply in_range_app; [assumption|in_range_tac]).
  now rewrite split_last2_app.
Qed.

Lemma tril_below_get (t : tensor) (bs : list nat) (n m : nat) :
  shape t = bs ++ [n; m] ->
  exists y,
    tril_below t = Ok y /\ shape y = bs ++ [n; m] /\ well_formed y
    /\ forall ib i j, in_range ib bs -> i < n -> j < m ->
         get y (ib ++ [i; j])
         = if j <? i then get t (ib ++ [i; j]) else fzero.
Proof.
  intros H. unfold tril_below. rewrite H, split_last2_app.
  eexists. split; [reflexivity|]. split; [reflexivity|].
  split; [apply well_formed_tabulate|].
  intros ib i j Hb Hi Hj.
  rewrite get_tabulate by (apply in_range_app; [assumption|in_range_tac]).
  now rewrite split_last2_app.
Qed.

Lemma diag_embed_get (t : tensor) (bs : list nat) (n : nat) :
  shape t = bs ++ [n] ->
  exists y,
    diag_embed t = Ok y /\ shape y = bs ++ [n; n] /\ well_formed y
    /\ forall ib i j, in_range ib bs -> i < n -> j < n ->
         get y (ib ++ [i; j])
         = if i =? j then get t (ib ++ [i]) else fzero.
Proof.
  intros H. unfold diag_embed. rewrite H, rev_app_distr. cbn [rev app].
  rewrite <- app_assoc. cbn [app].
  eexists. split; [reflexivity|]. split; [reflexivity|].
  split; [apply well_formed_tabulate|].
  intros ib i j Hb Hi Hj.
  rewrite get_tabulate by (apply in_range_app; [assumption|in_range_tac]).
  now rewrite split_last2_app.
Qed.

Lemma einsum_get (a b : tensor) (s : list nat) (n : nat) :
  rank a = 6 -> rank b = 6 ->
  broadcast_shapes (shape a) (shape b) = Ok (s ++ [n]) ->
  exists y,
    einsum_bhnztk a b = Ok y /\ shape y = s /\ well_formed y
    /\ forall idx, in_range idx s ->
         get y idx
         = bigsum (fun l => fmul (get a (bidx (shape a) (idx ++ [l])))
                                 (get b (bidx (shape b) (idx ++ [l])))) 0 n.
Proof.
  intros Ha Hb Hs. unfold einsum_bhnztk. rewrite Ha, Hb, Hs.
  cbn [Nat.eqb andb bind]. rewrite removelast_last, last_last.
  eexists. split; [reflexivity|]. split; [reflexivity|].
  split; [apply well_formed_tabulate|].
  intros idx Hr. now rewrite get_tabulate.
Qed.

Lemma setitem_axis_get (d : nat) (a b : option Z) (t x : tensor)
      (st len : nat) :
  d <= rank t ->
  slice_range (nth (rank t - d) (shape t) 0) a b = (st, len) ->
  shape x = set_at (rank t - d) len (shape t) ->
  exists y,
    setitem_axis d a b t x = Ok y /\ shape y = shape t /\ well_formed y
    /\ forall idx, in_range idx (shape t) ->
         get y idx
         = if (st <=? nth (rank t - d) idx 0)
              && (nth (rank t - d) idx 0 <? st + len)
           then get x (bidx (shape x)
                         (set_at (rank t - d)
                            (nth (rank t - d) idx 0 - st) idx))
           else get t idx.
Proof.
  intros H E Hx. unfold setitem_axis. apply Nat.leb_le in H.
  rewrite H, E, Hx, broadcast_shapes_same. cbn [bind].
  rewrite list_eqb_refl.
  eexists. split; [reflexivity|]. split; [reflexivity|].
  split; [apply well_formed_tabulate|].
  intros idx Hr. now rewrite get_tabulate.
Qed.

End Elements.

(** ** Broadcasting against the larger operand *)

Lemma broadcast_rev_from (s b : list nat) :
  Forall2 (fun x y => y = x \/ y = 1) s b -> broadcast_rev s b = Ok s.
Proof.
  induction 1 as [|x y s b Hxy _ IH]; [reflexivity|].
  cbn [broadcast_rev]. rewrite IH. cbn [bind].
  destruct (Nat.eqb_spec x y) as [E|E]; [reflexivity|].
  destruct Hxy as [->| ->]; [congruence|].
  destruct (Nat.eqb_spec x 1) as [E1|E1]; [congruence|reflexivity].
Qed.

Lemma broadcast_shapes_from (s b : list nat) :
  Forall2 (fun x y => y = x \/ y = 1) s b -> broadcast_shapes s b = Ok s.
Proof.
  intros H. unfold broadcast_shapes.
  rewrite broadcast_rev_from by now apply Forall2_rev_intro.
  cbn [bind]. now rewrite rev_involutive.
Qed.

Lemma bsel_lt (Bw B b : nat) :
  Bw = B \/ Bw = 1 -> b < B -> (if Bw =? 1 then 0 else b) < Bw.
Proof. intros [->| ->] Hb; [rewrite sel_lt|cbn]; lia. Qed.

Ltac shape_tac :=
  repeat (apply Forall2_cons; [auto|]); apply Forall2_nil.

Ltac sel_tac :=
  repeat match goal with
         | H : ?i < ?n |- context [if ?n =? 1 then 0 else ?i] =>
             rewrite (sel_lt H)
         end.

Ltac range_tac :=
  unfold in_range;
  repeat (apply Forall2_cons;
          [first [assumption | cbn [length] in *; lia
                 | apply bsel_lt; assumption]|]);
  apply Forall2_nil.

(** ** The chunked engine, element by element

    With casts that do not round, every tensor the chunked engine builds
    holds, at each index, the value of the corresponding function of the
    previous section. *)

Section ChunkedElements.
Context {F : Type} `{SF : Scalar F}.
Local Abbreviation tensor := (tensor F).
Local Abbreviation zz := Z.of_nat.
Hypothesis cast_id : forall (d : dtype) (x : F), fcast d x = x.

Lemma to_id (d : dtype) (t : tensor) : to d t = t.
Proof.
  destruct t as [s l]. unfold to, map_tensor. cbn [shape data]. f_equal.
  rewrite <- (map_id l) at 2. apply map_ext. intros x. apply cast_id.
Qed.

Lemma get_exp (t : tensor) (idx : list nat) :
  well_formed t -> in_range idx (shape t) ->
  get (exp t) idx = fexp (get t idx).
Proof. apply get_map_tensor. Qed.

Lemma cat_shifted (x y : tensor) (a b c n e : nat) :
  shape x = [a; b; c; 1; e] -> well_formed x ->
  shape y = [a; b; c; n; e] ->
  exists z,
    cat 2 [zeros_like x; y] = Ok z /\ shape z = [a; b; c; 1 + n; e]
    /\ well_formed z
    /\ forall i1 i2 i3 t i5, i1 < a -> i2 < b -> i3 < c -> t < 1 + n ->
         i5 < e ->
         get z [i1; i2; i3; t; i5]
         = if t =? 0 then fzero else get y [i1; i2; i3; t - 1; i5].
Proof.
  intros Hx Wx Hy.
  assert (Hz : shape (zeros_like x) = [a; b; c; 1; e]) by exact Hx.
  unfold cat, rank. rewrite Hz.
  cbn [length Nat.leb Nat.sub forallb fold_right].
  rewrite Hz, Hy.
  cbn [set_at firstn skipn app nth]. rewrite !list_eqb_refl.
  cbn [andb]. rewrite Nat.add_0_r.
  eexists. split; [reflexivity|]. split; [reflexivity|].
  split; [apply well_formed_tabulate|].
  intros i1 i2 i3 t i5 H1 H2 H3 H4 H5.
  rewrite get_tabulate by range_tac.
  cbn [nth locate]. rewrite Hz, Hy. cbn [nth].
  destruct (Nat.eqb_spec t 0) as [->|Ht].
  - cbn [Nat.ltb Nat.leb set_at firstn skipn app]. unfold zeros_like.
    rewrite get_map_tensor; [reflexivity|exact Wx|rewrite Hx; range_tac].
  - replace (t <? 1) with false by (symmetry; apply Nat.ltb_ge; lia).
    replace (t - 1 <? n) with true by (symmetry; apply Nat.ltb_lt; lia).
    reflexivity.
Qed.

Lemma get_reshape (y t : tensor) (idx idx' : list nat) :
  data y = data t -> ravel (shape y) idx = ravel (shape t) idx' ->
  get y idx = get t idx'.
Proof. intros D R. unfold get. now rewrite D, R. Qed.

Lemma unbind_nth (d : nat) (t : tensor) :
  d <= rank t ->
  exists l,
    unbind d t = Ok l /\ length l = nth (rank t - d) (shape t) 0
    /\ forall n dflt, n < nth (rank t - d) (shape t) 0 ->
         nth n l dflt
         = tabulate (remove_at (rank t - d) (shape t))
             (fun idx => get t (insert_at (rank t - d) n idx)).
Proof.
  intros H. unfold unbind. apply Nat.leb_le in H. rewrite H.
  eexists. split; [reflexivity|].
  split; [now rewrite length_map, length_seq|].
  intros n dflt Hn.
  set (g := fun n => tabulate _ (fun idx => get t (insert_at _ n idx))).
  rewrite (nth_indep _ dflt (g 0)) by now rewrite length_map, length_seq.
  rewrite (map_nth g), seq_nth by exact Hn. reflexivity.
Qed.

Ltac rew_app E :=
  let H := fresh in pose proof E as H; cbn [app] in H; rewrite H; clear H.

Ltac rank_tac :=
  unfold rank;
  repeat match goal with
         | H : shape _ = _ |- _ => rewrite H
         end; cbn [length]; lia.

(** *** The decay profiles (rwkv_inner.py, lines 36-75) *)

Lemma log_space_decay_spec (w dflt : tensor) (Bw H L K Nn h2 : nat)
      (p : dtype) (m : Q) (lw : nat -> nat -> nat -> nat -> F) :
  shape w = [Bw; H; L; K] -> well_formed w ->
  L = Nn * (h2 + h2) -> 0 < h2 ->
  precision_min_val p = Ok m ->
  (forall b h t i, b < Bw -> h < H -> t < L -> i < K ->
     flog (fmax (get w [b; h; t; i]) (fconst m)) = lw b h t i) ->
  exists d,
    log_space_decay H K (zz Nn) (zz (h2 + h2)) w p = Ok d
    /\ batch_w d = Bw
    /\ holds5 (wc_log_cum d) Bw H Nn (h2 + h2) K
         (fun b h n t i => cum (lw b h) (n * (h2 + h2)) t i)
    /\ holds5 (shifted_wc_log_cum d) Bw H Nn (h2 + h2) K
         (fun b h n t i => shifted (lw b h) (n * (h2 + h2)) t i)
    /\ holds5 (w_inter d) Bw H Nn (h2 + h2) K
         (fun b h n t i => winter h2 (lw b h) (n * (h2 + h2)) t i)
    /\ holds5 (w_intra d) Bw H Nn (h2 + h2) K
         (fun b h n t i => wintra (lw b h) (n * (h2 + h2)) t i)
    /\ length (ws d) = Nn
    /\ forall n, n < Nn ->
         holds4 (nth n (ws d) dflt) Bw H K 1
           (fun b h i _ => fexp (wslog h2 (lw b h) (n * (h2 + h2)) i)).
Proof.
  intros Hw Ww HL Hh Hp Hlw.
  remember (h2 + h2) as Tn eqn:ETn.
  assert (HT : 0 < Tn) by lia.
  unfold log_space_decay. rewrite Hp. cbn [bind].
  unfold size0 at 1. replace (shape (clamp m w)) with (shape w) by reflexivity.
  rewrite Hw. cbn [bind]. unfold float. rewrite to_id.
  set (wl := log (clamp m w)).
  assert (Swl : shape wl = [Bw; H; L; K]) by exact Hw.
  assert (Wwl : well_formed wl).
  { unfold wl, log, clamp. now repeat apply well_formed_map_tensor. }
  assert (Gwl : forall b h t i, b < Bw -> h < H -> t < L -> i < K ->
                  get wl [b; h; t; i] = lw b h t i).
  { intros b h t i Hb Hh' Ht Hi. unfold wl, log, clamp.
    rewrite get_map_tensor.
    - rewrite get_map_tensor by (try rewrite Hw; assumption || range_tac).
      now apply Hlw.
    - now apply well_formed_map_tensor.
    - change (in_range [b; h; t; i] (shape w)). rewrite Hw. range_tac. }
  clearbody wl.
  destruct (view_spec [zz Bw; zz H; zz Nn; zz Tn; zz K] wl)
    as (wc & -> & Swc & Wwc & Dwc).
  { repeat (apply Forall_cons; [lia|]). apply Forall_nil. }
  { cbn [map]. rewrite Swl, !Nat2Z.id. cbn [numel fold_right]. subst L. ring. }
  { exact Wwl. }
  cbn [map] in Swc. rewrite !Nat2Z.id in Swc. cbn [bind].
  assert (Gwc : forall b h n t i, b < Bw -> h < H -> n < Nn -> t < Tn ->
                  i < K -> get wc [b; h; n; t; i] = lw b h (n * Tn + t) i).
  { intros b h n t i Hb Hh' Hn Ht Hi.
    rewrite (get_reshape wc wl _ [b; h; n * Tn + t; i] Dwc).
    - apply Gwl; try assumption. subst L. nia.
    - rewrite Swc, Swl. cbn [ravel numel fold_right]. subst L. ring. }
  (* cumulative sums *)
  destruct (cumsum_get 2 wc) as (cumt & -> & Scum & Wcum & Gcum);
    [rank_tac|].
  unfold rank in Gcum. rewrite Swc in Scum, Gcum.
  cbn [length Nat.sub] in Gcum. cbn [bind].
  assert (Ncum : forall b h n t i, b < Bw -> h < H -> n < Nn -> t < Tn ->
                   i < K ->
                   get cumt [b; h; n; t; i] = cum (lw b h) (n * Tn) t i).
  { intros b h n t i Hb Hh' Hn Ht Hi. rewrite Gcum by range_tac.
    cbn [nth set_at firstn skipn app]. unfold cum. apply bigsum_ext.
    intros l Hl. apply Gwc; assumption || lia. }
  (* shifted cumulative sums *)
  destruct (slice_axis_get 2 None (Some 1%Z) cumt 0 1)
    as (fst_ & -> & Sfst & Wfst & _); [rank_tac| |].
  { unfold rank. rewrite Scum. cbn [length Nat.sub nth].
    now apply slice_range_first. }
  unfold rank in Sfst. rewrite Scum in Sfst.
  cbn [length Nat.sub set_at firstn skipn app] in Sfst. cbn [bind].
  destruct (slice_axis_get 2 None (Some (-1)%Z) cumt 0 (Tn - 1))
    as (rest & -> & Srest & Wrest & Grest); [rank_tac| |].
  { unfold rank. rewrite Scum. cbn [length Nat.sub nth].
    now apply slice_range_but_last. }
  unfold rank in Srest, Grest. rewrite Scum in Srest, Grest.
  cbn [length Nat.sub set_at firstn skipn app] in Srest, Grest. cbn [bind].
  destruct (cat_shifted fst_ rest _ _ _ _ _ Sfst Wfst Srest) as (sh & -> & Ssh & Wsh & Gsh).
  replace (1 + (Tn - 1)) with Tn in Ssh, Gsh by lia. cbn [bind].
  assert (Nsh : forall b h n t i, b < Bw -> h < H -> n < Nn -> t < Tn ->
                  i < K ->
                  get sh [b; h; n; t; i] = shifted (lw b h) (n * Tn) t i).
  { intros b h n t i Hb Hh' Hn Ht Hi. rewrite Gsh by assumption.
    unfold shifted. destruct (Nat.eqb_spec t 0) as [_|Ht0]; [reflexivity|].
    rewrite Grest by range_tac. cbn [nth set_at firstn skipn app Nat.add].
    apply Ncum; assumption || lia. }
  (* sums over whole chunks *)
  destruct (sum_keepdim_get 2 wc) as (wst & -> & Sws & Wws & Gws);
    [rank_tac|].
  unfold rank in Sws, Gws. rewrite Swc in Sws, Gws.
  cbn [length Nat.sub set_at firstn skipn app nth] in Sws, Gws. cbn [bind].
  assert (Nws : forall b h n i, b < Bw -> h < H -> n < Nn -> i < K ->
                  get wst [b; h; n; 0; i] = wslog h2 (lw b h) (n * Tn) i).
  { intros b h n i Hb Hh' Hn Hi. rewrite Gws by range_tac.
    cbn [nth set_at firstn skipn app]. unfold wslog. rewrite <- ETn.
    apply bigsum_ext. intros l Hl. apply Gwc; assumption || lia. }
  (* decay to the end of the chunk *)
  destruct (binop_get fsub wst cumt [Bw; H; Nn; Tn; K])
    as (wi & Ewi & Swi & Wwi & Gwi).
  { rewrite Sws, Scum. apply broadcast_shapes_into. shape_tac. }
  unfold sub at 1. rewrite Ewi. cbn [bind].
  rewrite Sws, Scum in Gwi.
  (* decay from the start of the chunk *)
  destruct (binop_get fsub cumt wc [Bw; H; Nn; Tn; K])
    as (wa & Ewa & Swa & Wwa & Gwa).
  { rewrite Swc, Scum. apply broadcast_shapes_same. }
  unfold sub. rewrite Ewa. cbn [bind].
  rewrite Swc, Scum in Gwa.
  (* the list of chunk decays *)
  destruct (mT_get wst [Bw; H; Nn] 1 K Sws)
    as (wsT & -> & SwsT & WwsT & GwsT). cbn [app] in SwsT. cbn [bind].
  rewrite !to_id.
  destruct (unbind_nth 3 (exp wsT)) as (wsl & -> & Lwsl & Gwsl).
  { unfold rank. change (shape (exp wsT)) with (shape wsT). rewrite SwsT.
    cbn [length]. lia. }
  unfold rank in Lwsl, Gwsl.
  change (shape (exp wsT)) with (shape wsT) in Lwsl, Gwsl.
  rewrite SwsT in Lwsl, Gwsl.
  cbn [length Nat.sub nth remove_at insert_at firstn skipn app]
    in Lwsl, Gwsl.
  cbn [bind]. eexists. split; [reflexivity|].
  cbn [batch_w wc_log_cum shifted_wc_log_cum ws w_inter w_intra].
  split; [reflexivity|].
  split; [now repeat split|]. split; [now repeat split|].
  split.
  { split; [exact Swi|]. split; [now apply well_formed_map_tensor|].
    intros b h n t i Hb Hh' Hn Ht Hi.
    rewrite get_exp by (try rewrite Swi; assumption || range_tac).
    rewrite Gwi by range_tac.
    cbn [bidx map combine skipn length Nat.sub Nat.eqb]. sel_tac.
    rewrite Nws, Ncum by assumption. reflexivity. }
  split.
  { split; [exact Swa|]. split; [now apply well_formed_map_tensor|].
    intros b h n t i Hb Hh' Hn Ht Hi.
    rewrite get_exp by (try rewrite Swa; assumption || range_tac).
    rewrite Gwa by range_tac.
    cbn [bidx map combine skipn length Nat.sub Nat.eqb]. sel_tac.
    rewrite Gwc, Ncum by assumption. reflexivity. }
  split; [exact Lwsl|].
  intros n Hn. rewrite Gwsl by exact Hn.
  split; [reflexivity|]. split; [apply well_formed_tabulate|].
  intros b h i j Hb Hh' Hi Hj. assert (j = 0) by lia. subst j.
  rewrite get_tabulate by range_tac. cbn [firstn skipn app].
  rewrite get_exp; [|exact WwsT|rewrite SwsT; range_tac].
  rew_app (GwsT [b; h; n] i 0); [|range_tac|lia..].
  now rewrite Nws.
Qed.

(** *** Chunked views (rwkv_inner.py, lines 78-80, 93-95, 110, 128) *)

Set Implicit Arguments.

Lemma holds4_shape (x : tensor) (a b c d : nat)
      (f : nat -> nat -> nat -> nat -> F) :
  holds4 x a b c d f -> shape x = [a; b; c; d].
Proof. now intros (S & _). Qed.

Lemma view_chunks (x : tensor) (B H L K Nn Tn : nat)
      (f : nat -> nat -> nat -> nat -> F) :
  holds4 x B H L K f -> L = Nn * Tn ->
  exists y,
    view [zz B; zz H; zz Nn; zz Tn; zz K] x = Ok y
    /\ holds5 y B H Nn Tn K (fun b h n t i => f b h (n * Tn + t) i).
Proof.
  intros (Sx & Wx & Gx) HL.
  destruct (view_spec [zz B; zz H; zz Nn; zz Tn; zz K] x)
    as (y & -> & Sy & Wy & Dy).
  { repeat (apply Forall_cons; [lia|]). apply Forall_nil. }
  { cbn [map]. rewrite Sx, !Nat2Z.id. cbn [numel fold_right]. subst L. ring. }
  { exact Wx. }
  cbn [map] in Sy. rewrite !Nat2Z.id in Sy.
  exists y. split; [reflexivity|]. split; [exact Sy|]. split; [exact Wy|].
  intros b h n t i Hb Hh Hn Ht Hi.
  rewrite (get_reshape y x _ [b; h; n * Tn + t; i] Dy).
  - apply Gx; try assumption. subst L. nia.
  - rewrite Sy, Sx. cbn [ravel numel fold_right]. subst L. ring.
Qed.

Lemma half_chunk (h2 : nat) : (zz (h2 + h2) / 2)%Z = zz h2.
Proof.
  rewrite Nat2Z.inj_add. replace (zz h2 + zz h2)%Z with (zz h2 * 2)%Z by lia.
  now rewrite Z.div_mul.
Qed.

Lemma view_halves (x : tensor) (B H Nn h2 K : nat)
      (f : nat -> nat -> nat -> nat -> nat -> F) :
  holds5 x B H Nn (h2 + h2) K f ->
  exists y,
    view (subchunk_shape B H (zz Nn) (zz (h2 + h2)) K) x = Ok y
    /\ holds6 y B H Nn 2 h2 K (fun b h n z t i => f b h n (z * h2 + t) i).
Proof.
  intros (Sx & Wx & Gx). unfold subchunk_shape. rewrite half_chunk.
  destruct (view_spec [zz B; zz H; zz Nn; 2%Z; zz h2; zz K] x)
    as (y & -> & Sy & Wy & Dy).
  { repeat (apply Forall_cons; [lia|]). apply Forall_nil. }
  { cbn [map]. rewrite Sx, !Nat2Z.id. change (Z.to_nat 2) with 2.
    cbn [numel fold_right]. ring. }
  { exact Wx. }
  cbn [map] in Sy. rewrite !Nat2Z.id in Sy. change (Z.to_nat 2) with 2 in Sy.
  exists y. split; [reflexivity|]. split; [exact Sy|]. split; [exact Wy|].
  intros b h n z t i Hb Hh Hn Hz Ht Hi.
  rewrite (get_reshape y x _ [b; h; n; z * h2 + t; i] Dy).
  - apply Gx; try assumption. nia.
  - rewrite Sy, Sx. cbn [ravel numel fold_right]. ring.
Qed.

Lemma view_whole_chunks (x : tensor) (B H Nn h2 V : nat)
      (f : nat -> nat -> nat -> nat -> nat -> nat -> F) :
  holds6 x B H Nn 2 h2 V f -> 0 < h2 ->
  exists y,
    view [zz B; zz H; zz Nn; zz (h2 + h2); zz V] x = Ok y
    /\ holds5 y B H Nn (h2 + h2) V
         (fun b h n t j => f b h n (t / h2) (t mod h2) j).
Proof.
  intros (Sx & Wx & Gx) Hh.
  destruct (view_spec [zz B; zz H; zz Nn; zz (h2 + h2); zz V] x)
    as (y & -> & Sy & Wy & Dy).
  { repeat (apply Forall_cons; [lia|]). apply Forall_nil. }
  { cbn [map]. rewrite Sx, !Nat2Z.id. cbn [numel fold_right]. ring. }
  { exact Wx. }
  cbn [map] in Sy. rewrite !Nat2Z.id in Sy.
  exists y. split; [reflexivity|]. split; [exact Sy|]. split; [exact Wy|].
  intros b h n t j Hb Hh' Hn Ht Hj.
  rewrite (get_reshape y x _ [b; h; n; t / h2; t mod h2; j] Dy).
  - apply Gx; try assumption.
    + apply Nat.Div0.div_lt_upper_bound. lia.
    + apply Nat.mod_upper_bound. lia.
  - rewrite Sy, Sx. cbn [ravel numel fold_right].
    rewrite (Nat.div_mod_eq t h2) at 1. ring.
Qed.

Lemma view_sequence (x : tensor) (B H L V Nn Tn : nat)
      (f : nat -> nat -> nat -> nat -> nat -> F) :
  holds5 x B H Nn Tn V f -> L = Nn * Tn -> 0 < Tn ->
  exists y,
    view [zz B; zz H; zz L; zz V] x = Ok y
    /\ holds4 y B H L V (fun b h t j => f b h (t / Tn) (t mod Tn) j).
Proof.
  intros (Sx & Wx & Gx) HL HT.
  destruct (view_spec [zz B; zz H; zz L; zz V] x)
    as (y & -> & Sy & Wy & Dy).
  { repeat (apply Forall_cons; [lia|]). apply Forall_nil. }
  { cbn [map]. rewrite Sx, !Nat2Z.id. cbn [numel fold_right]. subst L. ring. }
  { exact Wx. }
  cbn [map] in Sy. rewrite !Nat2Z.id in Sy.
  exists y. split; [reflexivity|]. split; [exact Sy|]. split; [exact Wy|].
  intros b h t j Hb Hh' Ht Hj.
  rewrite (get_reshape y x _ [b; h; t / Tn; t mod Tn; j] Dy).
  - apply Gx; try assumption.
    + apply Nat.Div0.div_lt_upper_bound. subst L. lia.
    + apply Nat.mod_upper_bound. lia.
  - rewrite Sy, Sx. cbn [ravel numel fold_right]. subst L.
    rewrite (Nat.div_mod_eq t Tn) at 1. ring.
Qed.

(** *** The operations on described tensors *)

Ltac inv_F2 H :=
  repeat (let x := fresh "D" in
          apply Forall2_cons_iff in H; destruct H as [x H]).

Ltac brange_tac :=
  unfold in_range;
  repeat (apply Forall2_cons;
          [first [assumption | lia | solve [eauto using bsel_lt]]|]);
  apply Forall2_nil.

Lemma holds6_ext (x : tensor) (a b c d e g : nat)
      (f f' : nat -> nat -> nat -> nat -> nat -> nat -> F) :
  holds6 x a b c d e g f ->
  (forall i1 i2 i3 i4 i5 i6,
     i1 < a -> i2 < b -> i3 < c -> i4 < d -> i5 < e -> i6 < g ->
     f i1 i2 i3 i4 i5 i6 = f' i1 i2 i3 i4 i5 i6) ->
  holds6 x a b c d e g f'.
Proof.
  intros (S & W & G) E. split; [exact S|]. split; [exact W|].
  intros. rewrite G by assumption. now apply E.
Qed.

Lemma holds5_ext (x : tensor) (a b c d e : nat)
      (f f' : nat -> nat -> nat -> nat -> nat -> F) :
  holds5 x a b c d e f ->
  (forall i1 i2 i3 i4 i5,
     i1 < a -> i2 < b -> i3 < c -> i4 < d -> i5 < e ->
     f i1 i2 i3 i4 i5 = f' i1 i2 i3 i4 i5) ->
  holds5 x a b c d e f'.
Proof.
  intros (S & W & G) E. split; [exact S|]. split; [exact W|].
  intros. rewrite G by assumption. now apply E.
Qed.

Lemma holds4_ext (x : tensor) (a b c d : nat)
      (f f' : nat -> nat -> nat -> nat -> F) :
  holds4 x a b c d f ->
  (forall i1 i2 i3 i4, i1 < a -> i2 < b -> i3 < c -> i4 < d ->
     f i1 i2 i3 i4 = f' i1 i2 i3 i4) ->
  holds4 x a b c d f'.
Proof.
  intros (S & W & G) E. split; [exact S|]. split; [exact W|].
  intros. rewrite G by assumption. now apply E.
Qed.

Lemma binop6 (op : F -> F -> F) (x y : tensor)
      (a1 a2 a3 a4 a5 a6 b1 b2 b3 b4 b5 b6 s1 s2 s3 s4 s5 s6 : nat)
      (f g : nat -> nat -> nat -> nat -> nat -> nat -> F) :
  holds6 x a1 a2 a3 a4 a5 a6 f -> holds6 y b1 b2 b3 b4 b5 b6 g ->
  broadcast_shapes [a1; a2; a3; a4; a5; a6] [b1; b2; b3; b4; b5; b6]
  = Ok [s1; s2; s3; s4; s5; s6] ->
  Forall2 (fun u v => u = v \/ u = 1) [a1; a2; a3; a4; a5; a6]
          [s1; s2; s3; s4; s5; s6] ->
  Forall2 (fun u v => u = v \/ u = 1) [b1; b2; b3; b4; b5; b6]
          [s1; s2; s3; s4; s5; s6] ->
  exists z,
    binop op x y = Ok z
    /\ holds6 z s1 s2 s3 s4 s5 s6
         (fun i1 i2 i3 i4 i5 i6 =>
            op (f (if a1 =? 1 then 0 else i1) (if a2 =? 1 then 0 else i2)
                  (if a3 =? 1 then 0 else i3) (if a4 =? 1 then 0 else i4)
                  (if a5 =? 1 then 0 else i5) (if a6 =? 1 then 0 else i6))
               (g (if b1 =? 1 then 0 else i1) (if b2 =? 1 then 0 else i2)
                  (if b3 =? 1 then 0 else i3) (if b4 =? 1 then 0 else i4)
                  (if b5 =? 1 then 0 else i5) (if b6 =? 1 then 0 else i6))).
Proof.
  intros (Sx & Wx & Gx) (Sy & Wy & Gy) Hs Ha Hb.
  destruct (binop_get op x y [s1; s2; s3; s4; s5; s6])
    as (z & E & Sz & Wz & Gz); [now rewrite Sx, Sy|].
  exists z. split; [exact E|]. split; [exact Sz|]. split; [exact Wz|].
  intros i1 i2 i3 i4 i5 i6 H1 H2 H3 H4 H5 H6.
  rewrite Gz by range_tac. rewrite Sx, Sy.
  cbn [bidx map combine skipn length Nat.sub].
  inv_F2 Ha. inv_F2 Hb.
  rewrite Gx, Gy by solve [eauto using bsel_lt]. reflexivity.
Qed.

Lemma binop5 (op : F -> F -> F) (x y : tensor)
      (a1 a2 a3 a4 a5 b1 b2 b3 b4 b5 s1 s2 s3 s4 s5 : nat)
      (f g : nat -> nat -> nat -> nat -> nat -> F) :
  holds5 x a1 a2 a3 a4 a5 f -> holds5 y b1 b2 b3 b4 b5 g ->
  broadcast_shapes [a1; a2; a3; a4; a5] [b1; b2; b3; b4; b5]
  = Ok [s1; s2; s3; s4; s5] ->
  Forall2 (fun u v => u = v \/ u = 1) [a1; a2; a3; a4; a5]
          [s1; s2; s3; s4; s5] ->
  Forall2 (fun u v => u = v \/ u = 1) [b1; b2; b3; b4; b5]
          [s1; s2; s3; s4; s5] ->
  exists z,
    binop op x y = Ok z
    /\ holds5 z s1 s2 s3 s4 s5
         (fun i1 i2 i3 i4 i5 =>
            op (f (if a1 =? 1 then 0 else i1) (if a2 =? 1 then 0 else i2)
                  (if a3 =? 1 then 0 else i3) (if a4 =? 1 then 0 else i4)
                  (if a5 =? 1 then 0 else i5))
               (g (if b1 =? 1 then 0 else i1) (if b2 =? 1 then 0 else i2)
                  (if b3 =? 1 then 0 else i3) (if b4 =? 1 then 0 else i4)
                  (if b5 =? 1 then 0 else i5))).
Proof.
  intros (Sx & Wx & Gx) (Sy & Wy & Gy) Hs Ha Hb.
  destruct (binop_get op x y [s1; s2; s3; s4; s5])
    as (z & E & Sz & Wz & Gz); [now rewrite Sx, Sy|].
  exists z. split; [exact E|]. split; [exact Sz|]. split; [exact Wz|].
  intros i1 i2 i3 i4 i5 H1 H2 H3 H4 H5.
  rewrite Gz by range_tac. rewrite Sx, Sy.
  cbn [bidx map combine skipn length Nat.sub].
  inv_F2 Ha. inv_F2 Hb.
  rewrite Gx, Gy by solve [eauto using bsel_lt]. reflexivity.
Qed.

Lemma binop4 (op : F -> F -> F) (x y : tensor)
      (a1 a2 a3 a4 b1 b2 b3 b4 s1 s2 s3 s4 : nat)
      (f g : nat -> nat -> nat -> nat -> F) :
  holds4 x a1 a2 a3 a4 f -> holds4 y b1 b2 b3 b4 g ->
  broadcast_shapes [a1; a2; a3; a4] [b1; b2; b3; b4] = Ok [s1; s2; s3; s4] ->
  Forall2 (fun u v => u = v \/ u = 1) [a1; a2; a3; a4] [s1; s2; s3; s4] ->
  Forall2 (fun u v => u = v \/ u = 1) [b1; b2; b3; b4] [s1; s2; s3; s4] ->
  exists z,
    binop op x y = Ok z
    /\ holds4 z s1 s2 s3 s4
         (fun i1 i2 i3 i4 =>
            op (f (if a1 =? 1 then 0 else i1) (if a2 =? 1 then 0 else i2)
                  (if a3 =? 1 then 0 else i3) (if a4 =? 1 then 0 else i4))
               (g (if b1 =? 1 then 0 else i1) (if b2 =? 1 then 0 else i2)
                  (if b3 =? 1 then 0 else i3) (if b4 =? 1 then 0 else i4))).
Proof.
  intros (Sx & Wx & Gx) (Sy & Wy & Gy) Hs Ha Hb.
  destruct (binop_get op x y [s1; s2; s3; s4])
    as (z & E & Sz & Wz & Gz); [now rewrite Sx, Sy|].
  exists z. split; [exact E|]. split; [exact Sz|]. split; [exact Wz|].
  intros i1 i2 i3 i4 H1 H2 H3 H4.
  rewrite Gz by range_tac. rewrite Sx, Sy.
  cbn [bidx map combine skipn length Nat.sub].
  inv_F2 Ha. inv_F2 Hb.
  rewrite Gx, Gy by solve [eauto using bsel_lt]. reflexivity.
Qed.

Lemma map6 (op : F -> F) (x : tensor) (a b c d e g : nat)
      (f : nat -> nat -> nat -> nat -> nat -> nat -> F) :
  holds6 x a b c d e g f ->
  holds6 (map_tensor op x) a b c d e g
    (fun i1 i2 i3 i4 i5 i6 => op (f i1 i2 i3 i4 i5 i6)).
Proof.
  intros (Sx & Wx & Gx). split; [exact Sx|].
  split; [now apply well_formed_map_tensor|].
  intros. rewrite get_map_tensor; [|exact Wx|rewrite Sx; range_tac].
  now rewrite Gx.
Qed.

Lemma mT6 (x : tensor) (a b c d n m : nat)
      (f : nat -> nat -> nat -> nat -> nat -> nat -> F) :
  holds6 x a b c d n m f ->
  exists y,
    mT x = Ok y
    /\ holds6 y a b c d m n (fun i1 i2 i3 i4 i j => f i1 i2 i3 i4 j i).
Proof.
  intros (Sx & Wx & Gx).
  destruct (mT_get x [a; b; c; d] n m Sx) as (y & E & Sy & Wy & Gy).
  exists y. split; [exact E|]. split; [exact Sy|]. split; [exact Wy|].
  intros i1 i2 i3 i4 i j H1 H2 H3 H4 Hi Hj.
  rew_app (Gy [i1; i2; i3; i4] i j); [|range_tac|assumption..].
  now apply Gx.
Qed.

Lemma mT5 (x : tensor) (a b c n m : nat)
      (f : nat -> nat -> nat -> nat -> nat -> F) :
  holds5 x a b c n m f ->
  exists y,
    mT x = Ok y
    /\ holds5 y a b c m n (fun i1 i2 i3 i j => f i1 i2 i3 j i).
Proof.
  intros (Sx & Wx & Gx).
  destruct (mT_get x [a; b; c] n m Sx) as (y & E & Sy & Wy & Gy).
  exists y. split; [exact E|]. split; [exact Sy|]. split; [exact Wy|].
  intros i1 i2 i3 i j H1 H2 H3 Hi Hj.
  rew_app (Gy [i1; i2; i3] i j); [|range_tac|assumption..].
  now apply Gx.
Qed.

Lemma matmul6 (x y : tensor) (a b c d n m p : nat)
      (f g : nat -> nat -> nat -> nat -> nat -> nat -> F) :
  holds6 x a b c d n m f -> holds6 y a b c d m p g ->
  exists z,
    matmul x y = Ok z
    /\ holds6 z a b c d n p
         (fun i1 i2 i3 i4 i j =>
            bigsum (fun l => fmul (f i1 i2 i3 i4 i l) (g i1 i2 i3 i4 l j))
                   0 m).
Proof.
  intros (Sx & Wx & Gx) (Sy & Wy & Gy).
  destruct (matmul_get x y [a; b; c; d] [a; b; c; d] [a; b; c; d] n m p
              Sx Sy (broadcast_shapes_same _)) as (z & E & Sz & Wz & Gz).
  exists z. split; [exact E|]. split; [exact Sz|]. split; [exact Wz|].
  intros i1 i2 i3 i4 i j H1 H2 H3 H4 Hi Hj.
  rew_app (Gz [i1; i2; i3; i4] i j); [|range_tac|assumption..].
  apply bigsum_ext. intros l Hl.
  cbn [bidx map combine skipn length Nat.sub app]. sel_tac.
  rewrite Gx, Gy by (assumption || lia). reflexivity.
Qed.

Lemma matmul5 (x y : tensor) (a b c n m p : nat)
      (f g : nat -> nat -> nat -> nat -> nat -> F) :
  holds5 x a b c n m f -> holds5 y a b c m p g ->
  exists z,
    matmul x y = Ok z
    /\ holds5 z a b c n p
         (fun i1 i2 i3 i j =>
            bigsum (fun l => fmul (f i1 i2 i3 i l) (g i1 i2 i3 l j)) 0 m).
Proof.
  intros (Sx & Wx & Gx) (Sy & Wy & Gy).
  destruct (matmul_get x y [a; b; c] [a; b; c] [a; b; c] n m p
              Sx Sy (broadcast_shapes_same _)) as (z & E & Sz & Wz & Gz).
  exists z. split; [exact E|]. split; [exact Sz|]. split; [exact Wz|].
  intros i1 i2 i3 i j H1 H2 H3 Hi Hj.
  rew_app (Gz [i1; i2; i3] i j); [|range_tac|assumption..].
  apply bigsum_ext. intros l Hl.
  cbn [bidx map combine skipn length Nat.sub app]. sel_tac.
  rewrite Gx, Gy by (assumption || lia). reflexivity.
Qed.

Lemma tril6 (x : tensor) (a b c d n m : nat)
      (f : nat -> nat -> nat -> nat -> nat -> nat -> F) :
  holds6 x a b c d n m f ->
  exists y,
    tril_below x = Ok y
    /\ holds6 y a b c d n m
         (fun i1 i2 i3 i4 i j =>
            if j <? i then f i1 i2 i3 i4 i j else fzero).
Proof.
  intros (Sx & Wx & Gx).
  destruct (tril_below_get x [a; b; c; d] n m Sx) as (y & E & Sy & Wy & Gy).
  exists y. split; [exact E|]. split; [exact Sy|]. split; [exact Wy|].
  intros i1 i2 i3 i4 i j H1 H2 H3 H4 Hi Hj.
  rew_app (Gy [i1; i2; i3; i4] i j); [|range_tac|assumption..].
  now rewrite Gx.
Qed.

Lemma einsum6 (x y : tensor) (a b c d e g : nat)
      (f f' : nat -> nat -> nat -> nat -> nat -> nat -> F) :
  holds6 x a b c d e g f -> holds6 y a b c d e g f' ->
  exists z,
    einsum_bhnztk x y = Ok z
    /\ holds5 z a b c d e
         (fun i1 i2 i3 i4 i5 =>
            bigsum (fun l => fmul (f i1 i2 i3 i4 i5 l) (f' i1 i2 i3 i4 i5 l))
                   0 g).
Proof.
  intros (Sx & Wx & Gx) (Sy & Wy & Gy).
  destruct (einsum_get x y [a; b; c; d; e] g) as (z & E & Sz & Wz & Gz).
  { unfold rank. now rewrite Sx. }
  { unfold rank. now rewrite Sy. }
  { rewrite Sx, Sy. apply broadcast_shapes_same. }
  exists z. split; [exact E|]. split; [exact Sz|]. split; [exact Wz|].
  intros i1 i2 i3 i4 i5 H1 H2 H3 H4 H5.
  rewrite Gz by range_tac. apply bigsum_ext. intros l Hl.
  assert (Hl' : l < g) by lia.
  rewrite Sx, Sy. cbn [bidx map combine skipn length Nat.sub app]. sel_tac.
  rewrite Gx, Gy by (assumption || lia). reflexivity.
Qed.

Lemma diag_embed5 (x : tensor) (a b c d n : nat)
      (f : nat -> nat -> nat -> nat -> nat -> F) :
  holds5 x a b c d n f ->
  exists y,
    diag_embed x = Ok y
    /\ holds6 y a b c d n n
         (fun i1 i2 i3 i4 i j =>
            if i =? j then f i1 i2 i3 i4 i else fzero).
Proof.
  intros (Sx & Wx & Gx).
  destruct (diag_embed_get x [a; b; c; d] n Sx) as (y & E & Sy & Wy & Gy).
  exists y. split; [exact E|]. split; [exact Sy|]. split; [exact Wy|].
  intros i1 i2 i3 i4 i j H1 H2 H3 H4 Hi Hj.
  rew_app (Gy [i1; i2; i3; i4] i j); [|range_tac|assumption..].
  now rewrite Gx.
Qed.

Lemma slice6_axis2 (lo hi : option Z) (x : tensor) (a b c d e g st len : nat)
      (f : nat -> nat -> nat -> nat -> nat -> nat -> F) :
  holds6 x a b c d e g f ->
  slice_range e lo hi = (st, len) -> st + len <= e ->
  exists y,
    slice_axis 2 lo hi x = Ok y
    /\ holds6 y a b c d len g
         (fun i1 i2 i3 i4 i5 i6 => f i1 i2 i3 i4 (st + i5) i6).
Proof.
  intros (Sx & Wx & Gx) Hs Hle.
  destruct (slice_axis_get 2 lo hi x st len) as (y & E & Sy & Wy & Gy).
  { rank_tac. }
  { unfold rank. rewrite Sx. exact Hs. }
  unfold rank in Sy, Gy. rewrite Sx in Sy, Gy.
  cbn [length Nat.sub set_at firstn skipn app] in Sy, Gy.
  exists y. split; [exact E|]. split; [exact Sy|]. split; [exact Wy|].
  intros i1 i2 i3 i4 i5 i6 H1 H2 H3 H4 H5 H6.
  rewrite Gy by range_tac. cbn [nth firstn skipn app].
  apply Gx; assumption || lia.
Qed.

Lemma slice6_axis3 (lo hi : option Z) (x : tensor) (a b c d e g st len : nat)
      (f : nat -> nat -> nat -> nat -> nat -> nat -> F) :
  holds6 x a b c d e g f ->
  slice_range d lo hi = (st, len) -> st + len <= d ->
  exists y,
    slice_axis 3 lo hi x = Ok y
    /\ holds6 y a b c len e g
         (fun i1 i2 i3 i4 i5 i6 => f i1 i2 i3 (st + i4) i5 i6).
Proof.
  intros (Sx & Wx & Gx) Hs Hle.
  destruct (slice_axis_get 3 lo hi x st len) as (y & E & Sy & Wy & Gy).
  { rank_tac. }
  { unfold rank. rewrite Sx. exact Hs. }
  unfold rank in Sy, Gy. rewrite Sx in Sy, Gy.
  cbn [length Nat.sub set_at firstn skipn app] in Sy, Gy.
  exists y. split; [exact E|]. split; [exact Sy|]. split; [exact Wy|].
  intros i1 i2 i3 i4 i5 i6 H1 H2 H3 H4 H5 H6.
  rewrite Gy by range_tac. cbn [nth firstn skipn app].
  apply Gx; assumption || lia.
Qed.

Lemma setitem_second_half (t x : tensor) (a b c e g : nat)
      (f f' : nat -> nat -> nat -> nat -> nat -> nat -> F) :
  holds6 t a b c 2 e g f -> holds6 x a b c 1 e g f' ->
  exists y,
    setitem_axis 3 (Some 1%Z) (Some 2%Z) t x = Ok y
    /\ holds6 y a b c 2 e g
         (fun i1 i2 i3 z i5 i6 =>
            if z =? 1 then f' i1 i2 i3 0 i5 i6 else f i1 i2 i3 z i5 i6).
Proof.
  intros (St & Wt & Gt) (Sx & Wx & Gx).
  destruct (setitem_axis_get 3 (Some 1%Z) (Some 2%Z) t x 1 1)
    as (y & E & Sy & Wy & Gy).
  { rank_tac. }
  { unfold rank. rewrite St. reflexivity. }
  { unfold rank. rewrite St, Sx. reflexivity. }
  unfold rank in Gy. rewrite St in Sy, Gy. rewrite Sx in Gy.
  cbn [length Nat.sub] in Gy.
  exists y. split; [exact E|]. split; [exact Sy|]. split; [exact Wy|].
  intros i1 i2 i3 z i5 i6 H1 H2 H3 H4 H5 H6.
  rewrite Gy by range_tac.
  cbn [nth set_at firstn skipn app bidx map combine length Nat.sub Nat.eqb].
  sel_tac.
  destruct z as [|[|z]]; [| |lia].
  - cbn [Nat.leb Nat.ltb andb Nat.eqb]. now apply Gt.
  - cbn [Nat.leb Nat.ltb andb Nat.eqb Nat.add]. apply Gx; assumption || lia.
Qed.

Lemma unbind5 (x : tensor) (a b c d e : nat)
      (f : nat -> nat -> nat -> nat -> nat -> F) :
  holds5 x a b c d e f ->
  exists l,
    unbind 3 x = Ok l /\ length l = c
    /\ forall n dflt, n < c ->
         holds4 (nth n l dflt) a b d e (fun i1 i2 i4 i5 => f i1 i2 n i4 i5).
Proof.
  intros (Sx & Wx & Gx).
  destruct (unbind_nth 3 x) as (l & E & Ll & Gl); [rank_tac|].
  unfold rank in Ll, Gl. rewrite Sx in Ll, Gl.
  cbn [length Nat.sub nth remove_at insert_at firstn skipn app] in Ll, Gl.
  exists l. split; [exact E|]. split; [exact Ll|].
  intros n dflt Hn. rewrite Gl by exact Hn.
  split; [reflexivity|]. split; [apply well_formed_tabulate|].
  intros i1 i2 i4 i5 H1 H2 H4 H5.
  rewrite get_tabulate by range_tac. cbn [firstn skipn app].
  now apply Gx.
Qed.

Lemma stack4 (ts : list tensor) (dflt : tensor) (a b d e : nat)
      (f : nat -> nat -> nat -> nat -> nat -> F) :
  ts <> [] ->
  (forall n, n < length ts ->
     holds4 (nth n ts dflt) a b d e (fun i1 i2 i4 i5 => f i1 i2 n i4 i5)) ->
  exists y,
    stack 2 ts = Ok y /\ holds5 y a b (length ts) d e f.
Proof.
  intros Hne Hall. unfold stack.
  destruct ts as [|t0 ts']; [congruence|]. clear Hne.
  set (ts := t0 :: ts') in *.
  assert (S0 : shape t0 = [a; b; d; e]).
  { apply (holds4_shape (Hall 0 (Nat.lt_0_succ _))). }
  assert (Hf : forallb (fun t => list_eqb (shape t) (shape t0)) ts = true).
  { apply forallb_forall. intros t Hin.
    destruct (In_nth _ _ dflt Hin) as (n & Hn & <-).
    rewrite (holds4_shape (Hall n Hn)), S0.
    apply list_eqb_refl. }
  rewrite Hf. unfold rank. rewrite S0. cbn [length Nat.leb].
  eexists. split; [reflexivity|].
  cbn [insert_at firstn skipn app].
  split; [reflexivity|]. split; [apply well_formed_tabulate|].
  intros i1 i2 n i4 i5 H1 H2 Hn H4 H5.
  rewrite get_tabulate by range_tac.
  cbn [nth remove_at firstn skipn app].
  rewrite (nth_indep ts t0 dflt Hn).
  destruct (Hall n Hn) as (_ & _ & G). now apply G.
Qed.

(** *** Attention inside the chunks (rwkv_inner.py, lines 85-110) *)

Lemma quarter_range (h2 : nat) :
  0 < h2 ->
  slice_range h2 (Some (zz (h2 + h2) / 4)%Z) (Some (zz (h2 + h2) / 4 + 1)%Z)
  = (Z.to_nat (zz (h2 + h2) / 4), 1)
  /\ Z.to_nat (zz (h2 + h2) / 4) < h2.
Proof.
  intros Hh.
  assert (Hq : (0 <= zz (h2 + h2) / 4 < zz h2)%Z).
  { split; [apply Z.div_pos; lia|].
    apply Z.div_lt_upper_bound; lia. }
  split; [|lia].
  rewrite <- (Z2Nat.id (zz (h2 + h2) / 4)) at 1 2 by lia.
  apply slice_range_one. lia.
Qed.

Lemma view_bonus (u5 : tensor) (H K : nat) (uf : nat -> nat -> F) :
  holds5 u5 1 H 1 1 K (fun _ h _ _ i => uf h i) ->
  exists uu,
    view [1%Z; zz H; 1%Z; 1%Z; 1%Z; zz K] u5 = Ok uu
    /\ holds6 uu 1 H 1 1 1 K (fun _ h _ _ _ i => uf h i).
Proof.
  intros (Sx & Wx & Gx).
  destruct (view_spec [1%Z; zz H; 1%Z; 1%Z; 1%Z; zz K] u5)
    as (y & -> & Sy & Wy & Dy).
  { repeat (apply Forall_cons; [lia|]). apply Forall_nil. }
  { cbn [map]. rewrite Sx, !Nat2Z.id. change (Z.to_nat 1) with 1.
    cbn [numel fold_right]. ring. }
  { exact Wx. }
  cbn [map] in Sy. rewrite !Nat2Z.id in Sy. change (Z.to_nat 1) with 1 in Sy.
  exists y. split; [reflexivity|]. split; [exact Sy|]. split; [exact Wy|].
  intros i1 h i3 i4 i5 i H1 H2 H3 H4 H5 H6.
  rewrite (get_reshape y u5 _ [i1; h; i3; i4; i] Dy).
  - now apply Gx.
  - rewrite Sy, Sx. cbn [ravel numel fold_right].
    assert (i5 = 0) by lia. subst i5. ring.
Qed.

Lemma binop6_l (op : F -> F -> F) (x y : tensor)
      (a1 a2 a3 a4 a5 a6 b1 b2 b3 b4 b5 b6 : nat)
      (f g : nat -> nat -> nat -> nat -> nat -> nat -> F) :
  holds6 x a1 a2 a3 a4 a5 a6 f -> holds6 y b1 b2 b3 b4 b5 b6 g ->
  Forall2 (fun u v => u = v \/ u = 1) [b1; b2; b3; b4; b5; b6]
          [a1; a2; a3; a4; a5; a6] ->
  exists z,
    binop op x y = Ok z
    /\ holds6 z a1 a2 a3 a4 a5 a6
         (fun i1 i2 i3 i4 i5 i6 =>
            op (f i1 i2 i3 i4 i5 i6)
               (g (if b1 =? 1 then 0 else i1) (if b2 =? 1 then 0 else i2) (if b3 =? 1 then 0 else i3) (if b4 =? 1 then 0 else i4) (if b5 =? 1 then 0 else i5) (if b6 =? 1 then 0 else i6))).
Proof.
  intros Hx Hy Hb.
  destruct (binop6 op Hx Hy (s1 := a1) (s2 := a2) (s3 := a3) (s4 := a4) (s5 := a5) (s6 := a6)) as (z & E & Hz).
  { apply broadcast_shapes_from. inv_F2 Hb. shape_tac. }
  { shape_tac. }
  { exact Hb. }
  exists z. split; [exact E|].
  apply (holds6_ext _ Hz). intros i1 i2 i3 i4 i5 i6 H1 H2 H3 H4 H5 H6.
  sel_tac. reflexivity.
Qed.

Lemma binop6_r (op : F -> F -> F) (x y : tensor)
      (a1 a2 a3 a4 a5 a6 b1 b2 b3 b4 b5 b6 : nat)
      (f g : nat -> nat -> nat -> nat -> nat -> nat -> F) :
  holds6 x a1 a2 a3 a4 a5 a6 f -> holds6 y b1 b2 b3 b4 b5 b6 g ->
  Forall2 (fun u v => u = v \/ u = 1) [a1; a2; a3; a4; a5; a6]
          [b1; b2; b3; b4; b5; b6] ->
  exists z,
    binop op x y = Ok z
    /\ holds6 z b1 b2 b3 b4 b5 b6
         (fun i1 i2 i3 i4 i5 i6 =>
            op (f (if a1 =? 1 then 0 else i1) (if a2 =? 1 then 0 else i2) (if a3 =? 1 then 0 else i3) (if a4 =? 1 then 0 else i4) (if a5 =? 1 then 0 else i5) (if a6 =? 1 then 0 else i6))
               (g i1 i2 i3 i4 i5 i6)).
Proof.
  intros Hx Hy Ha.
  destruct (binop6 op Hx Hy (s1 := b1) (s2 := b2) (s3 := b3) (s4 := b4) (s5 := b5) (s6 := b6)) as (z & E & Hz).
  { apply broadcast_shapes_into. exact Ha. }
  { exact Ha. }
  { shape_tac. }
  exists z. split; [exact E|].
  apply (holds6_ext _ Hz). intros i1 i2 i3 i4 i5 i6 H1 H2 H3 H4 H5 H6.
  sel_tac. reflexivity.
Qed.

Lemma binop5_l (op : F -> F -> F) (x y : tensor)
      (a1 a2 a3 a4 a5 b1 b2 b3 b4 b5 : nat)
      (f g : nat -> nat -> nat -> nat -> nat -> F) :
  holds5 x a1 a2 a3 a4 a5 f -> holds5 y b1 b2 b3 b4 b5 g ->
  Forall2 (fun u v => u = v \/ u = 1) [b1; b2; b3; b4; b5]
          [a1; a2; a3; a4; a5] ->
  exists z,
    binop op x y = Ok z
    /\ holds5 z a1 a2 a3 a4 a5
         (fun i1 i2 i3 i4 i5 =>
            op (f i1 i2 i3 i4 i5)
               (g (if b1 =? 1 then 0 else i1) (if b2 =? 1 then 0 else i2) (if b3 =? 1 then 0 else i3) (if b4 =? 1 then 0 else i4) (if b5 =? 1 then 0 else i5))).
Proof.
  intros Hx Hy Hb.
  destruct (binop5 op Hx Hy (s1 := a1) (s2 := a2) (s3 := a3) (s4 := a4) (s5 := a5)) as (z & E & Hz).
  { apply broadcast_shapes_from. inv_F2 Hb. shape_tac. }
  { shape_tac. }
  { exact Hb. }
  exists z. split; [exact E|].
  apply (holds5_ext _ Hz). intros i1 i2 i3 i4 i5 H1 H2 H3 H4 H5.
  sel_tac. reflexivity.
Qed.

Lemma binop4_l (op : F -> F -> F) (x y : tensor)
      (a1 a2 a3 a4 b1 b2 b3 b4 : nat)
      (f g : nat -> nat -> nat -> nat -> F) :
  holds4 x a1 a2 a3 a4 f -> holds4 y b1 b2 b3 b4 g ->
  Forall2 (fun u v => u = v \/ u = 1) [b1; b2; b3; b4]
          [a1; a2; a3; a4] ->
  exists z,
    binop op x y = Ok z
    /\ holds4 z a1 a2 a3 a4
         (fun i1 i2 i3 i4 =>
            op (f i1 i2 i3 i4)
               (g (if b1 =? 1 then 0 else i1) (if b2 =? 1 then 0 else i2) (if b3 =? 1 then 0 else i3) (if b4 =? 1 then 0 else i4))).
Proof.
  intros Hx Hy Hb.
  destruct (binop4 op Hx Hy (s1 := a1) (s2 := a2) (s3 := a3) (s4 := a4)) as (z & E & Hz).
  { apply broadcast_shapes_from. inv_F2 Hb. shape_tac. }
  { shape_tac. }
  { exact Hb. }
  exists z. split; [exact E|].
  apply (holds4_ext _ Hz). intros i1 i2 i3 i4 H1 H2 H3 H4.
  sel_tac. reflexivity.
Qed.

Lemma slice6_one_axis2 (lo hi : option Z) (x : tensor) (a b c d e g st : nat)
      (f : nat -> nat -> nat -> nat -> nat -> nat -> F) :
  holds6 x a b c d e g f ->
  slice_range e lo hi = (st, 1) -> st < e ->
  exists y,
    slice_axis 2 lo hi x = Ok y
    /\ holds6 y a b c d 1 g (fun i1 i2 i3 i4 _ i6 => f i1 i2 i3 i4 st i6).
Proof.
  intros Hx Hs Hle.
  destruct (slice6_axis2 Hx Hs) as (y & E & Hy); [lia|].
  exists y. split; [exact E|]. apply (holds6_ext _ Hy).
  intros i1 i2 i3 i4 i5 i6 H1 H2 H3 H4 H5 H6.
  assert (i5 = 0) by lia. subst i5. now rewrite Nat.add_0_r.
Qed.

Lemma slice6_one_axis3 (lo hi : option Z) (x : tensor) (a b c d e g st : nat)
      (f : nat -> nat -> nat -> nat -> nat -> nat -> F) :
  holds6 x a b c d e g f ->
  slice_range d lo hi = (st, 1) -> st < d ->
  exists y,
    slice_axis 3 lo hi x = Ok y
    /\ holds6 y a b c 1 e g (fun i1 i2 i3 _ i5 i6 => f i1 i2 i3 st i5 i6).
Proof.
  intros Hx Hs Hle.
  destruct (slice6_axis3 Hx Hs) as (y & E & Hy); [lia|].
  exists y. split; [exact E|]. apply (holds6_ext _ Hy).
  intros i1 i2 i3 i4 i5 i6 H1 H2 H3 H4 H5 H6.
  assert (i4 = 0) by lia. subst i4. now rewrite Nat.add_0_r.
Qed.

Section IntraChunk.
Variables (B Bw H K V Nn h2 : nat).
Variable d : decays (F := F).
Variables r5 k5 v5 u5 : tensor.
Variable p : dtype.
Variables (rf kf vf lw : nat -> nat -> nat -> nat -> F).
Variable uf : nat -> nat -> F.
Hypothesis HBw : Bw = B \/ Bw = 1.
Hypothesis Hh : 0 < h2.
Hypothesis Hd : batch_w d = Bw.
Hypothesis Hcum :
  holds5 (wc_log_cum d) Bw H Nn (h2 + h2) K
    (fun b h n t i => cum (lw b h) (n * (h2 + h2)) t i).
Hypothesis Hsh :
  holds5 (shifted_wc_log_cum d) Bw H Nn (h2 + h2) K
    (fun b h n t i => shifted (lw b h) (n * (h2 + h2)) t i).
Hypothesis Hr5 :
  holds5 r5 B H Nn (h2 + h2) K (fun b h n t i => rf b h (n * (h2 + h2) + t) i).
Hypothesis Hk5 :
  holds5 k5 B H Nn (h2 + h2) K (fun b h n t i => kf b h (n * (h2 + h2) + t) i).
Hypothesis Hv5 :
  holds5 v5 B H Nn (h2 + h2) V (fun b h n t j => vf b h (n * (h2 + h2) + t) j).
Hypothesis Hu5 : holds5 u5 1 H 1 1 K (fun _ h _ _ i => uf h i).

Local Abbreviation q := (Z.to_nat (zz (h2 + h2) / 4)).
Local Abbreviation lwb := (fun b h => lw (if Bw =? 1 then 0 else b) h).

Ltac clean6 H :=
  eapply holds6_ext in H; [|intros; cbn [Nat.eqb]; sel_tac; reflexivity].

Lemma intra_chunk_spec :
  exists out,
    intra_chunk B H K V (zz Nn) (zz (h2 + h2)) d r5 k5 v5 u5 p = Ok out
    /\ holds5 out B H Nn (h2 + h2) V
         (fun b h n t j =>
            Ointra K h2 q (rf b h) (kf b h) (vf b h) (lwb b h) (uf h)
                   (n * (h2 + h2)) (t / h2) (t mod h2) j).
Proof.
  unfold intra_chunk. cbv zeta. rewrite Hd. unfold sub, mul, add.
  destruct (quarter_range Hh) as (Hq & Hq').
  destruct (view_halves h2 Hcum) as (cum6 & -> & Hcum6).
  destruct (view_halves h2 Hsh) as (sh6 & -> & Hsh6).
  cbn [bind].
  destruct (slice6_one_axis2 Hsh6 Hq Hq') as (offt & -> & Hoff).
  cbn [bind].
  assert (Hoff' : holds6 offt Bw H Nn 2 1 K
                    (fun b h n z _ i =>
                       off h2 q (lw b h) (n * (h2 + h2)) z i)) by exact Hoff.
  clear Hoff.
  destruct (view_bonus uf Hu5) as (uu & -> & Huu). cbn [bind].
  (* decays inside a half-chunk *)
  destruct (binop6_l fsub Hsh6 Hoff') as (rl & -> & Hrl); [shape_tac|].
  cbn [bind].
  destruct (binop6_r fsub Hoff' Hcum6) as (kl & -> & Hkl); [shape_tac|].
  cbn [bind]. rewrite !to_id.
  pose proof (map6 fexp Hrl) as Hrdec. fold (exp rl) in Hrdec.
  pose proof (map6 fexp Hkl) as Hkdec. fold (exp kl) in Hkdec.
  apply (holds6_ext (fun b h n z t i => rd h2 q (lw b h) (n * (h2 + h2)) z t i))
    in Hrdec.
  2:{ intros. cbn [Nat.eqb]. sel_tac. reflexivity. }
  apply (holds6_ext (fun b h n z t i => kd h2 q (lw b h) (n * (h2 + h2)) z t i))
    in Hkdec.
  2:{ intros. cbn [Nat.eqb]. sel_tac. reflexivity. }
  destruct (view_halves h2 Hr5) as (rr & -> & Hrr).
  destruct (view_halves h2 Hk5) as (kk & -> & Hkk).
  destruct (view_halves h2 Hv5) as (vv & -> & Hvv).
  cbn [bind].
  (* attention inside a half-chunk *)
  destruct (binop6_l fmul Hrr Hrdec) as (rdt & -> & Hrdt); [shape_tac|].
  cbn [bind]. clean6 Hrdt.
  destruct (binop6_l fmul Hkk Hkdec) as (kdt & -> & Hkdt); [shape_tac|].
  cbn [bind]. clean6 Hkdt.
  destruct (mT6 Hkdt) as (kdT & -> & HkdT). cbn [bind].
  destruct (matmul6 Hrdt HkdT) as (a & -> & Ha). cbn [bind]. rewrite to_id.
  destruct (tril6 Ha) as (a0 & -> & Ha0). cbn [bind].
  destruct (binop6_r fmul Huu Hkk) as (ukk & -> & Hukk); [shape_tac|].
  cbn [bind]. clean6 Hukk.
  destruct (einsum6 Hrr Hukk) as (dg & -> & Hdg). cbn [bind].
  destruct (diag_embed5 Hdg) as (dg0 & -> & Hdg0). cbn [bind].
  destruct (binop6_l fadd Ha0 Hdg0) as (a1 & -> & Ha1); [shape_tac|].
  cbn [bind]. clean6 Ha1.
  destruct (matmul6 Ha1 Hvv) as (out0 & -> & Hout0). cbn [bind].
  assert (Hout0' :
            holds6 out0 B H Nn 2 h2 V
              (fun b h n z t j =>
                 O1 K h2 q (rf b h) (kf b h) (vf b h) (lwb b h) (uf h)
                    (n * (h2 + h2)) z t j)) by exact Hout0.
  clear Hout0.
  (* attention of the second half-chunk to the first *)
  assert (R12 : slice_range 2 (Some 1%Z) (Some 2%Z) = (1, 1)) by reflexivity.
  assert (R01 : slice_range 2 (Some 0%Z) (Some 1%Z) = (0, 1)) by reflexivity.
  destruct (slice6_one_axis3 Hrr R12) as (rr1 & -> & Hrr1); [lia|].
  cbn [bind].
  destruct (slice6_one_axis3 Hrdec R12) as (rdec1 & -> & Hrdec1); [lia|].
  cbn [bind].
  destruct (slice6_one_axis3 Hkk R01) as (kk0 & -> & Hkk0); [lia|].
  cbn [bind].
  destruct (slice6_one_axis3 Hoff' R12) as (off1 & -> & Hoff1); [lia|].
  cbn [bind].
  destruct (slice6_one_axis3 Hcum6 R01) as (cum0 & -> & Hcum0); [lia|].
  cbn [bind].
  destruct (binop6_r fsub Hoff1 Hcum0) as (kl2 & -> & Hkl2); [shape_tac|].
  cbn [bind]. clean6 Hkl2. rewrite to_id.
  pose proof (map6 fexp Hkl2) as Hkdec2. fold (exp kl2) in Hkdec2.
  destruct (slice6_one_axis3 Hvv R01) as (vv0 & -> & Hvv0); [lia|].
  cbn [bind].
  destruct (slice6_one_axis3 Hout0' R12) as (out1 & -> & Hout1); [lia|].
  cbn [bind].
  destruct (binop6_l fmul Hrr1 Hrdec1) as (rd1 & -> & Hrd1); [shape_tac|].
  cbn [bind]. clean6 Hrd1.
  destruct (binop6_l fmul Hkk0 Hkdec2) as (kd1 & -> & Hkd1); [shape_tac|].
  cbn [bind]. clean6 Hkd1.
  destruct (mT6 Hkd1) as (kdT1 & -> & HkdT1). cbn [bind].
  destruct (matmul6 Hrd1 HkdT1) as (cr0 & -> & Hcr0). cbn [bind].
  rewrite to_id.
  destruct (matmul6 Hcr0 Hvv0) as (cr1 & -> & Hcr1). cbn [bind].
  apply (holds6_ext
           (fun b h n (_ : nat) t j =>
              cross K h2 q (rf b h) (kf b h) (vf b h) (lwb b h)
                    (n * (h2 + h2)) t j)) in Hcr1.
  2:{ intros. unfold cross, Xc, kd2. apply bigsum_ext. intros s Hs.
      f_equal. apply bigsum_ext. intros l Hl.
      now rewrite Nat.mul_1_l. }
  destruct (binop6_l fadd Hout1 Hcr1) as (out2 & -> & Hout2); [shape_tac|].
  cbn [bind]. clean6 Hout2.
  destruct (setitem_second_half Hout0' Hout2) as (out3 & -> & Hout3).
  cbn [bind].
  destruct (view_whole_chunks Hout3 Hh) as (out & -> & Hout).
  exists out. split; [reflexivity|]. exact Hout.
Qed.

End IntraChunk.

(** *** The states between the chunks (rwkv_inner.py, lines 113-124) *)

Lemma list_item_nth (l : list tensor) (i : nat) (dflt : tensor) :
  i < length l -> list_item l i = Ok (nth i l dflt).
Proof.
  intros Hi. unfold list_item. now rewrite (nth_error_nth' l dflt Hi).
Qed.

Section ChunkStates.
Variables (B Bw H K V Nn h2 : nat).
Variable d : decays (F := F).
Variables k5 v5 s dflt : tensor.
Variables (kf vf lw sf : nat -> nat -> nat -> nat -> F).
Hypothesis HBw : Bw = B \/ Bw = 1.
Hypothesis HN : 0 < Nn.
Hypothesis Hlen : length (ws d) = Nn.
Hypothesis Hws :
  forall n, n < Nn ->
    holds4 (nth n (ws d) dflt) Bw H K 1
      (fun b h i _ => fexp (wslog h2 (lw b h) (n * (h2 + h2)) i)).
Hypothesis Hinter :
  holds5 (w_inter d) Bw H Nn (h2 + h2) K
    (fun b h n t i => winter h2 (lw b h) (n * (h2 + h2)) t i).
Hypothesis Hk5 :
  holds5 k5 B H Nn (h2 + h2) K (fun b h n t i => kf b h (n * (h2 + h2) + t) i).
Hypothesis Hv5 :
  holds5 v5 B H Nn (h2 + h2) V (fun b h n t j => vf b h (n * (h2 + h2) + t) j).
Hypothesis Hs : holds4 s B H K V sf.

Local Abbreviation lwb := (fun b h => lw (if Bw =? 1 then 0 else b) h).
Local Abbreviation state_fn :=
  (fun n b h i j => Schunk h2 (kf b h) (vf b h) (lwb b h) (sf b h) n i j).

Ltac clean5 H :=
  eapply holds5_ext in H; [|intros; cbn [Nat.eqb]; sel_tac; reflexivity].
Ltac clean4 H :=
  eapply holds4_ext in H; [|intros; cbn [Nat.eqb]; sel_tac; reflexivity].

Lemma scan_loop (wl : list tensor) :
  length wl = Nn ->
  (forall n, n < Nn ->
     holds4 (nth n wl dflt) B H K V
       (fun b h i j =>
          wkv h2 (kf b h) (vf b h) (lwb b h) (n * (h2 + h2)) i j)) ->
  forall n a states st,
    a + n <= Nn -> length states = a ->
    (forall m, m < a -> holds4 (nth m states dflt) B H K V (state_fn m)) ->
    holds4 st B H K V (state_fn a) ->
    exists states' st',
      for_each (scan_step (ws d) wl) (seq a n) (states, st)
      = Ok (states', st')
      /\ length states' = a + n
      /\ (forall m, m < a + n ->
            holds4 (nth m states' dflt) B H K V (state_fn m))
      /\ holds4 st' B H K V (state_fn (a + n)).
Proof.
  intros Lwl Hwl. induction n as [|n IH]; intros a states st Hle Hl Hst Hcur.
  - exists states, st. rewrite Nat.add_0_r. cbn [seq for_each].
    split; [reflexivity|]. split; [exact Hl|]. split; [exact Hst|exact Hcur].
  - cbn [seq for_each]. unfold scan_step at 1. unfold mul, add.
    rewrite (@list_item_nth (ws d) a dflt) by lia. cbn [bind].
    destruct (binop4_l fmul Hcur (@Hws a ltac:(lia))) as (dec & -> & Hdec);
      [shape_tac|].
    cbn [bind]. clean4 Hdec.
    rewrite (@list_item_nth wl a dflt) by lia. cbn [bind].
    destruct (binop4_l fadd Hdec (@Hwl a ltac:(lia))) as (st1 & -> & Hst1);
      [shape_tac|].
    cbn [bind]. clean4 Hst1.
    destruct (IH (S a) (states ++ [st]) st1) as (states' & st' & E & R1 & R2 & R3).
    + lia.
    + rewrite length_app. cbn [length]. lia.
    + intros m Hm. destruct (Nat.eq_dec m a) as [->|Hne].
      * rewrite app_nth2 by lia. rewrite Hl, Nat.sub_diag. exact Hcur.
      * rewrite app_nth1 by lia. apply Hst. lia.
    + exact Hst1.
    + exists states', st'. replace (a + S n) with (S a + n) by lia.
      split; [exact E|]. split; [exact R1|]. split; [exact R2|exact R3].
Qed.

Lemma chunk_states_spec :
  exists states s',
    chunk_states (zz Nn) d k5 v5 s = Ok (states, s')
    /\ holds5 states B H Nn K V (fun b h n i j => state_fn n b h i j)
    /\ holds4 s' B H K V (state_fn Nn).
Proof.
  unfold chunk_states, mul.
  destruct (binop5_l fmul Hk5 Hinter) as (kw & -> & Hkw); [shape_tac|].
  cbn [bind]. clean5 Hkw.
  destruct (mT5 Hkw) as (kwT & -> & HkwT). cbn [bind].
  destruct (matmul5 HkwT Hv5) as (wkvt & -> & Hwkv). cbn [bind].
  destruct (unbind5 Hwkv) as (wl & -> & Lwl & Hwl). cbn [bind].
  rewrite Nat2Z.id.
  destruct (@scan_loop wl Lwl (fun n Hn => Hwl n dflt Hn) Nn 0 [] s)
    as (states & s' & -> & Ls & Hstates & Hs').
  { lia. }
  { reflexivity. }
  { intros m Hm. lia. }
  { exact Hs. }
  cbn [bind].
  destruct (@stack4 states dflt B H K V
              (fun b h n i j => state_fn n b h i j))
    as (st & -> & Hst).
  { intros ->. cbn [length] in Ls. lia. }
  { intros n Hn. apply Hstates. lia. }
  cbn [bind]. exists st, s'. split; [reflexivity|].
  rewrite Ls in Hst. split; [exact Hst|exact Hs'].
Qed.

End ChunkStates.

(** *** The whole chunked engine (rwkv_inner.py, lines 28-129) *)

Lemma effective_chunk_len_exact (Nn Tn : nat) :
  0 < Tn -> effective_chunk_len (Nn * Tn) (zz Tn) = Ok (zz Tn).
Proof.
  intros HT. unfold effective_chunk_len.
  replace (zz Tn =? 0)%Z with false by (symmetry; apply Z.eqb_neq; lia).
  rewrite Nat2Z.inj_mul, Z.mod_mul by lia. reflexivity.
Qed.

Lemma unsqueeze_bonus (u : tensor) (H K : nat) (uf : nat -> nat -> F) :
  holds4 u 1 H 1 K (fun _ h _ i => uf h i) ->
  exists u5,
    unsqueeze 2 u = Ok u5
    /\ holds5 u5 1 H 1 1 K (fun _ h _ _ i => uf h i).
Proof.
  intros (Su & Wu & Gu). unfold unsqueeze, rank. rewrite Su.
  cbn [length Nat.leb insert_at firstn skipn app].
  eexists. split; [reflexivity|]. split; [reflexivity|].
  split; [unfold well_formed in *; cbn [shape data]; rewrite Wu, Su;
          cbn [numel fold_right]; ring|].
  intros i1 h i3 i4 i H1 H2 H3 H4 H5.
  rewrite (get_reshape (mkTensor [1; H; 1; 1; K] (data u)) u _
             [i1; h; i3; i] eq_refl).
  - now apply Gu.
  - cbn [shape]. rewrite Su. cbn [ravel numel fold_right].
    assert (i4 = 0) by lia. subst i4. ring.
Qed.

Section Chunked.
Variables (B Bw H L K V Nn h2 : nat).
Variables r k v w u s : tensor.
Variable p : dtype.
Variable m : Q.
Variables (rf kf vf lw sf : nat -> nat -> nat -> nat -> F).
Variable uf : nat -> nat -> F.
Hypothesis HBw : Bw = B \/ Bw = 1.
Hypothesis Hh : 0 < h2.
Hypothesis HN : 0 < Nn.
Hypothesis HL : L = Nn * (h2 + h2).
Hypothesis Hp : precision_min_val p = Ok m.
Hypothesis Hr : holds4 r B H L K rf.
Hypothesis Hk : holds4 k B H L K kf.
Hypothesis Hv : holds4 v B H L V vf.
Hypothesis Hu : holds4 u 1 H 1 K (fun _ h _ i => uf h i).
Hypothesis Hs : holds4 s B H K V sf.
Hypothesis Sw : shape w = [Bw; H; L; K].
Hypothesis Ww : well_formed w.
Hypothesis Hlw :
  forall b h t i, b < Bw -> h < H -> t < L -> i < K ->
    flog (fmax (get w [b; h; t; i]) (fconst m)) = lw b h t i.

Local Abbreviation q := (Z.to_nat (zz (h2 + h2) / 4)).
Local Abbreviation lwb := (fun b h => lw (if Bw =? 1 then 0 else b) h).
Local Abbreviation state_fn :=
  (fun n b h i j => Schunk h2 (kf b h) (vf b h) (lwb b h) (sf b h) n i j).

Ltac clean5 H :=
  eapply holds5_ext in H; [|intros; cbn [Nat.eqb]; sel_tac; reflexivity].

Lemma chunked_spec :
  exists out s',
    chunked B H L K V r k v w u s (zz (h2 + h2)) p = Ok (out, s')
    /\ holds4 out B H L V
         (fun b h t j =>
            Ochunk K h2 q (rf b h) (kf b h) (vf b h) (lwb b h) (uf h)
                   (t / (h2 + h2) * (h2 + h2))
                   (state_fn (t / (h2 + h2)) b h)
                   (t mod (h2 + h2) / h2) (t mod (h2 + h2) mod h2) j)
    /\ holds4 s' B H K V (state_fn Nn).
Proof.
  unfold chunked.
  assert (ET : effective_chunk_len L (zz (h2 + h2)) = Ok (zz (h2 + h2))).
  { rewrite HL. apply effective_chunk_len_exact. lia. }
  rewrite ET. cbn [bind].
  replace (zz L / zz (h2 + h2))%Z with (zz Nn)
    by (rewrite HL, Nat2Z.inj_mul, Z.div_mul; lia).
  destruct (@log_space_decay_spec w s Bw H L K Nn h2 p m lw Sw Ww HL Hh Hp Hlw)
    as (d & -> & Hd & Hcum & Hsh & Hinter & Hintra & Lws & Hws).
  cbn [bind].
  destruct (view_chunks Nn (h2 + h2) Hr HL) as (r5 & -> & Hr5).
  destruct (view_chunks Nn (h2 + h2) Hk HL) as (k5 & -> & Hk5).
  destruct (view_chunks Nn (h2 + h2) Hv HL) as (v5 & -> & Hv5).
  cbn [bind].
  destruct (unsqueeze_bonus uf Hu) as (u5 & -> & Hu5). cbn [bind].
  rewrite to_id.
  destruct (@intra_chunk_spec B Bw H K V Nn h2 d r5 k5 v5 u5 p rf kf vf lw uf
              HBw Hh Hd Hcum Hsh Hr5 Hk5 Hv5 Hu5) as (oi & -> & Hoi).
  cbn [bind].
  destruct (@chunk_states_spec B Bw H K V Nn h2 d k5 v5 s s kf vf lw sf
              HBw HN Lws Hws Hinter Hk5 Hv5 Hs)
    as (states & s' & -> & Hstates & Hs').
  cbn [bind]. unfold mul, add.
  destruct (binop5_l fmul Hr5 Hintra) as (rw & -> & Hrw); [shape_tac|].
  cbn [bind]. clean5 Hrw.
  destruct (matmul5 Hrw Hstates) as (fs & -> & Hfs). cbn [bind].
  destruct (binop5_l fadd Hoi Hfs) as (o5 & -> & Ho5); [shape_tac|].
  cbn [bind]. clean5 Ho5.
  apply (holds5_ext
           (fun b h n t j =>
              Ochunk K h2 q (rf b h) (kf b h) (vf b h) (lwb b h) (uf h)
                     (n * (h2 + h2)) (state_fn n b h)
                     (t / h2) (t mod h2) j)) in Ho5.
  2:{ intros b h n t j Hb Hh' Hn Ht Hj. unfold Ochunk. f_equal.
      apply bigsum_ext. intros i Hi.
      replace (t / h2 * h2 + t mod h2) with t; [reflexivity|].
      rewrite (Nat.div_mod_eq t h2) at 1. lia. }
  assert (HT : 0 < h2 + h2) by lia.
  destruct (view_sequence Ho5 HL HT) as (out & -> & Hout). cbn [bind].
  exists out, s'. split; [reflexivity|]. split; [exact Hout|exact Hs'].
Qed.

End Chunked.

End ChunkedElements.

Set Implicit Arguments.

(** ** The chunked engine against the reference engine *)

Section ReferenceWellFormed.
Context {F : Type} `{SF : Scalar F}.
Local Abbreviation tensor := (tensor F).

Lemma binop_well_formed (f : F -> F -> F) (a b c : tensor) :
  binop f a b = Ok c -> well_formed c.
Proof.
  unfold binop. destruct (broadcast_shapes _ _); cbn [bind]; [|discriminate].
  intros [= <-]. apply well_formed_tabulate.
Qed.

Lemma cat_well_formed (d : nat) (ts : list tensor) (c : tensor) :
  cat d ts = Ok c -> well_formed c.
Proof.
  unfold cat. destruct ts as [|t0 ts]; [discriminate|].
  destruct (d <=? rank t0); [|discriminate].
  destruct (forallb _ _); [|discriminate].
  intros [= <-]. apply well_formed_tabulate.
Qed.

Lemma recurrent_step_well_formed (r k v w u : tensor) (t : nat)
      (outs outs' : list tensor) (st st' : tensor) :
  recurrent_step r k v w u t (outs, st) = Ok (outs', st') ->
  well_formed st'.
Proof.
  intros E. unfold recurrent_step in E. bind_inv E.
  injection E as _ <-.
  match goal with
  | E' : add _ _ = Ok ?x |- well_formed ?x =>
      eapply binop_well_formed; exact E'
  end.
Qed.

Lemma recurrent_loop_well_formed (r k v w u : tensor) (l : list nat) :
  forall (outs outs' : list tensor) (st st' : tensor),
    for_each (recurrent_step r k v w u) l (outs, st) = Ok (outs', st') ->
    l <> [] \/ well_formed st -> well_formed st'.
Proof.
  induction l as [|t l IH]; intros outs outs' st st' E Hc.
  - cbn [for_each] in E. injection E as _ <-.
    destruct Hc as [Hc|Hc]; [congruence|exact Hc].
  - cbn [for_each] in E.
    destruct (recurrent_step r k v w u t (outs, st)) as [[outs1 st1]|e] eqn:E1;
      cbn [bind] in E; [|discriminate].
    eapply IH; [exact E|]. right.
    eapply recurrent_step_well_formed; exact E1.
Qed.

Lemma recurrent_well_formed (r k v w u s out s' : tensor) (B H L K : nat) :
  shape r = [B; H; L; K] -> 0 < L ->
  rwkv5_1_recurrent r k v w u s = Ok (out, s') ->
  well_formed out /\ well_formed s'.
Proof.
  intros Sr HL E. unfold rwkv5_1_recurrent, size_from_end, rank in E.
  rewrite Sr in E. cbn [length Nat.leb Nat.sub nth bind] in E.
  destruct (for_each _ _ _) as [[outs st]|e] eqn:E1; cbn [bind] in E;
    [|discriminate].
  destruct (cat 2 outs) as [c|e] eqn:E2; cbn [bind] in E; [|discriminate].
  injection E as <- <-. split.
  - eapply cat_well_formed; exact E2.
  - eapply recurrent_loop_well_formed; [exact E1|]. left.
    destruct L; [lia|]. discriminate.
Qed.

End ReferenceWellFormed.

Section Equivalence.
Context {F : Type} `{SF : Scalar F}.
Local Abbreviation tensor := (tensor F).
Local Abbreviation zz := Z.of_nat.
Variables (fone : F) (fopp : F -> F).
Hypothesis Fring : ring_theory fzero fone fadd fmul fsub fopp eq.
Hypothesis exp_add : forall a b : F, fexp (fadd a b) = fmul (fexp a) (fexp b).
Hypothesis exp_zero : fexp fzero = fone.
Hypothesis cast_id : forall (d : dtype) (x : F), fcast d x = x.

Lemma Schunk_Sref (h2 : nat) (k v lw w S0 : nat -> nat -> F) :
  (forall t i, fexp (lw t i) = w t i) ->
  forall n i j,
    Schunk h2 k v lw S0 n i j = Sref k v w S0 (n * (h2 + h2)) i j.
Proof.
  intros Hw. induction n as [|n IH]; intros i j; [reflexivity|].
  change (Schunk h2 k v lw S0 (S n) i j)
    with (Snext h2 k v lw (n * (h2 + h2)) (Schunk h2 k v lw S0 n) i j).
  transitivity (Snext h2 k v lw (n * (h2 + h2))
                  (Sref k v w S0 (n * (h2 + h2))) i j).
  - unfold Snext. now rewrite IH.
  - rewrite (@Snext_Sref F SF fone fopp Fring exp_add exp_zero h2 k v lw w Hw).
    f_equal. lia.
Qed.

Lemma Ochunk_ext (K h2 q : nat) (r k v lw : nat -> nat -> F) (u : nat -> F)
      (t0 : nat) (S S' : nat -> nat -> F) (z t' j : nat) :
  (forall i j, S i j = S' i j) ->
  Ochunk K h2 q r k v lw u t0 S z t' j = Ochunk K h2 q r k v lw u t0 S' z t' j.
Proof.
  intros E. unfold Ochunk. f_equal. apply bigsum_ext. intros i _.
  now rewrite E.
Qed.

Variables (B Bw H L K V Nn h2 : nat).
Variables r k v w u s : tensor.
Variable p : dtype.
Variable m : Q.
Hypothesis Sr : shape r = [B; H; L; K].
Hypothesis Sk : shape k = [B; H; L; K].
Hypothesis Sv : shape v = [B; H; L; V].
Hypothesis Sw : shape w = [Bw; H; L; K].
Hypothesis Su : shape u = [1; H; 1; K].
Hypothesis Ss : shape s = [B; H; K; V].
Hypothesis Wr : well_formed r.
Hypothesis Wk : well_formed k.
Hypothesis Wv : well_formed v.
Hypothesis Ww : well_formed w.
Hypothesis Wu : well_formed u.
Hypothesis Ws : well_formed s.
Hypothesis HBw : Bw = B \/ Bw = 1.
Hypothesis Hh : 0 < h2.
Hypothesis HN : 0 < Nn.
Hypothesis HL : L = Nn * (h2 + h2).
Hypothesis Hp : precision_min_val p = Ok m.
Hypothesis Hdecay :
  Forall (fun x => fexp (flog (fmax x (fconst m))) = x) (data w).

Local Abbreviation rf := (fun b h t i => get r [b; h; t; i]).
Local Abbreviation kf := (fun b h t i => get k [b; h; t; i]).
Local Abbreviation vf := (fun b h t j => get v [b; h; t; j]).
Local Abbreviation sf := (fun b h i j => get s [b; h; i; j]).
Local Abbreviation uf := (fun h i => get u [0; h; 0; i]).
Local Abbreviation lw :=
  (fun b h t i =>
     if (t <? L) && (i <? K)
     then flog (fmax (get w [b; h; t; i]) (fconst m)) else fzero).
Local Abbreviation wg :=
  (fun b h t i => if (t <? L) && (i <? K) then get w [b; h; t; i] else fone).
Local Abbreviation bsel := (fun b => if Bw =? 1 then 0 else b).

Lemma decay_round_trip (b h : nat) :
  b < Bw -> h < H -> forall t i, fexp (lw b h t i) = wg b h t i.
Proof.
  intros Hb Hh' t i. cbv beta.
  destruct ((t <? L) && (i <? K)) eqn:E; [|exact exp_zero].
  apply andb_prop in E. destruct E as [Ht Hi].
  apply Nat.ltb_lt in Ht. apply Nat.ltb_lt in Hi.
  rewrite Forall_forall in Hdecay. apply Hdecay.
  unfold get. apply nth_In. rewrite Ww, Sw. apply ravel_lt. range_tac.
Qed.

Lemma reference_state (b h : nat) :
  b < B -> h < H ->
  forall t i j, t <= L -> i < K ->
    Sref (kf b h) (vf b h) (wg (bsel b) h) (sf b h) t i j
    = spec_state k v w s t b h i j.
Proof.
  intros Hb Hh'. induction t as [|t IH]; intros i j Ht Hi; [reflexivity|].
  cbn [Sref spec_state]. rewrite IH by lia.
  unfold spec_w, spec_kv. rewrite Sw. cbn [nth].
  replace ((t <? L) && (i <? K)) with true; [reflexivity|].
  symmetry. apply andb_true_intro. split; apply Nat.ltb_lt; lia.
Qed.

Lemma reference_out (b h t j : nat) :
  b < B -> h < H -> t < L ->
  Oref K (rf b h) (kf b h) (vf b h) (wg (bsel b) h) (uf h) (sf b h) t j
  = spec_out r k v w u s K t b h j.
Proof.
  intros Hb Hh' Ht. unfold Oref, spec_out. apply bigsum_ext. intros i Hi.
  rewrite reference_state by lia. reflexivity.
Qed.

Lemma chunked_equals_recurrent :
  exists out s',
    rwkv5_1_recurrent r k v w u s = Ok (out, s')
    /\ rwkv_inner r k v w u s (zz (h2 + h2)) p = Ok (out, s').
Proof.
  assert (HL0 : 0 < L) by nia.
  destruct (@recurrent_elements F SF r k v w u s B H L K V Bw
              Sr Sk Sv Sw HBw Su Ss HL0)
    as (out & s' & E & So & Ss' & Go & Gs').
  destruct (@recurrent_well_formed F SF r k v w u s out s' B H L K Sr HL0 E) as (Wo & Ws').
  exists out, s'. split; [exact E|].
  rewrite (@rwkv_inner_enters_chunked F SF r k v w u s B H L K)
    by (try assumption; unfold rank; rewrite ?Sv; cbn [length]; nia).
  unfold rank. rewrite Sv. cbn [length Nat.sub nth].
  destruct (@chunked_spec F SF cast_id B Bw H L K V Nn h2 r k v w u s p m
              rf kf vf lw sf uf HBw Hh HN HL Hp)
    as (oc & sc & -> & (Soc & Woc & Goc) & (Ssc & Wsc & Gsc)).
  { split; [exact Sr|]. split; [exact Wr|]. reflexivity. }
  { split; [exact Sk|]. split; [exact Wk|]. reflexivity. }
  { split; [exact Sv|]. split; [exact Wv|]. reflexivity. }
  { split; [exact Su|]. split; [exact Wu|].
    intros i1 h i3 i H1 H2 H3 H4.
    assert (i1 = 0) by lia. assert (i3 = 0) by lia. now subst. }
  { split; [exact Ss|]. split; [exact Ws|]. reflexivity. }
  { exact Sw. }
  { exact Ww. }
  { intros b h t i Hb Hh' Ht Hi.
    replace ((t <? L) && (i <? K)) with true; [reflexivity|].
    symmetry. apply andb_true_intro. split; apply Nat.ltb_lt; lia. }
  f_equal. f_equal.
  - apply tensor_ext; [exact Woc|exact Wo|congruence|].
    rewrite Soc. intros idx Hidx.
    destruct (in_range4 Hidx) as (b & h & t & j & -> & Hb & Hh' & Ht & Hj).
    rewrite Goc, Go by assumption.
    assert (HT : h2 + h2 <> 0) by lia.
    assert (Hb' : bsel b < Bw) by exact (bsel_lt Bw B b HBw Hb).
    pose proof (Nat.mod_upper_bound t (h2 + h2) HT) as Hm.
    rewrite (@Ochunk_ext K h2 _ _ _ _ _ _ _ _
               (Sref (kf b h) (vf b h) (wg (bsel b) h) (sf b h)
                     (t / (h2 + h2) * (h2 + h2))))
      by (intros; apply Schunk_Sref; now apply decay_round_trip).
    rewrite (@Ochunk_Oref F SF fone fopp Fring exp_add exp_zero K h2 _
               (rf b h) (kf b h) (vf b h) (lw (bsel b) h) (wg (bsel b) h)
               (uf h) (decay_round_trip Hb' Hh')).
    + rewrite <- reference_out by assumption. f_equal.
      rewrite (Nat.div_mod_eq t (h2 + h2)) at 4.
      rewrite (Nat.div_mod_eq (t mod (h2 + h2)) h2) at 3. lia.
    + apply Nat.Div0.div_lt_upper_bound. lia.
    + apply Nat.mod_upper_bound. lia.
  - apply tensor_ext; [exact Wsc|exact Ws'|congruence|].
    rewrite Ssc. intros idx Hidx.
    destruct (in_range4 Hidx) as (b & h & i & j & -> & Hb & Hh' & Hi & Hj).
    rewrite Gsc, Gs' by assumption.
    assert (Hb' : bsel b < Bw) by exact (bsel_lt Bw B b HBw Hb).
    rewrite (@Schunk_Sref h2 _ _ _ (wg (bsel b) h) _
               (decay_round_trip Hb' Hh')).
    rewrite <- HL. apply reference_state; assumption || lia.
Qed.

End Equivalence.

(** ** Even chunk lengths *)

Lemma even_chunks (L : nat) (T : Z) :
  0 < L -> (0 < T)%Z -> Z.even T = true -> (Z.of_nat L mod T = 0)%Z ->
  exists Nn h2,
    0 < Nn /\ 0 < h2 /\ T = Z.of_nat (h2 + h2) /\ L = Nn * (h2 + h2).
Proof.
  intros HL HT He Hm.
  apply Z.even_spec in He. destruct He as (c & Hc).
  apply Z.mod_divide in Hm; [|lia]. destruct Hm as (n & Hn).
  exists (Z.to_nat n), (Z.to_nat c).
  assert (0 < c)%Z by lia. assert (0 < n)%Z by nia.
  split; [lia|]. split; [lia|]. split; [lia|].
  apply Nat2Z.inj. rewrite Nat2Z.inj_mul, Nat2Z.inj_add, !Z2Nat.id by lia.
  nia.
Qed.

Lemma chunked_equals_recurrent_even {F : Type} `{SF : Scalar F} (fone : F)
      (fopp : F -> F) (B Bw H L K V : nat) (r k v w u kv_state : tensor F)
      (chunk_len : Z) (precision_dtype : dtype) (m : Q) :
  exact_arithmetic fone fopp ->
  documented B Bw H L K V r k v w u kv_state ->
  0 < L -> (0 < chunk_len)%Z -> Z.even chunk_len = true ->
  (Z.of_nat L mod chunk_len = 0)%Z ->
  precision_min_val precision_dtype = Ok m ->
  decay_exact m w ->
  exists out kv_state',
    rwkv5_1_recurrent r k v w u kv_state = Ok (out, kv_state')
    /\ rwkv_inner r k v w u kv_state chunk_len precision_dtype
       = Ok (out, kv_state').
Proof.
  intros [Hring Hadd Hzero Hcast]
         (Sr & Sk & Sv & Sw & HBw & Su & Ss & Wr & Wk & Wv & Ww & Wu & Ws)
         HL HT He Hm Hp Hd.
  destruct (even_chunks HL HT He Hm) as (Nn & h2 & HN & Hh & -> & HL').
  exact (@chunked_equals_recurrent F SF fone fopp Hring Hadd Hzero Hcast
           B Bw H L K V Nn h2 r k v w u kv_state precision_dtype m
           Sr Sk Sv Sw Su Ss Wr Wk Wv Ww Wu Ws HBw Hh HN HL' Hp Hd).
Qed.

(** X14. Over any exact arithmetic (the scalars form a commutative
    ring, the exponential turns sums into products and no cast rounds, as
    with the real numbers), for inputs of the documented shapes with at
    least one timestep, every positive even chunk length that divides the
    sequence length, and decays that the clamp at the precision floor
    leaves unchanged, the chunked engine returns exactly the per-timestep
    outputs and the final state of the reference engine.  Nothing is said
    here about an arithmetic that rounds. *)
Theorem chunked_matches_recurrent {F : Type} `{SF : Scalar F} (fone : F)
      (fopp : F -> F) (B Bw H L K V : nat) (r k v w u kv_state : tensor F)
      (chunk_len : Z) (precision_dtype : dtype) (m : Q) :
  exact_arithmetic fone fopp ->
  documented B Bw H L K V r k v w u kv_state ->
  0 < L -> (0 < chunk_len)%Z -> Z.even chunk_len = true ->
  (Z.of_nat L mod chunk_len = 0)%Z ->
  precision_min_val precision_dtype = Ok m ->
  decay_exact m w ->
  exists out kv_state',
    rwkv5_1_recurrent r k v w u kv_state = Ok (out, kv_state')
    /\ rwkv_inner r k v w u kv_state chunk_len precision_dtype
       = Ok (out, kv_state').
Proof.
  intros [Hring Hadd Hzero Hcast]
         (Sr & Sk & Sv & Sw & HBw & Su & Ss & Wr & Wk & Wv & Ww & Wu & Ws)
         HL HT He Hm Hp Hd.
  destruct (even_chunks HL HT He Hm) as (Nn & h2 & HN & Hh & -> & HL').
  exact (@chunked_equals_recurrent F SF fone fopp Hring Hadd Hzero Hcast
           B Bw H L K V Nn h2 r k v w u kv_state precision_dtype m
           Sr Sk Sv Sw Su Ss Wr Wk Wv Ww Wu Ws HBw Hh HN HL' Hp Hd).
Qed.

(** X15. Over any exact arithmetic, for inputs of the documented shapes
    with at least one timestep and decays that the clamp leaves
    unchanged, any two positive even chunk lengths that divide the
    sequence length make the chunked engine return, and return one and
    the same output and final state. *)
Theorem chunk_len_invariance {F : Type} `{SF : Scalar F} (fone : F)
      (fopp : F -> F) (B Bw H L K V : nat) (r k v w u kv_state : tensor F)
      (T1 T2 : Z) (precision_dtype : dtype) (m : Q) :
  exact_arithmetic fone fopp ->
  documented B Bw H L K V r k v w u kv_state ->
  0 < L ->
  (0 < T1)%Z -> Z.even T1 = true -> (Z.of_nat L mod T1 = 0)%Z ->
  (0 < T2)%Z -> Z.even T2 = true -> (Z.of_nat L mod T2 = 0)%Z ->
  precision_min_val precision_dtype = Ok m ->
  decay_exact m w ->
  rwkv_inner r k v w u kv_state T1 precision_dtype
  = rwkv_inner r k v w u kv_state T2 precision_dtype
  /\ is_ok (rwkv_inner r k v w u kv_state T1 precision_dtype) = true.
Proof.
  intros Hex Hdoc HL H1 E1 M1 H2 E2 M2 Hp Hd.
  destruct (@chunked_equals_recurrent_even F SF fone fopp B Bw H L K V
              r k v w u kv_state T1 precision_dtype m Hex Hdoc HL H1 E1 M1 Hp Hd)
    as (out1 & s1 & R1 & C1).
  destruct (@chunked_equals_recurrent_even F SF fone fopp B Bw H L K V
              r k v w u kv_state T2 precision_dtype m Hex Hdoc HL H2 E2 M2 Hp Hd)
    as (out2 & s2 & R2 & C2).
  rewrite C1, C2. split; [congruence|reflexivity].
Qed.

(** ** Segmented evaluation *)

Section SegmentFacts.
Context {F : Type} `{SF : Scalar F}.
Local Abbreviation tensor := (tensor F).

Lemma decay_exact_segment (m : Q) (w : tensor) (Bw H L K a n : nat) :
  shape w = [Bw; H; L; K] -> well_formed w -> a + n <= L ->
  decay_exact m w ->
  decay_exact m
    (tabulate [Bw; H; n; K] (fun idx =>
       get w (set_at 2 (a + nth 2 idx 0) idx))).
Proof.
  intros Sw Ww Hle Hd. unfold decay_exact, tabulate in *. cbn [data].
  apply Forall_map. apply Forall_forall. intros idx Hin.
  apply in_indices in Hin.
  destruct (in_range4 Hin) as (b & h & t & i & -> & Hb & Hh & Ht & Hi).
  cbn [nth set_at firstn skipn app].
  rewrite Forall_forall in Hd. apply Hd.
  unfold get. apply nth_In. rewrite Ww, Sw. apply ravel_lt.
  in_range_tac.
Qed.

End SegmentFacts.

Section ChunkedStreaming.
Context {F : Type} `{SF : Scalar F}.
Local Abbreviation tensor := (tensor F).
Variables (fone : F) (fopp : F -> F).
Variables (B Bw H L K V s : nat).
Variables r k v w u kv_state : tensor.
Variable T : Z.
Variable p : dtype.
Variable m : Q.
Hypothesis Hex : exact_arithmetic fone fopp.
Hypothesis Hdoc : documented B Bw H L K V r k v w u kv_state.
Hypothesis Hsplit : 0 < s < L.
Hypothesis HT : (0 < T)%Z.
Hypothesis He : Z.even T = true.
Hypothesis Hm1 : (Z.of_nat s mod T = 0)%Z.
Hypothesis Hm2 : (Z.of_nat (L - s) mod T = 0)%Z.
Hypothesis Hp : precision_min_val p = Ok m.
Hypothesis Hd : decay_exact m w.

Local Abbreviation chunked_engine :=
  (fun r k v w u kv_state => rwkv_inner r k v w u kv_state T p).

(** X17. Over any exact arithmetic, on inputs of the documented shapes
    split after [s] timesteps, with a positive even chunk length that
    divides the lengths of both segments and decays that the clamp leaves
    unchanged, running the chunked engine on the first segment and then,
    from the state it returns, on the second, and concatenating the two
    outputs, gives exactly the output and the final state of one run of
    the chunked engine over the whole sequence. *)
Theorem chunked_streaming :
  exists out kv_state',
    rwkv_inner r k v w u kv_state T p = Ok (out, kv_state')
    /\ streamed chunked_engine s r k v w u kv_state = Ok (out, kv_state').
Proof.
  destruct Hdoc
    as (Sr & Sk & Sv & Sw & HBw & Su & Ss & Wr & Wk & Wv & Ww & Wu & Ws).
  (* one run *)
  assert (HmL : (Z.of_nat L mod T = 0)%Z).
  { replace L with (s + (L - s)) by lia.
    rewrite Nat2Z.inj_add, Z.add_mod, Hm1, Hm2 by lia. reflexivity. }
  destruct (@chunked_equals_recurrent_even F SF fone fopp B Bw H L K V
              r k v w u kv_state T p m Hex Hdoc ltac:(lia) HT He HmL Hp Hd)
    as (out & st & Rfull & Cfull).
  destruct (@recurrent_streaming F SF r k v w u kv_state B H L K V Bw s
              Sr Sk Sv Sw HBw Su Ss Hsplit)
    as (out' & st' & Rfull' & Rstream).
  rewrite Rfull in Rfull'. injection Rfull' as <- <-.
  exists out, st. split; [exact Cfull|].
  rewrite <- Rstream. unfold streamed.
  rewrite (slice_upto r Sr), (slice_upto k Sk), (slice_upto v Sv),
    (slice_upto w Sw) by lia.
  rewrite (slice_from r Sr), (slice_from k Sk), (slice_from v Sv),
    (slice_from w Sw) by lia.
  cbn [bind].
  (* the first segment *)
  match goal with
  | |- context [rwkv5_1_recurrent ?r1 ?k1 ?v1 ?w1 u kv_state] =>
      destruct (@chunked_equals_recurrent_even F SF fone fopp B Bw H s K V
                  r1 k1 v1 w1 u kv_state T p m Hex)
        as (o1 & st1 & R1 & C1);
      [ repeat split; auto using well_formed_tabulate
      | lia | exact HT | exact He | exact Hm1 | exact Hp
      | apply (@decay_exact_segment F SF m w Bw H L K 0 s Sw Ww); [lia|exact Hd]
      | destruct (@recurrent_elements F SF r1 k1 v1 w1 u kv_state
                    B H s K V Bw eq_refl eq_refl eq_refl eq_refl HBw Su Ss
                    ltac:(lia))
          as (o1' & st1' & R1' & _ & Sst1 & _);
        rewrite R1 in R1'; injection R1' as <- <-;
        destruct (@recurrent_well_formed F SF r1 k1 v1 w1 u kv_state o1 st1
                    B H s K eq_refl ltac:(lia) R1) as (_ & Wst1) ]
  end.
  rewrite R1, C1. cbn [bind].
  (* the second segment *)
  match goal with
  | |- context [rwkv5_1_recurrent ?r2 ?k2 ?v2 ?w2 u st1] =>
      destruct (@chunked_equals_recurrent_even F SF fone fopp B Bw H (L - s)
                  K V r2 k2 v2 w2 u st1 T p m Hex)
        as (o2 & st2 & R2 & C2);
      [ repeat split; auto using well_formed_tabulate
      | lia | exact HT | exact He | exact Hm2 | exact Hp
      | apply (@decay_exact_segment F SF m w Bw H L K s (L - s) Sw Ww);
          [lia|exact Hd]
      | ]
  end.
  rewrite R2, C2. reflexivity.
Qed.

End ChunkedStreaming.

(** X16. In any arithmetic, on inputs of the documented shapes split
    after [s] timesteps with both segments non-empty, running the
    reference engine on the first segment and then, from the state it
    returns, on the second, and concatenating the two outputs, gives
    exactly the output and the final state of one run over the whole
    sequence. *)
Theorem reference_streaming {F : Type} `{SF : Scalar F}
      (B Bw H L K V s : nat) (r k v w u kv_state : tensor F) :
  documented B Bw H L K V r k v w u kv_state -> 0 < s < L ->
  exists out kv_state',
    rwkv5_1_recurrent r k v w u kv_state = Ok (out, kv_state')
    /\ streamed rwkv5_1_recurrent s r k v w u kv_state
       = Ok (out, kv_state').
Proof.
  intros Hdoc Hsplit.
  destruct Hdoc as (Sr & Sk & Sv & Sw & HBw & Su & Ss & _).
  exact (@recurrent_streaming F SF r k v w u kv_state B H L K V Bw s
           Sr Sk Sv Sw HBw Su Ss Hsplit).
Qed.

(** * Further properties of the engines *)

Ltac rew_app E :=
  let H := fresh in pose proof E as H; cbn [app] in H; rewrite H; clear H.

(** ** The reference engine *)

Section ReferenceFacts.
Context {F : Type} `{SF : Scalar F}.
Local Abbreviation tensor := (tensor F).

(** X1. A sequence without timesteps makes the reference engine raise:
    the loop appends nothing and [torch.cat] refuses the empty list. *)
Theorem recurrent_empty_raises (r k v w u kv_state : tensor)
        (batch : list nat) (K : nat) :
  shape r = batch ++ [0; K] ->
  rwkv5_1_recurrent r k v w u kv_state
  = Raise (RuntimeError empty_tensor_list).
Proof.
  intros Sr. unfold rwkv5_1_recurrent, size_from_end, rank.
  rewrite Sr, length_app. cbn [length].
  replace (2 <=? length batch + 2) with true
    by (symmetry; apply Nat.leb_le; lia).
  replace (length batch + 2 - 2) with (length batch + 0) by lia.
  rewrite app_nth2_plus. reflexivity.
Qed.

Variables (B Bw H L K V : nat).

Lemma state_agrees (k v w k' v' w' kv_state : tensor) (n b h : nat) :
  shape w = [Bw; H; L; K] ->
  nth 0 (shape w') 0 = Bw ->
  (forall t i, t < n -> i < K ->
     get k [b; h; t; i] = get k' [b; h; t; i]
     /\ get w [(if Bw =? 1 then 0 else b); h; t; i]
        = get w' [(if Bw =? 1 then 0 else b); h; t; i]) ->
  (forall t j, t < n -> j < V -> get v [b; h; t; j] = get v' [b; h; t; j]) ->
  forall t i j, t <= n -> i < K -> j < V ->
    spec_state k v w kv_state t b h i j
    = spec_state k' v' w' kv_state t b h i j.
Proof.
  intros Sw Sw' Hkw Hv. induction t as [|t IH]; intros i j Ht Hi Hj;
    [reflexivity|].
  cbn [spec_state]. rewrite IH by lia. unfold spec_w, spec_kv.
  rewrite Sw, Sw'. cbn [nth].
  destruct (Hkw t i) as [Ek Ew]; [lia|assumption|].
  rewrite Ek, Ew, (Hv t j) by (assumption || lia). reflexivity.
Qed.

(** X2. The reference engine is causal: two inputs of the documented
    shapes, of possibly different lengths, that hold the same values at
    the first [n] timesteps (with the same bonus and the same initial
    state) give the same outputs at these timesteps. *)
Theorem recurrent_causal (L' n : nat)
        (r k v w r' k' v' w' u kv_state : tensor) :
  documented B Bw H L K V r k v w u kv_state ->
  documented B Bw H L' K V r' k' v' w' u kv_state ->
  0 < n -> n <= L -> n <= L' ->
  (forall b h t i, b < B -> h < H -> t < n -> i < K ->
     get r [b; h; t; i] = get r' [b; h; t; i]
     /\ get k [b; h; t; i] = get k' [b; h; t; i]) ->
  (forall b h t j, b < B -> h < H -> t < n -> j < V ->
     get v [b; h; t; j] = get v' [b; h; t; j]) ->
  (forall b h t i, b < Bw -> h < H -> t < n -> i < K ->
     get w [b; h; t; i] = get w' [b; h; t; i]) ->
  exists out out' s s',
    rwkv5_1_recurrent r k v w u kv_state = Ok (out, s)
    /\ rwkv5_1_recurrent r' k' v' w' u kv_state = Ok (out', s')
    /\ forall b h t j, b < B -> h < H -> t < n -> j < V ->
         get out [b; h; t; j] = get out' [b; h; t; j].
Proof.
  intros (Sr & Sk & Sv & Sw & HBw & Su & Ss & _)
         (Sr' & Sk' & Sv' & Sw' & _ & _ & _ & _) Hn HL HL' Hrk Hv Hw.
  destruct (@recurrent_elements F SF r k v w u kv_state B H L K V Bw
              Sr Sk Sv Sw HBw Su Ss ltac:(lia))
    as (out & s & E & _ & _ & Go & _).
  destruct (@recurrent_elements F SF r' k' v' w' u kv_state B H L' K V Bw
              Sr' Sk' Sv' Sw' HBw Su Ss ltac:(lia))
    as (out' & s' & E' & _ & _ & Go' & _).
  exists out, out', s, s'. split; [exact E|]. split; [exact E'|].
  intros b h t j Hb Hh Ht Hj. rewrite Go, Go' by (assumption || lia).
  assert (Hb' : (if Bw =? 1 then 0 else b) < Bw)
    by (destruct HBw as [->| ->]; [rewrite sel_lt|cbn]; lia).
  unfold spec_out. f_equal. apply map_ext_in. intros i Hi.
  apply in_seq in Hi.
  destruct (Hrk b h t i) as [Er Ek]; try (assumption || lia).
  rewrite Er. unfold spec_kv. rewrite Ek, (Hv b h t j) by assumption.
  rewrite (@state_agrees k v w k' v' w' kv_state n b h Sw); try reflexivity.
  - now rewrite Sw'.
  - intros t0 i0 Ht0 Hi0. split.
    + now apply Hrk.
    + now apply Hw.
  - intros t0 j0 Ht0 Hj0. now apply Hv.
  - lia.
  - lia.
  - assumption.
Qed.

(** X3. The state the reference engine returns does not depend on the
    queries [r] nor on the bonus [u]. *)
Theorem recurrent_state_ignores_queries
        (r k v w u r' u' kv_state : tensor) :
  documented B Bw H L K V r k v w u kv_state ->
  shape r' = [B; H; L; K] -> shape u' = [1; H; 1; K] -> 0 < L ->
  exists out out' s,
    rwkv5_1_recurrent r k v w u kv_state = Ok (out, s)
    /\ rwkv5_1_recurrent r' k v w u' kv_state = Ok (out', s).
Proof.
  intros (Sr & Sk & Sv & Sw & HBw & Su & Ss & _) Sr' Su' HL.
  destruct (@recurrent_elements F SF r k v w u kv_state B H L K V Bw
              Sr Sk Sv Sw HBw Su Ss HL)
    as (out & s & E & _ & S1 & _ & G1).
  destruct (@recurrent_elements F SF r' k v w u' kv_state B H L K V Bw
              Sr' Sk Sv Sw HBw Su' Ss HL)
    as (out' & s' & E' & _ & S2 & _ & G2).
  destruct (@recurrent_well_formed F SF r k v w u kv_state out s B H L K
              Sr HL E) as (_ & W1).
  destruct (@recurrent_well_formed F SF r' k v w u' kv_state out' s' B H L K
              Sr' HL E') as (_ & W2).
  exists out, out', s. split; [exact E|]. rewrite E'. do 2 f_equal.
  apply tensor_ext; [exact W2|exact W1|congruence|].
  rewrite S2. intros idx Hidx.
  destruct (in_range4 Hidx) as (b & h & i & j & -> & Hb & Hh & Hi & Hj).
  now rewrite G1, G2.
Qed.

End ReferenceFacts.

Section SharedDecay.
Context {F : Type} `{SF : Scalar F}.
Local Abbreviation tensor := (tensor F).
Variables (B H L K V : nat).

(** X4. A decay of shape [(1,H,L,K)] is shared by all batches: the
    reference engine returns on it what it returns on the decay expanded
    to [(B,H,L,K)]. *)
Theorem recurrent_shared_decay (r k v w u kv_state : tensor) :
  documented B 1 H L K V r k v w u kv_state -> 0 < L ->
  exists w',
    expand [B; H; L; K] w = Ok w'
    /\ shape w' = [B; H; L; K]
    /\ rwkv5_1_recurrent r k v w' u kv_state
       = rwkv5_1_recurrent r k v w u kv_state
    /\ is_ok (rwkv5_1_recurrent r k v w u kv_state) = true.
Proof.
  intros (Sr & Sk & Sv & Sw & HBw & Su & Ss & _) HL.
  unfold expand. rewrite Sw.
  rewrite broadcast_shapes_into
    by (repeat (apply Forall2_cons; [auto|]); apply Forall2_nil).
  cbn [bind]. rewrite list_eqb_refl.
  eexists. split; [reflexivity|]. split; [reflexivity|].
  set (w' := tabulate _ _).
  assert (Sw' : shape w' = [B; H; L; K]) by reflexivity.
  destruct (@recurrent_elements F SF r k v w u kv_state B H L K V 1
              Sr Sk Sv Sw (or_intror eq_refl) Su Ss HL)
    as (out & s & E & So & Ss1 & Go & Gs).
  destruct (@recurrent_elements F SF r k v w' u kv_state B H L K V B
              Sr Sk Sv Sw' (or_introl eq_refl) Su Ss HL)
    as (out' & s' & E' & So' & Ss1' & Go' & Gs').
  destruct (@recurrent_well_formed F SF r k v w u kv_state out s B H L K
              Sr HL E) as (Wo & Ws).
  destruct (@recurrent_well_formed F SF r k v w' u kv_state out' s' B H L K
              Sr HL E') as (Wo' & Ws').
  rewrite E, E'. split; [|reflexivity].
  assert (Hst : forall t b h i j, b < B -> h < H -> t <= L -> i < K -> j < V ->
                  spec_state k v w' kv_state t b h i j
                  = spec_state k v w kv_state t b h i j).
  { induction t as [|t IH]; intros b h i j Hb Hh Ht Hi Hj; [reflexivity|].
    cbn [spec_state]. rewrite IH by (assumption || lia). do 2 f_equal.
    unfold spec_w. rewrite Sw, Sw'. cbn [nth Nat.eqb].
    assert (Hb' : (if B =? 1 then 0 else b) < B).
    { destruct (Nat.eqb_spec B 1); lia. }
    unfold w'. rewrite get_tabulate by (unfold in_range;
      repeat (apply Forall2_cons; [assumption || lia|]); apply Forall2_nil).
    cbn [bidx map combine skipn length Nat.sub Nat.eqb].
    assert (Ht' : t < L) by lia.
    now rewrite (sel_lt Hh), (sel_lt Ht'), (sel_lt Hi). }
  do 2 f_equal.
  - apply tensor_ext; [exact Wo'|exact Wo|congruence|].
    rewrite So'. intros idx Hidx.
    destruct (in_range4 Hidx) as (b & h & t & j & -> & Hb & Hh & Ht & Hj).
    rewrite Go, Go' by assumption. unfold spec_out. f_equal.
    apply map_ext_in. intros i Hi. apply in_seq in Hi.
    rewrite Hst by (assumption || lia). reflexivity.
  - apply tensor_ext; [exact Ws'|exact Ws|congruence|].
    rewrite Ss1'. intros idx Hidx.
    destruct (in_range4 Hidx) as (b & h & i & j & -> & Hb & Hh & Hi & Hj).
    rewrite Gs, Gs' by assumption. apply Hst; assumption || lia.
Qed.

End SharedDecay.

(** ** The single-step branch of the chunked engine *)

Section SingleStep.
Context {F : Type} `{SF : Scalar F}.
Local Abbreviation tensor := (tensor F).

Ltac clean4 H :=
  eapply holds4_ext in H; [|intros; cbn [Nat.eqb]; sel_tac; reflexivity].

Lemma matmul4 (x y : tensor) (a b n m p : nat)
      (f g : nat -> nat -> nat -> nat -> F) :
  holds4 x a b n m f -> holds4 y a b m p g ->
  exists z,
    matmul x y = Ok z
    /\ holds4 z a b n p
         (fun i1 i2 i j =>
            bigsum (fun l => fmul (f i1 i2 i l) (g i1 i2 l j)) 0 m).
Proof.
  intros (Sx & Wx & Gx) (Sy & Wy & Gy).
  destruct (matmul_get x y [a; b] [a; b] [a; b] n m p
              Sx Sy (broadcast_shapes_same _)) as (z & E & Sz & Wz & Gz).
  exists z. split; [exact E|]. split; [exact Sz|]. split; [exact Wz|].
  intros i1 i2 i j H1 H2 Hi Hj.
  rew_app (Gz [i1; i2] i j); [|range_tac|assumption..].
  apply bigsum_ext. intros l Hl.
  cbn [bidx map combine skipn length Nat.sub app]. sel_tac.
  rewrite Gx, Gy by (assumption || lia). reflexivity.
Qed.

Lemma binop4_r (op : F -> F -> F) (x y : tensor)
      (a1 a2 a3 a4 b1 b2 b3 b4 : nat)
      (f g : nat -> nat -> nat -> nat -> F) :
  holds4 x a1 a2 a3 a4 f -> holds4 y b1 b2 b3 b4 g ->
  Forall2 (fun u v => u = v \/ u = 1) [a1; a2; a3; a4] [b1; b2; b3; b4] ->
  exists z,
    binop op x y = Ok z
    /\ holds4 z b1 b2 b3 b4
         (fun i1 i2 i3 i4 =>
            op (f (if a1 =? 1 then 0 else i1) (if a2 =? 1 then 0 else i2)
                  (if a3 =? 1 then 0 else i3) (if a4 =? 1 then 0 else i4))
               (g i1 i2 i3 i4)).
Proof.
  intros Hx Hy Ha.
  destruct (binop4 op Hx Hy (s1 := b1) (s2 := b2) (s3 := b3) (s4 := b4))
    as (z & E & Hz).
  { apply broadcast_shapes_into. exact Ha. }
  { exact Ha. }
  { shape_tac. }
  exists z. split; [exact E|].
  apply (holds4_ext _ Hz). intros i1 i2 i3 i4 H1 H2 H3 H4.
  sel_tac. reflexivity.
Qed.

Lemma holds4_get (x : tensor) (a b c d : nat) :
  shape x = [a; b; c; d] -> well_formed x ->
  holds4 x a b c d (fun i1 i2 i3 i4 => get x [i1; i2; i3; i4]).
Proof. intros S W. split; [exact S|]. split; [exact W|]. reflexivity. Qed.

(** X5. With one timestep and one key channel the single-step branch
    is the reference engine: on inputs of the documented shapes with
    [L = 1] and [K = 1] the chunked engine returns exactly what the
    reference engine returns, in any arithmetic, whatever the chunk
    length and the precision. *)
Theorem single_step_one_key_channel (B Bw H V : nat)
        (r k v w u kv_state : tensor) (chunk_len : Z)
        (precision_dtype : dtype) :
  documented B Bw H 1 1 V r k v w u kv_state ->
  rwkv_inner r k v w u kv_state chunk_len precision_dtype
  = rwkv5_1_recurrent r k v w u kv_state
  /\ is_ok (rwkv5_1_recurrent r k v w u kv_state) = true.
Proof.
  intros (Sr & Sk & Sv & Sw & HBw & Su & Ss & Wr & Wk & Wv & Ww & Wu & Ws).
  destruct (@recurrent_elements F SF r k v w u kv_state B H 1 1 V Bw
              Sr Sk Sv Sw HBw Su Ss Nat.lt_0_1)
    as (out & s & E & So & Ss1 & Go & Gs).
  destruct (@recurrent_well_formed F SF r k v w u kv_state out s B H 1 1
              Sr Nat.lt_0_1 E) as (Wo & Ws1).
  rewrite E. split; [|reflexivity].
  unfold rwkv_inner, size4, size_from_end, rank. rewrite Sk, Sv.
  cbn [length Nat.leb Nat.sub nth bind Nat.eqb].
  unfold single_step, mul, add.
  pose proof (holds4_get Sr Wr) as Hr. pose proof (holds4_get Sk Wk) as Hk.
  pose proof (holds4_get Sv Wv) as Hv. pose proof (holds4_get Sw Ww) as Hw.
  pose proof (holds4_get Su Wu) as Hu. pose proof (holds4_get Ss Ws) as Hs.
  destruct (matmul4 Hk Hv) as (kv & -> & Hkv). cbn [bind].
  destruct (binop4_r fmul Hu Hkv) as (ukv & -> & Hukv); [shape_tac|].
  cbn [bind]. clean4 Hukv.
  destruct (binop4_l fadd Hs Hukv) as (att & -> & Hatt); [shape_tac|].
  cbn [bind]. clean4 Hatt.
  destruct (matmul4 Hr Hatt) as (o & -> & Ho). cbn [bind].
  destruct (binop4_r fmul Hw Hs) as (dec & -> & Hdec); [shape_tac|].
  cbn [bind]. clean4 Hdec.
  destruct (binop4_l fadd Hdec Hkv) as (s1 & -> & Hs1); [shape_tac|].
  cbn [bind]. clean4 Hs1.
  destruct Ho as (So' & Wo' & Go'). destruct Hs1 as (Ss' & Ws' & Gs').
  do 2 f_equal.
  - apply tensor_ext; [exact Wo'|exact Wo|congruence|].
    rewrite So'. intros idx Hidx.
    destruct (in_range4 Hidx) as (b & h & t & j & -> & Hb & Hh & Ht & Hj).
    rewrite Go, Go' by assumption.
    assert (t = 0) by lia. subst t.
    cbn [Nat.eqb]. sel_tac.
    unfold spec_out, bigsum, spec_kv. cbn [seq map fsum fold_left spec_state].
    reflexivity.
  - apply tensor_ext; [exact Ws'|exact Ws1|congruence|].
    rewrite Ss'. intros idx Hidx.
    destruct (in_range4 Hidx) as (b & h & i & j & -> & Hb & Hh & Hi & Hj).
    rewrite Gs, Gs' by assumption.
    assert (i = 0) by lia. subst i.
    cbn [Nat.eqb]. sel_tac.
    cbn [spec_state]. unfold bigsum, spec_kv, spec_w. rewrite Sw.
    cbn [seq map fsum fold_left nth]. reflexivity.
Qed.

(** X6. A precision other than [float32] and [float64] fails the
    assertion of the chunked path: with a sequence length other than one
    and a chunk length other than zero the engine raises
    [AssertionError], whatever the tensors hold. *)
Theorem unsupported_precision_raises (B H L K : nat)
        (r k v w u kv_state : tensor) (chunk_len : Z)
        (precision_dtype : dtype) :
  shape k = [B; H; L; K] -> 1 <= rank v -> L <> 1 -> chunk_len <> 0%Z ->
  precision_dtype <> float32 -> precision_dtype <> float64 ->
  rwkv_inner r k v w u kv_state chunk_len precision_dtype
  = Raise AssertionError.
Proof.
  intros Sk Hv HL Hc H32 H64.
  rewrite (@rwkv_inner_enters_chunked F SF r k v w u kv_state B H L K)
    by assumption.
  unfold chunked, effective_chunk_len.
  replace (chunk_len =? 0)%Z with false by (symmetry; now apply Z.eqb_neq).
  assert (Hp : precision_min_val precision_dtype = Raise AssertionError)
    by (destruct precision_dtype; try reflexivity; congruence).
  destruct (_ =? 0)%Z; cbn [bind]; unfold log_space_decay; rewrite Hp;
    reflexivity.
Qed.

End SingleStep.

(** ** Shapes do not depend on the arithmetic *)

Section Alike.
Context {F1 F2 : Type} {SF1 : Scalar F1} {SF2 : Scalar F2}.

Ltac alike_tac :=
  unfold alike in *; intros;
  repeat match goal with
         | H : shape _ = shape _ |- _ => rewrite H; clear H
         end;
  unfold rel_result, bind;
  repeat match goal with
         | |- context [match ?x with _ => _ end] =>
             lazymatch x with
             | context [match _ with _ => _ end] => fail
             | _ => destruct x
             end
         end;
  cbn; auto.

Lemma map_tensor_alike (f : F1 -> F1) (g : F2 -> F2) (a : tensor F1)
      (b : tensor F2) :
  alike a b -> alike (map_tensor f a) (map_tensor g b).
Proof. unfold alike. simpl. auto. Qed.

Lemma binop_alike (f : F1 -> F1 -> F1) (g : F2 -> F2 -> F2)
      (a b : tensor F1) (a' b' : tensor F2) :
  alike a a' -> alike b b' -> rel_result alike (binop f a b) (binop g a' b').
Proof. unfold binop. alike_tac. Qed.

Lemma view_alike (zs : list Z) (a : tensor F1) (a' : tensor F2) :
  alike a a' -> rel_result alike (view zs a) (view zs a').
Proof. unfold view. alike_tac. Qed.

Lemma unsqueeze_alike (p : nat) (a : tensor F1) (a' : tensor F2) :
  alike a a' -> rel_result alike (unsqueeze p a) (unsqueeze p a').
Proof. unfold unsqueeze, rank. alike_tac. Qed.

Lemma mT_alike (a : tensor F1) (a' : tensor F2) :
  alike a a' -> rel_result alike (mT a) (mT a').
Proof. unfold mT. alike_tac. Qed.

Lemma matmul2_alike (a b : tensor F1) (a' b' : tensor F2) :
  alike a a' -> alike b b' -> rel_result alike (matmul2 a b) (matmul2 a' b').
Proof. unfold matmul2. alike_tac. Qed.

Lemma matmul_alike (a b : tensor F1) (a' b' : tensor F2) :
  alike a a' -> alike b b' -> rel_result alike (matmul a b) (matmul a' b').
Proof.
  intros Ha Hb. unfold matmul, rank. unfold alike in Ha, Hb. rewrite Ha, Hb.
  destruct (_ || _); [reflexivity|].
  eapply rel_result_bind with (R := alike).
  - apply matmul2_alike.
    + destruct (length (shape a') =? 1); unfold alike; cbn; congruence.
    + destruct (length (shape b') =? 1); unfold alike; cbn; congruence.
  - intros c c' Hc. unfold alike in *. cbn. now rewrite Hc.
Qed.

Lemma tril_below_alike (a : tensor F1) (a' : tensor F2) :
  alike a a' -> rel_result alike (tril_below a) (tril_below a').
Proof. unfold tril_below. alike_tac. Qed.

Lemma diag_embed_alike (a : tensor F1) (a' : tensor F2) :
  alike a a' -> rel_result alike (diag_embed a) (diag_embed a').
Proof. unfold diag_embed. alike_tac. Qed.

Lemma einsum_alike (a b : tensor F1) (a' b' : tensor F2) :
  alike a a' -> alike b b' ->
  rel_result alike (einsum_bhnztk a b) (einsum_bhnztk a' b').
Proof. unfold einsum_bhnztk, rank. alike_tac. Qed.

Lemma slice_axis_alike (d : nat) (x y : option Z) (a : tensor F1)
      (a' : tensor F2) :
  alike a a' -> rel_result alike (slice_axis d x y a) (slice_axis d x y a').
Proof. unfold slice_axis, rank. alike_tac. Qed.

Lemma cumsum_alike (d : nat) (a : tensor F1) (a' : tensor F2) :
  alike a a' -> rel_result alike (cumsum d a) (cumsum d a').
Proof. unfold cumsum, rank. alike_tac. Qed.

Lemma sum_keepdim_alike (d : nat) (a : tensor F1) (a' : tensor F2) :
  alike a a' -> rel_result alike (sum_keepdim d a) (sum_keepdim d a').
Proof. unfold sum_keepdim, rank. alike_tac. Qed.

Lemma setitem_axis_alike (d : nat) (x y : option Z) (a b : tensor F1)
      (a' b' : tensor F2) :
  alike a a' -> alike b b' ->
  rel_result alike (setitem_axis d x y a b) (setitem_axis d x y a' b').
Proof. unfold setitem_axis, rank. alike_tac. Qed.

Lemma unbind_alike (d : nat) (a : tensor F1) (a' : tensor F2) :
  alike a a' -> rel_result (Forall2 alike) (unbind d a) (unbind d a').
Proof.
  unfold unbind, rank, alike. intros ->. destruct (d <=? _); [|reflexivity].
  cbn. induction (seq 0 _); cbn; constructor; auto.
Qed.

Lemma forallb_alike (P : list nat -> bool) (ts : list (tensor F1))
      (ts' : list (tensor F2)) :
  Forall2 alike ts ts' ->
  forallb (fun t => P (shape t)) ts = forallb (fun t => P (shape t)) ts'.
Proof.
  intros H. induction H as [|t t' ts ts' Ht _ IH]; [reflexivity|].
  cbn. unfold alike in Ht. now rewrite Ht, IH.
Qed.

Lemma total_alike (p : nat) (ts : list (tensor F1)) (ts' : list (tensor F2)) :
  Forall2 alike ts ts' ->
  fold_right (fun t n => nth p (shape t) 0 + n) 0 ts
  = fold_right (fun t n => nth p (shape t) 0 + n) 0 ts'.
Proof.
  intros H. induction H as [|t t' ts ts' Ht _ IH]; [reflexivity|].
  cbn. unfold alike in Ht. now rewrite Ht, IH.
Qed.

Lemma cat_alike (d : nat) (ts : list (tensor F1)) (ts' : list (tensor F2)) :
  Forall2 alike ts ts' -> rel_result alike (cat d ts) (cat d ts').
Proof.
  intros H. destruct H as [|t t' ts ts' H0 H]; [reflexivity|].
  pose proof (total_alike (rank t' - d) (Forall2_cons t t' H0 H)) as Ht.
  unfold cat, rank in *. unfold alike in H0. rewrite H0.
  destruct (d <=? _); [|reflexivity].
  rewrite (forallb_alike
             (fun s => list_eqb (set_at (length (shape t') - d) 0 s)
                         (set_at (length (shape t') - d) 0 (shape t')))
             (Forall2_cons t t' H0 H)).
  destruct (forallb _ _); [|reflexivity].
  rewrite Ht. reflexivity.
Qed.

Lemma stack_alike (p : nat) (ts : list (tensor F1)) (ts' : list (tensor F2)) :
  Forall2 alike ts ts' -> rel_result alike (stack p ts) (stack p ts').
Proof.
  intros H. pose proof (Forall2_length H) as Hlen.
  destruct H as [|t t' ts ts' H0 H]; [reflexivity|].
  unfold stack, rank. unfold alike in H0. rewrite H0.
  rewrite (forallb_alike (fun s => list_eqb s (shape t'))
             (Forall2_cons t t' H0 H)).
  destruct (forallb _ _); [|reflexivity].
  destruct (p <=? _); [|reflexivity].
  rewrite Hlen. reflexivity.
Qed.

Lemma list_item_alike (l : list (tensor F1)) (l' : list (tensor F2))
      (i : nat) :
  Forall2 alike l l' -> rel_result alike (list_item l i) (list_item l' i).
Proof.
  intros H. revert i. unfold list_item.
  induction H as [|t t' l l' Ht _ IH]; intros [|i]; cbn; auto.
Qed.

End Alike.

Create HintDb alike.

#[local] Hint Resolve binop_alike view_alike unsqueeze_alike mT_alike
  matmul_alike tril_below_alike diag_embed_alike einsum_alike
  slice_axis_alike cumsum_alike sum_keepdim_alike setitem_axis_alike
  unbind_alike cat_alike stack_alike list_item_alike map_tensor_alike : alike.

Section AlikeEngines.
Context {F1 F2 : Type} {SF1 : Scalar F1} {SF2 : Scalar F2}.

Lemma exp_alike (a : tensor F1) (b : tensor F2) :
  alike a b -> alike (exp a) (exp b).
Proof. apply map_tensor_alike. Qed.

Lemma log_alike (a : tensor F1) (b : tensor F2) :
  alike a b -> alike (log a) (log b).
Proof. apply map_tensor_alike. Qed.

Lemma to_alike (d : dtype) (a : tensor F1) (b : tensor F2) :
  alike a b -> alike (to d a) (to d b).
Proof. apply map_tensor_alike. Qed.

Lemma to_working_alike (a : tensor F1) (b : tensor F2) :
  alike a b -> alike (to working a) (to working b).
Proof. apply map_tensor_alike. Qed.

Lemma float_alike (a : tensor F1) (b : tensor F2) :
  alike a b -> alike (float a) (float b).
Proof. apply map_tensor_alike. Qed.

Lemma clamp_alike (m : Q) (a : tensor F1) (b : tensor F2) :
  alike a b -> alike (clamp m a) (clamp m b).
Proof. apply map_tensor_alike. Qed.

Lemma zeros_like_alike (a : tensor F1) (b : tensor F2) :
  alike a b -> alike (zeros_like a) (zeros_like b).
Proof. apply map_tensor_alike. Qed.

Lemma add_alike (a b : tensor F1) (a' b' : tensor F2) :
  alike a a' -> alike b b' -> rel_result alike (add a b) (add a' b').
Proof. apply binop_alike. Qed.

Lemma sub_alike (a b : tensor F1) (a' b' : tensor F2) :
  alike a a' -> alike b b' -> rel_result alike (sub a b) (sub a' b').
Proof. apply binop_alike. Qed.

Lemma mul_alike (a b : tensor F1) (a' b' : tensor F2) :
  alike a a' -> alike b b' -> rel_result alike (mul a b) (mul a' b').
Proof. apply binop_alike. Qed.

Hint Resolve exp_alike log_alike to_alike to_working_alike float_alike
  clamp_alike zeros_like_alike add_alike sub_alike mul_alike : alike.

Ltac arel_step :=
  lazymatch goal with
  | |- rel_result _ (bind _ _) (bind _ _) =>
      eapply rel_result_bind; [solve [eauto 6 with alike] | intros ? ? ?]
  end.

Lemma single_step_alike (r k v w u s : tensor F1) (r' k' v' w' u' s' : tensor F2) :
  alike r r' -> alike k k' -> alike v v' -> alike w w' -> alike u u' ->
  alike s s' ->
  rel_result alike2 (single_step r k v w u s)
    (single_step r' k' v' w' u' s').
Proof.
  intros. unfold single_step. repeat arel_step.
  cbn. split; assumption.
Qed.

Lemma log_space_decay_alike (H K : nat) (N T : Z) (w : tensor F1)
      (w' : tensor F2) (p : dtype) :
  alike w w' ->
  rel_result decays_alike (log_space_decay H K N T w p)
    (log_space_decay H K N T w' p).
Proof.
  intros Hw. unfold log_space_decay.
  destruct (precision_min_val p) as [m|e]; [|reflexivity]. cbn [bind].
  eapply rel_result_bind with (R := eq).
  { unfold size0. cbn [clamp map_tensor shape]. unfold alike in Hw.
    rewrite Hw. destruct (shape w'); reflexivity. }
  intros Bw ? <-. cbv zeta. repeat arel_step.
  cbn. unfold decays_alike. cbn. repeat split; eauto with alike.
Qed.

Lemma intra_chunk_alike (B H K V : nat) (N T : Z) (d : decays (F := F1))
      (d' : decays (F := F2)) (r k v u : tensor F1) (r' k' v' u' : tensor F2)
      (p : dtype) :
  decays_alike d d' -> alike r r' -> alike k k' -> alike v v' ->
  alike u u' ->
  rel_result alike (intra_chunk B H K V N T d r k v u p)
    (intra_chunk B H K V N T d' r' k' v' u' p).
Proof.
  intros (Eb & _ & Hcum & Hsh & _) Hr Hk Hv Hu. unfold intra_chunk.
  rewrite Eb. cbv zeta. repeat arel_step. eauto with alike.
Qed.

Lemma scan_step_alike (ws wkv : list (tensor F1)) (ws' wkv' : list (tensor F2))
      (i : nat) (acc : list (tensor F1) * tensor F1)
      (acc' : list (tensor F2) * tensor F2) :
  Forall2 alike ws ws' -> Forall2 alike wkv wkv' -> alike_acc acc acc' ->
  rel_result alike_acc (scan_step ws wkv i acc) (scan_step ws' wkv' i acc').
Proof.
  intros Hws Hwkv Hacc. destruct acc as [st s], acc' as [st' s'].
  destruct Hacc as [Hst Hs]. cbn [fst snd] in *.
  unfold scan_step. repeat arel_step.
  cbn. split; cbn; [|assumption].
  apply Forall2_app; [assumption|]. constructor; [assumption|constructor].
Qed.

Lemma chunk_states_alike (N : Z) (d : decays (F := F1))
      (d' : decays (F := F2)) (k v s : tensor F1) (k' v' s' : tensor F2) :
  decays_alike d d' -> alike k k' -> alike v v' -> alike s s' ->
  rel_result alike2 (chunk_states N d k v s) (chunk_states N d' k' v' s').
Proof.
  intros (_ & _ & _ & _ & Hws & Hinter & _) Hk Hv Hs. unfold chunk_states.
  repeat arel_step.
  eapply rel_result_bind with (R := alike_acc).
  { apply for_each_like.
    - intros. now apply scan_step_alike.
    - split; [constructor|assumption]. }
  intros [sts fin] [sts' fin'] [Hsts Hfin]. cbn [fst snd] in *.
  arel_step. cbn. split; assumption.
Qed.

Lemma chunked_alike (B H L K V : nat) (r k v w u s : tensor F1)
      (r' k' v' w' u' s' : tensor F2) (chunk_len : Z) (p : dtype) :
  alike r r' -> alike k k' -> alike v v' -> alike w w' -> alike u u' ->
  alike s s' ->
  rel_result alike2 (chunked B H L K V r k v w u s chunk_len p)
    (chunked B H L K V r' k' v' w' u' s' chunk_len p).
Proof.
  intros Hr Hk Hv Hw Hu Hs. unfold chunked.
  destruct (effective_chunk_len L chunk_len) as [T|e]; [|reflexivity].
  cbn [bind]. cbv zeta.
  eapply rel_result_bind; [now apply log_space_decay_alike|].
  intros d d' Hd. repeat arel_step.
  eapply rel_result_bind.
  { apply intra_chunk_alike; eauto with alike. }
  intros out out' Hout.
  eapply rel_result_bind; [now apply chunk_states_alike|].
  intros [sts fin] [sts' fin'] [Hsts Hfin]. cbn [fst snd] in *.
  destruct Hd as (_ & _ & _ & _ & _ & _ & Hintra).
  repeat arel_step. cbn. split; assumption.
Qed.

Lemma rwkv_inner_alike (r k v w u s : tensor F1)
      (r' k' v' w' u' s' : tensor F2) (chunk_len : Z) (p : dtype) :
  alike r r' -> alike k k' -> alike v v' -> alike w w' -> alike u u' ->
  alike s s' ->
  rel_result alike2 (rwkv_inner r k v w u s chunk_len p)
    (rwkv_inner r' k' v' w' u' s' chunk_len p).
Proof.
  intros Hr Hk Hv Hw Hu Hs. unfold rwkv_inner.
  eapply rel_result_bind with (R := eq).
  { unfold size4. unfold alike in Hk. rewrite Hk.
    destruct (shape k') as [|? [|? [|? [|? [|? ?]]]]]; reflexivity. }
  intros [[[B H] L] K] ? <-.
  eapply rel_result_bind with (R := eq).
  { unfold size_from_end, rank. unfold alike in Hv. rewrite Hv.
    destruct (1 <=? _); reflexivity. }
  intros V ? <-.
  destruct (L =? 1).
  - now apply single_step_alike.
  - now apply chunked_alike.
Qed.

End AlikeEngines.

(** ** What the engines accept, in any arithmetic *)

Lemma one_point_exact : exact_arithmetic (F := unit) tt (fun _ => tt).
Proof.
  split.
  - split; intros; repeat match goal with x : unit |- _ => destruct x end;
      reflexivity.
  - intros [] []. reflexivity.
  - reflexivity.
  - intros d []. reflexivity.
Qed.

Lemma one_point_decay_exact (m : Q) (w : tensor unit) : decay_exact m w.
Proof. apply Forall_forall. intros [] _. reflexivity. Qed.

(** The chunked engine looks at the chunk length only through the chunk
    length in effect. *)
Lemma chunked_effective {F : Type} `{SF : Scalar F} (B H L K V : nat)
      (r k v w u kv_state : tensor F) (c c' : Z) (p : dtype) :
  effective_chunk_len L c = effective_chunk_len L c' ->
  chunked B H L K V r k v w u kv_state c p
  = chunked B H L K V r k v w u kv_state c' p.
Proof. intros E. unfold chunked. rewrite E. reflexivity. Qed.

Section Acceptance.
Context {F : Type} `{SF : Scalar F}.
Variables (B Bw H L K V : nat).
Variables (r k v w u kv_state : tensor F).
Variables (chunk_len : Z) (precision_dtype : dtype).
Hypothesis Hr : shape r = [B; H; L; K].
Hypothesis Hk : shape k = [B; H; L; K].
Hypothesis Hv : shape v = [B; H; L; V].
Hypothesis Hw : shape w = [Bw; H; L; K].
Hypothesis HBw : Bw = B \/ Bw = 1.
Hypothesis Hu : shape u = [1; H; 1; K].
Hypothesis Hs : shape kv_state = [B; H; K; V].

(** X7. In every arithmetic, exact or rounding, the chunked engine
    returns on inputs of the documented shapes with at least one
    timestep, a positive even chunk length that divides the sequence
    length and one of the two supported precisions; the output has the
    shape [(B,H,L,V)] and the state the shape [(B,H,K,V)]. *)
Theorem rwkv_inner_returns :
  0 < L -> (0 < chunk_len)%Z -> Z.even chunk_len = true ->
  (Z.of_nat L mod chunk_len = 0)%Z ->
  precision_dtype = float32 \/ precision_dtype = float64 ->
  exists out kv_state',
    rwkv_inner r k v w u kv_state chunk_len precision_dtype
    = Ok (out, kv_state')
    /\ shape out = [B; H; L; V]
    /\ shape kv_state' = [B; H; K; V].
Proof.
  intros HL Hc He Hm Hp.
  set (r0 := blank [B; H; L; K]). set (v0 := blank [B; H; L; V]).
  set (w0 := blank [Bw; H; L; K]). set (u0 := blank [1; H; 1; K]).
  set (s0 := blank [B; H; K; V]).
  assert (Hpm : exists m, precision_min_val precision_dtype = Ok m)
    by (destruct Hp as [-> | ->]; eexists; reflexivity).
  destruct Hpm as (m & Hpm).
  assert (Hdoc : documented B Bw H L K V r0 r0 v0 w0 u0 s0).
  { unfold documented, r0, v0, w0, u0, s0, blank. cbn [shape tabulate].
    repeat split; try assumption; apply well_formed_tabulate. }
  destruct (@chunked_equals_recurrent_even unit OnePoint tt (fun _ => tt)
              B Bw H L K V r0 r0 v0 w0 u0 s0 chunk_len precision_dtype m
              one_point_exact Hdoc HL Hc He Hm Hpm
              (one_point_decay_exact m w0))
    as (out0 & st0 & Eref & Einner).
  destruct (@recurrent_elements unit OnePoint r0 r0 v0 w0 u0 s0
              B H L K V Bw eq_refl eq_refl eq_refl eq_refl HBw eq_refl
              eq_refl HL)
    as (out1 & st1 & Eref' & So & Sst & _).
  rewrite Eref in Eref'. injection Eref' as <- <-.
  pose proof (@rwkv_inner_alike unit F OnePoint SF r0 r0 v0 w0 u0 s0
                r k v w u kv_state chunk_len precision_dtype) as Hrel.
  unfold alike in Hrel. rewrite Einner in Hrel.
  specialize (Hrel (eq_sym Hr) (eq_sym Hk) (eq_sym Hv) (eq_sym Hw)
                (eq_sym Hu) (eq_sym Hs)).
  destruct (rwkv_inner r k v w u kv_state chunk_len precision_dtype)
    as [[out st]|e]; [|contradiction].
  destruct Hrel as [Ho Hst]. cbn [fst snd] in Ho, Hst.
  exists out, st. split; [reflexivity|]. unfold alike in *.
  split; congruence.
Qed.

(** X8. On inputs of the documented shapes with at least one batch,
    head and key channel and more than one timestep, the engine returns
    only if the chunk length is positive, even and divides
    the sequence length, and the precision is [float32] or [float64]. *)
Theorem rwkv_inner_returns_only_if (res : tensor F * tensor F) :
  0 < B -> 0 < H -> 0 < K -> 1 < L ->
  rwkv_inner r k v w u kv_state chunk_len precision_dtype = Ok res ->
  (0 < chunk_len)%Z /\ Z.even chunk_len = true
  /\ (Z.of_nat L mod chunk_len = 0)%Z
  /\ (precision_dtype = float32 \/ precision_dtype = float64).
Proof.
  intros HB HH HK HL E.
  assert (Rv : 1 <= rank v) by (unfold rank; rewrite Hv; simpl; lia).
  assert (HL1 : L <> 1) by lia.
  destruct (Z.eq_dec chunk_len 0) as [Hz|Hz].
  { rewrite (@zero_chunk_len_raises F SF r k v w u kv_state B H L K
               chunk_len precision_dtype Hk Rv HL1 Hz) in E.
    discriminate. }
  pose proof E as E'.
  rewrite (@rwkv_inner_enters_chunked F SF r k v w u kv_state B H L K
             chunk_len precision_dtype Hk Rv HL1) in E'.
  unfold rank in E'. rewrite Hv in E'. cbn [length Nat.sub nth] in E'.
  assert (Hp : precision_dtype = float32 \/ precision_dtype = float64).
  { unfold chunked in E'.
    destruct (effective_chunk_len L chunk_len); [|discriminate].
    cbn [bind] in E'. unfold log_space_decay in E'.
    destruct precision_dtype; try (left; reflexivity);
      try (right; reflexivity); discriminate. }
  assert (One : effective_chunk_len L 1 = Ok 1%Z).
  { unfold effective_chunk_len. cbn [Z.eqb]. rewrite Z.mod_1_r.
    reflexivity. }
  destruct (Z.eq_dec (Z.of_nat L mod chunk_len) 0) as [Hm|Hm].
  - destruct (Z_lt_le_dec chunk_len 0) as [Hneg|Hpos].
    { destruct (@negative_divisor_raises F SF r k v w u kv_state B H L K
                  chunk_len precision_dtype Hk Rv HL1 Hneg Hm) as (e & Ee).
      rewrite Ee in E. discriminate. }
    assert (Hc : (1 <= chunk_len)%Z) by lia.
    assert (ET : effective_chunk_len L chunk_len = Ok chunk_len).
    { unfold effective_chunk_len.
      destruct (Z.eqb_spec chunk_len 0); [contradiction|].
      rewrite Hm. reflexivity. }
    destruct (Z.even chunk_len) eqn:He.
    + repeat split; (assumption || lia).
    + assert (Ho : Z.odd chunk_len = true)
        by (rewrite <- Z.negb_even, He; reflexivity).
      rewrite (proj2 (@chunked_odd_raises F SF r k v w u kv_state
                        B H L K V Bw chunk_len chunk_len precision_dtype
                        Hr Hk Hv Hw HBw Hu HB HH HK HL Hc Hp ET Ho)) in E'.
      discriminate.
  - assert (ET : effective_chunk_len L chunk_len = effective_chunk_len L 1).
    { rewrite One. unfold effective_chunk_len.
      destruct (Z.eqb_spec chunk_len 0); [contradiction|].
      destruct (Z.eqb_spec (Z.of_nat L mod chunk_len) 0);
        [contradiction|reflexivity]. }
    rewrite (@chunked_effective F SF B H L K V r k v w u kv_state
               chunk_len 1%Z precision_dtype ET) in E'.
    rewrite (proj2 (@chunked_odd_raises F SF r k v w u kv_state
                      B H L K V Bw 1%Z 1%Z precision_dtype
                      Hr Hk Hv Hw HBw Hu HB HH HK HL ltac:(lia) Hp One
                      eq_refl)) in E'.
    discriminate.
Qed.

End Acceptance.

Section MoreFacts.
Context {F : Type} `{SF : Scalar F}.

(** X10. The sanity check of the repository never ends well: whatever
    numbers the random generator produces, the reference engine returns
    and its output of shape [(1,1,4,5)] is printed, and then the chunked
    engine raises, since the bonus drawn with the shape [(1,H,1,1)] has
    one number per head where the engine views [K = 3]. *)
Theorem sanity_check_raises (gen : nat -> F) :
  exists out,
    sanity_check gen = ([out], Raise (RuntimeError invalid_view))
    /\ shape out = [1; 1; 4; 5].
Proof. eexists. split; lazy; reflexivity. Qed.

(** X11. The state the engine returns does not depend on the queries
    [r] or on the bonus [u], in any arithmetic: two calls that differ in
    nothing else and both return, return the same state. *)
Theorem rwkv_inner_state_ignores_queries
    (r r' k v w u u' kv_state : tensor F) (chunk_len : Z)
    (precision_dtype : dtype) (out out' st st' : tensor F) :
  rwkv_inner r k v w u kv_state chunk_len precision_dtype = Ok (out, st) ->
  rwkv_inner r' k v w u' kv_state chunk_len precision_dtype
  = Ok (out', st') ->
  st = st'.
Proof.
  unfold rwkv_inner. intros E E'.
  destruct (size4 k) as [[[[B H] L] K]|e]; cbn [bind] in E, E';
    [|discriminate].
  destruct (size_from_end 1 v) as [V|e]; cbn [bind] in E, E';
    [|discriminate].
  destruct (L =? 1).
  - unfold single_step in E, E'. bind_inv E. bind_inv E'. congruence.
  - unfold chunked in E, E'.
    destruct (effective_chunk_len L chunk_len) as [T|e];
      cbn [bind] in E, E'; [|discriminate].
    cbv zeta in E, E'.
    destruct (log_space_decay _ _ _ _ _ _) as [d|e];
      cbn [bind] in E, E'; [|discriminate].
    destruct (view _ r) as [r1|e]; cbn [bind] in E; [|discriminate].
    destruct (view _ r') as [r1'|e]; cbn [bind] in E'; [|discriminate].
    destruct (view _ k) as [k1|e]; cbn [bind] in E, E'; [|discriminate].
    destruct (view _ v) as [v1|e]; cbn [bind] in E, E'; [|discriminate].
    destruct (unsqueeze 2 u) as [u1|e]; cbn [bind] in E; [|discriminate].
    destruct (unsqueeze 2 u') as [u1'|e]; cbn [bind] in E'; [|discriminate].
    destruct (intra_chunk _ _ _ _ _ _ _ r1 _ _ _ _) as [o|e];
      cbn [bind] in E; [|discriminate].
    destruct (intra_chunk _ _ _ _ _ _ _ r1' _ _ _ _) as [o'|e];
      cbn [bind] in E'; [|discriminate].
    destruct (chunk_states _ _ _ _ _) as [[sts fin]|e];
      cbn [bind] in E, E'; [|discriminate].
    bind_inv E. bind_inv E'. congruence.
Qed.

(** X12. The chunked engine never returns on a sequence without
    timesteps, whatever the other arguments are: if nothing fails
    before, there is no chunk state for [torch.stack] to stack. *)
Theorem rwkv_inner_empty_raises (B H K : nat)
    (r k v w u kv_state : tensor F) (chunk_len : Z)
    (precision_dtype : dtype) :
  shape k = [B; H; 0; K] -> 1 <= rank v ->
  exists e,
    rwkv_inner r k v w u kv_state chunk_len precision_dtype = Raise e.
Proof.
  intros Hk Rv.
  rewrite (@rwkv_inner_enters_chunked F SF r k v w u kv_state B H 0 K
             chunk_len precision_dtype Hk Rv) by discriminate.
  destruct (chunked _ _ _ _ _ _ _ _ _ _ _ _ _) as [res|e] eqn:E;
    [|eexists; reflexivity].
  exfalso. unfold chunked in E. cbv zeta in E. bind_inv E.
  match goal with
  | Hc : chunk_states _ _ _ _ _ = Ok _ |- _ =>
      unfold chunk_states in Hc; bind_inv Hc
  end.
  cbn [Z.of_nat] in *. rewrite Zdiv_0_l in *. cbn [Z.to_nat seq for_each] in *.
  match goal with
  | Hf : Ok _ = Ok ?p, Hst : (let '(_, _) := ?p in _) = Ok _ |- _ =>
      injection Hf as <-; cbn in Hst; discriminate Hst
  end.
Qed.

End MoreFacts.

(** ** The exact instance *)

Lemma Qclamp_idem (x m : Q) : fmax (fmax x m) m = fmax x m.
Proof.
  cbn [fmax Qexact]. unfold Qclamp.
  destruct (Qle_bool x m) eqn:E.
  - destruct (Qle_bool m m); reflexivity.
  - now rewrite E.
Qed.

(** ** Runs of the engines on the sample inputs *)

(** With an even chunk length that divides the sequence length the two
    engines agree exactly in exact arithmetic. *)
Example recurrent_sample :
  rwkv5_1_recurrent Sample.r Sample.k Sample.v Sample.w Sample.u
    Sample.kv_state = Ok (Sample.out, Sample.kv_state').
Proof. vm_compute. reflexivity. Qed.

Example chunked_sample_2 :
  rwkv_inner Sample.r Sample.k Sample.v Sample.w Sample.u Sample.kv_state
    2%Z float32 = Ok (Sample.out, Sample.kv_state').
Proof. vm_compute. reflexivity. Qed.

Example chunked_sample_4 :
  rwkv_inner Sample.r Sample.k Sample.v Sample.w Sample.u Sample.kv_state
    4%Z float64 = Ok (Sample.out, Sample.kv_state').
Proof. vm_compute. reflexivity. Qed.

(** C1. The chunk length 1 divides the sequence length 4 of the sample:
    the reference engine returns, and the chunked engine, asked for the
    very chunk length that its own fallback selects, raises on the view
    of the chunks as two half-chunks of length [1 // 2 = 0] instead of
    returning the matching output and state. *)
Theorem unit_chunk_len_raises :
  rwkv5_1_recurrent Sample.r Sample.k Sample.v Sample.w Sample.u
    Sample.kv_state = Ok (Sample.out, Sample.kv_state')
  /\ effective_chunk_len 4 1%Z = Ok 1%Z
  /\ rwkv_inner Sample.r Sample.k Sample.v Sample.w Sample.u
       Sample.kv_state 1%Z float32 = Raise (RuntimeError invalid_view).
Proof. repeat split; vm_compute; reflexivity. Qed.

(** C3. With one timestep and two key channels the chunked engine
    raises, since [k @ v] multiplies a [1 x 2] by a [1 x 2] matrix; the
    reference engine, which transposes [k], returns. *)
Theorem single_step_raises :
  rwkv_inner OneStep.r OneStep.k OneStep.v OneStep.w OneStep.u
    OneStep.kv_state 32%Z float32 = Raise (RuntimeError matmul_mismatch)
  /\ rwkv5_1_recurrent OneStep.r OneStep.k OneStep.v OneStep.w OneStep.u
       OneStep.kv_state
     = Ok (ztensor [1; 1; 1; 2] [14; 24]%Z,
           qtensor [1; 1; 2; 2] [7 # 2; 7; 7 # 4; 3]%Q).
Proof. split; vm_compute; reflexivity. Qed.

(** C4. The chunk length 3 does not divide the sequence length 4 of the
    sample: the chunk length in effect becomes 1 and the engine raises,
    while the engine returns with the chunk length 2. *)
Theorem fallback_raises :
  effective_chunk_len 4 3%Z = Ok 1%Z
  /\ rwkv_inner Sample.r Sample.k Sample.v Sample.w Sample.u
       Sample.kv_state 3%Z float32 = Raise (RuntimeError invalid_view)
  /\ rwkv_inner Sample.r Sample.k Sample.v Sample.w Sample.u
       Sample.kv_state 2%Z float32 = Ok (Sample.out, Sample.kv_state').
Proof. repeat split; vm_compute; reflexivity. Qed.

(** C7. Of the divisors 1, 2 and 4 of the sequence length 4 of the
    sample, the chunk lengths 2 and 4 give one and the same result, and
    the chunk length 1, the one the fallback of the engine selects, gives
    none: the engine raises on the view into half-chunks. *)
Theorem chunk_len_invariance_fails :
  rwkv_inner Sample.r Sample.k Sample.v Sample.w Sample.u Sample.kv_state
    2%Z float32 = Ok (Sample.out, Sample.kv_state')
  /\ rwkv_inner Sample.r Sample.k Sample.v Sample.w Sample.u
       Sample.kv_state 4%Z float32 = Ok (Sample.out, Sample.kv_state')
  /\ rwkv_inner Sample.r Sample.k Sample.v Sample.w Sample.u
       Sample.kv_state 1%Z float32 = Raise (RuntimeError invalid_view).
Proof. repeat split; vm_compute; reflexivity. Qed.

(** X13. With one timestep and any number of key channels other than 1
    the product [k @ v] of the single-step branch is refused: the engine
    raises, whatever the chunk length and the precision. *)
Lemma single_step_needs_one_key_channel {F : Type} `{SF : Scalar F}
      (r k v w u kv_state : tensor F) (B H K V : nat) (chunk_len : Z)
      (precision_dtype : dtype) :
  shape k = [B; H; 1; K] -> shape v = [B; H; 1; V] -> K <> 1 ->
  rwkv_inner r k v w u kv_state chunk_len precision_dtype
  = Raise (RuntimeError matmul_mismatch).
Proof.
  intros Hk Hv HK. unfold rwkv_inner, size4, size_from_end, rank.
  rewrite Hk, Hv. cbn [length Nat.leb Nat.sub nth bind Nat.eqb].
  unfold single_step, matmul, rank. rewrite Hk, Hv.
  cbn [length Nat.eqb orb]. unfold matmul2, split_last2. rewrite Hk, Hv.
  cbn [rev app]. rewrite broadcast_shapes_same. cbn [bind].
  apply Nat.eqb_neq in HK. rewrite HK. reflexivity.
Qed.

(** ** Witnesses and counterexamples *)

Lemma rwkv5_1_recurrent_correct_witness :
  exists out kv_state',
    rwkv5_1_recurrent Sample.r Sample.k Sample.v Sample.w Sample.u
      Sample.kv_state = Ok (out, kv_state')
    /\ shape out = [1; 1; 4; 3]
    /\ shape kv_state' = [1; 1; 2; 3]
    /\ (forall b h t j, b < 1 -> h < 1 -> t < 4 -> j < 3 ->
          get out [b; h; t; j]
          = spec_out Sample.r Sample.k Sample.v Sample.w Sample.u
              Sample.kv_state 2 t b h j)
    /\ (forall b h i j, b < 1 -> h < 1 -> i < 2 -> j < 3 ->
          get kv_state' [b; h; i; j]
          = spec_state Sample.k Sample.v Sample.w Sample.kv_state 4 b h i j).
Proof.
  apply (rwkv5_1_recurrent_correct Sample.r Sample.k Sample.v Sample.w
           Sample.u Sample.kv_state (B := 1) (H := 1) (L := 4) (K := 2)
           (V := 3) (Bw := 1));
    try reflexivity; [left; reflexivity | lia].
Defined.

Lemma odd_chunk_len_raises_witness :
  (exists d,
     log_space_decay 1 2 (Z.of_nat 4 / 1) 1 Sample.w float32 = Ok d
     /\ view (subchunk_shape (batch_w d) 1 (Z.of_nat 4 / 1) 1 2)
          (wc_log_cum d)
        = Raise (RuntimeError invalid_view))
  /\ rwkv_inner Sample.r Sample.k Sample.v Sample.w Sample.u
       Sample.kv_state 3%Z float32 = Raise (RuntimeError invalid_view).
Proof.
  apply (odd_chunk_len_raises Sample.r Sample.k Sample.v Sample.w Sample.u
           Sample.kv_state (B := 1) (H := 1) (L := 4) (K := 2) (V := 3)
           (Bw := 1) (chunk_len := 3%Z) (T := 1%Z));
    try reflexivity; try lia; left; reflexivity.
Defined.


Lemma decay_never_raises_witness :
  (forall w', shape w' = shape Sample.w ->
     outcome (rwkv_inner Sample.r Sample.k Sample.v w' Sample.u
                Sample.kv_state 2%Z float32)
     = outcome (rwkv_inner Sample.r Sample.k Sample.v Sample.w Sample.u
                  Sample.kv_state 2%Z float32))
  /\ (4 <> 1 ->
      forall floor, precision_min_val float32 = Ok floor ->
        rwkv_inner Sample.r Sample.k Sample.v (clamp floor Sample.w)
          Sample.u Sample.kv_state 2%Z float32
        = rwkv_inner Sample.r Sample.k Sample.v Sample.w Sample.u
            Sample.kv_state 2%Z float32)
  /\ (4 = 1 ->
      rwkv_inner Sample.r Sample.k Sample.v Sample.w Sample.u
        Sample.kv_state 2%Z float32
      = single_step Sample.r Sample.k Sample.v Sample.w Sample.u
          Sample.kv_state).
Proof.
  apply (decay_never_raises Qclamp_idem Sample.r Sample.k Sample.v Sample.w
           Sample.u Sample.kv_state (B := 1) (H := 1) (K := 2) 2%Z float32).
  - reflexivity.
  - vm_compute. lia.
Defined.

Lemma rejected_calls_witness :
  (4 = 1 ->
   forall chunk_len' precision_dtype',
     rwkv_inner Sample.r Sample.k Sample.v Sample.w Sample.u
       Sample.kv_state 0%Z float32
     = rwkv_inner Sample.r Sample.k Sample.v Sample.w Sample.u
         Sample.kv_state chunk_len' precision_dtype')
  /\ (4 <> 1 ->
      (0%Z = 0%Z ->
       rwkv_inner Sample.r Sample.k Sample.v Sample.w Sample.u
         Sample.kv_state 0%Z float32 = Raise ZeroDivisionError)
      /\ ((0 < 0)%Z -> (Z.of_nat 4 mod 0 = 0)%Z ->
          exists e,
            rwkv_inner Sample.r Sample.k Sample.v Sample.w Sample.u
              Sample.kv_state 0%Z float32 = Raise e)
      /\ ((1 <= 0)%Z ->
          numel (shape Sample.r) <> 1 * 1 * 4 * 2
          \/ numel (shape Sample.v)
             <> 1 * 1 * 4 * nth (rank Sample.v - 1) (shape Sample.v) 0
          \/ numel (shape Sample.u) <> 1 * 2
          \/ numel (shape Sample.w) <> nth 0 (shape Sample.w) 0 * 1 * 4 * 2 ->
          exists e,
            rwkv_inner Sample.r Sample.k Sample.v Sample.w Sample.u
              Sample.kv_state 0%Z float32 = Raise e)).
Proof.
  apply (rejected_calls Sample.r Sample.k Sample.v Sample.w Sample.u
           Sample.kv_state (B := 1) (H := 1) (L := 4) (K := 2) 0%Z float32).
  - reflexivity.
  - vm_compute. lia.
Defined.

(** C6, as stated, fails with one timestep: the decay [1/1024], below
    the floor 0.005, enters the state update as it is, and the state
    returned differs from the one the clamped decay gives. *)
Lemma single_step_decay_unclamped :
  rwkv_inner Tiny.r Tiny.k Tiny.v Tiny.w Tiny.u Tiny.kv_state 32%Z float32
  = Ok (ztensor [1; 1; 1; 2] [33; 66]%Z,
        qtensor [1; 1; 1; 2] [2049 # 1024; 2049 # 512]%Q)
  /\ rwkv_inner Tiny.r Tiny.k Tiny.v (clamp (5 # 1000) Tiny.w) Tiny.u
       Tiny.kv_state 32%Z float32
     = Ok (ztensor [1; 1; 1; 2] [33; 66]%Z,
           qtensor [1; 1; 1; 2] [401 # 200; 401 # 100]%Q)
  /\ rwkv_inner Tiny.r Tiny.k Tiny.v Tiny.w Tiny.u Tiny.kv_state 32%Z float32
     <> rwkv_inner Tiny.r Tiny.k Tiny.v (clamp (5 # 1000) Tiny.w) Tiny.u
          Tiny.kv_state 32%Z float32.
Proof.
  split; [vm_compute; reflexivity|].
  split; [vm_compute; reflexivity|].
  vm_compute. discriminate.
Qed.

(** C8. On the sample, with chunks of length 2, the chunked engine
    returns on the whole sequence, and the two runs over the segments of
    a split after two timesteps return the same output and state.  A
    split after one timestep gives the engine a first segment of one
    timestep with two key channels, on which the single-step branch
    raises at [k @ v]; a split after three timesteps gives it a first
    segment of three timesteps, which the chunk length does not divide,
    and the chunk length 1 of the fallback raises on the view into
    half-chunks.  The reference engine returns the output of the whole
    run at both splits. *)
Theorem streamed_segments_raise :
  rwkv_inner Sample.r Sample.k Sample.v Sample.w Sample.u
    Sample.kv_state 2%Z float32 = Ok (Sample.out, Sample.kv_state')
  /\ streamed (fun r k v w u s => rwkv_inner r k v w u s 2%Z float32) 2
       Sample.r Sample.k Sample.v Sample.w Sample.u Sample.kv_state
     = Ok (Sample.out, Sample.kv_state')
  /\ streamed (fun r k v w u s => rwkv_inner r k v w u s 2%Z float32) 1
       Sample.r Sample.k Sample.v Sample.w Sample.u Sample.kv_state
     = Raise (RuntimeError matmul_mismatch)
  /\ streamed (fun r k v w u s => rwkv_inner r k v w u s 2%Z float32) 3
       Sample.r Sample.k Sample.v Sample.w Sample.u Sample.kv_state
     = Raise (RuntimeError invalid_view)
  /\ streamed rwkv5_1_recurrent 1 Sample.r Sample.k Sample.v Sample.w
       Sample.u Sample.kv_state = Ok (Sample.out, Sample.kv_state')
  /\ streamed rwkv5_1_recurrent 3 Sample.r Sample.k Sample.v Sample.w
       Sample.u Sample.kv_state = Ok (Sample.out, Sample.kv_state').
Proof. repeat split; vm_compute; reflexivity. Qed.

(** C9, as stated, fails: with one timestep a chunk length of zero, or
    a negative one, is accepted and the call returns; and an [r] whose
    time and key dimensions both disagree with those of [k] is accepted
    as long as it holds as many elements. *)
Lemma unvalidated_calls_return :
  rwkv_inner Tiny.r Tiny.k Tiny.v Tiny.w Tiny.u Tiny.kv_state 0%Z float32
  = Ok (ztensor [1; 1; 1; 2] [33; 66]%Z,
        qtensor [1; 1; 1; 2] [2049 # 1024; 2049 # 512]%Q)
  /\ rwkv_inner Tiny.r Tiny.k Tiny.v Tiny.w Tiny.u Tiny.kv_state (-5)%Z
       float32
     = Ok (ztensor [1; 1; 1; 2] [33; 66]%Z,
           qtensor [1; 1; 1; 2] [2049 # 1024; 2049 # 512]%Q)
  /\ shape Mismatch.r = [1; 1; 4; 1]
  /\ shape Mismatch.k = [1; 1; 2; 2]
  /\ rwkv_inner Mismatch.r Mismatch.k Mismatch.v Mismatch.w Mismatch.u
       Mismatch.kv_state 2%Z float32
     = Ok (ztensor [1; 1; 2; 1] [14; 104]%Z,
           ztensor [1; 1; 2; 1] [8; 12]%Z).
Proof. repeat split; vm_compute; reflexivity. Qed.

(** An odd chunk length other than 1: the chunk length 3 divides the
    sequence length 3; the reference engine returns and the chunked
    engine raises on the view of the chunk as two half-chunks of length
    [3 // 2 = 1]. *)
Lemma odd_divisor_raises :
  rwkv5_1_recurrent Triple.r Triple.k Triple.v Triple.w Triple.u
    Triple.kv_state
  = Ok (qtensor [1; 1; 3; 1] [1; 6; 33 # 2]%Q, qtensor [1; 1; 1; 1] [17 # 4]%Q)
  /\ rwkv_inner Triple.r Triple.k Triple.v Triple.w Triple.u
       Triple.kv_state 3%Z float32 = Raise (RuntimeError invalid_view).
Proof. split; vm_compute; reflexivity. Qed.

(** *** The real numbers *)

Module RealFacts.
Import Stdlib.Reals.Reals Stdlib.Reals.Qreals Stdlib.micromega.Lra.

Lemma real_arithmetic : exact_arithmetic (F := R) 1%R Ropp.
Proof.
  split.
  - exact RealField.RTheory.
  - exact exp_plus.
  - exact exp_0.
  - reflexivity.
Qed.

Lemma real_round_trip (m x : Q) :
  (0 < m)%Q -> (m <= x)%Q ->
  fexp (flog (fmax (Q2R x) (fconst m))) = Q2R x.
Proof.
  intros Hm Hx. cbn [fexp flog fmax fconst RealScalars.Rexact].
  apply Qle_Rle in Hx. apply Qlt_Rlt in Hm.
  replace (Q2R 0) with 0%R in Hm by (unfold Q2R; cbn; lra).
  rewrite Rmax_left by exact Hx. apply exp_ln. lra.
Qed.

Lemma real_decay_exact (m : Q) (t : tensor Q) :
  (0 < m)%Q -> Forall (fun x => (m <= x)%Q) (data t) ->
  decay_exact m (RealScalars.of_rationals t).
Proof.
  intros Hm Ht. unfold decay_exact, RealScalars.of_rationals. cbn [data].
  apply Forall_map. revert Ht. apply Forall_impl. intros x Hx.
  now apply real_round_trip.
Qed.

End RealFacts.

Lemma sample_documented :
  documented 1 1 1 4 2 3 RealSample.r RealSample.k RealSample.v RealSample.w
    RealSample.u RealSample.kv_state.
Proof. unfold documented. repeat split; auto. Qed.

Lemma sample_decay_exact : decay_exact (5 # 1000) RealSample.w.
Proof.
  apply RealFacts.real_decay_exact; [reflexivity|].
  repeat (apply Forall_cons; [unfold Qle; cbn; lia|]). apply Forall_nil.
Qed.

Lemma chunked_matches_recurrent_witness :
  exists out kv_state',
    rwkv5_1_recurrent RealSample.r RealSample.k RealSample.v RealSample.w
      RealSample.u RealSample.kv_state = Ok (out, kv_state')
    /\ rwkv_inner RealSample.r RealSample.k RealSample.v RealSample.w
         RealSample.u RealSample.kv_state 2%Z float32 = Ok (out, kv_state').
Proof.
  apply (@chunked_matches_recurrent _ _ _ _ 1 1 1 4 2 3 RealSample.r
           RealSample.k RealSample.v RealSample.w RealSample.u
           RealSample.kv_state 2%Z float32 (5 # 1000)
           RealFacts.real_arithmetic sample_documented).
  - lia.
  - lia.
  - reflexivity.
  - reflexivity.
  - reflexivity.
  - exact sample_decay_exact.
Defined.

Lemma chunk_len_invariance_witness :
  rwkv_inner RealSample.r RealSample.k RealSample.v RealSample.w
    RealSample.u RealSample.kv_state 2%Z float32
  = rwkv_inner RealSample.r RealSample.k RealSample.v RealSample.w
      RealSample.u RealSample.kv_state 4%Z float32
  /\ is_ok (rwkv_inner RealSample.r RealSample.k RealSample.v RealSample.w
              RealSample.u RealSample.kv_state 2%Z float32) = true.
Proof.
  apply (@chunk_len_invariance _ _ _ _ 1 1 1 4 2 3 RealSample.r
           RealSample.k RealSample.v RealSample.w RealSample.u
           RealSample.kv_state 2%Z 4%Z float32 (5 # 1000)
           RealFacts.real_arithmetic sample_documented).
  - lia.
  - lia.
  - reflexivity.
  - reflexivity.
  - lia.
  - reflexivity.
  - reflexivity.
  - reflexivity.
  - exact sample_decay_exact.
Defined.

Lemma chunked_streaming_witness :
  exists out kv_state',
    rwkv_inner RealSample.r RealSample.k RealSample.v RealSample.w
      RealSample.u RealSample.kv_state 2%Z float32 = Ok (out, kv_state')
    /\ streamed (fun r k v w u kv_state =>
                   rwkv_inner r k v w u kv_state 2%Z float32)
         2 RealSample.r RealSample.k RealSample.v RealSample.w
         RealSample.u RealSample.kv_state
       = Ok (out, kv_state').
Proof.
  apply (@chunked_streaming _ _ (Rdefinitions.IZR 1) Rdefinitions.Ropp
           1 1 1 4 2 3 2 RealSample.r RealSample.k RealSample.v
           RealSample.w RealSample.u RealSample.kv_state 2%Z float32
           (5 # 1000) RealFacts.real_arithmetic sample_documented).
  - lia.
  - lia.
  - reflexivity.
  - reflexivity.
  - reflexivity.
  - reflexivity.
  - exact sample_decay_exact.
Defined.

(** ** Further properties at concrete inputs *)

Lemma rational_sample_documented :
  documented 1 1 1 4 2 3 Sample.r Sample.k Sample.v Sample.w Sample.u
    Sample.kv_state.
Proof. unfold documented. repeat split; auto. Qed.

Ltac bounded_cases :=
  intros;
  repeat (try (exfalso; lia);
          match goal with
          | H : ?x < _ |- _ =>
              is_var x; destruct x;
              [clear H | apply Nat.succ_lt_mono in H]
          end).

Lemma recurrent_empty_raises_witness :
  rwkv5_1_recurrent (qtensor [1; 1; 0; 2] []) (qtensor [1; 1; 0; 2] [])
    (qtensor [1; 1; 0; 3] []) (qtensor [1; 1; 0; 2] []) Sample.u
    Sample.kv_state
  = Raise (RuntimeError empty_tensor_list).
Proof.
  apply (@recurrent_empty_raises Q Qexact (qtensor [1; 1; 0; 2] [])
           (qtensor [1; 1; 0; 2] []) (qtensor [1; 1; 0; 3] [])
           (qtensor [1; 1; 0; 2] []) Sample.u Sample.kv_state [1; 1] 2).
  reflexivity.
Defined.

Lemma recurrent_causal_witness :
  exists out out' s s',
    rwkv5_1_recurrent Sample.r Sample.k Sample.v Sample.w Sample.u
      Sample.kv_state = Ok (out, s)
    /\ rwkv5_1_recurrent
         (ztensor [1; 1; 3; 2] [1; 2; 3; 4; 9; 9]%Z)
         (ztensor [1; 1; 3; 2] [2; 1; 0; 3; 7; 7]%Z)
         (ztensor [1; 1; 3; 3] [1; 0; 2; 3; 1; 1; 4; 4; 4]%Z)
         (qtensor [1; 1; 3; 2] [1#2; 1#4; 1; 1#2; 1; 1]%Q)
         Sample.u Sample.kv_state = Ok (out', s')
    /\ forall b h t j, b < 1 -> h < 1 -> t < 2 -> j < 3 ->
         get out [b; h; t; j] = get out' [b; h; t; j].
Proof.
  apply (@recurrent_causal Q Qexact 1 1 1 4 2 3 3 2
           Sample.r Sample.k Sample.v Sample.w
           (ztensor [1; 1; 3; 2] [1; 2; 3; 4; 9; 9]%Z)
           (ztensor [1; 1; 3; 2] [2; 1; 0; 3; 7; 7]%Z)
           (ztensor [1; 1; 3; 3] [1; 0; 2; 3; 1; 1; 4; 4; 4]%Z)
           (qtensor [1; 1; 3; 2] [1#2; 1#4; 1; 1#2; 1; 1]%Q)
           Sample.u Sample.kv_state rational_sample_documented).
  - unfold documented. repeat split; auto.
  - lia.
  - lia.
  - lia.
  - bounded_cases; split; reflexivity.
  - bounded_cases; reflexivity.
  - bounded_cases; reflexivity.
Defined.

Lemma recurrent_state_ignores_queries_witness :
  exists out out' s,
    rwkv5_1_recurrent Sample.r Sample.k Sample.v Sample.w Sample.u
      Sample.kv_state = Ok (out, s)
    /\ rwkv5_1_recurrent Sample.k Sample.k Sample.v Sample.w
         (ztensor [1; 1; 1; 2] [0; 1]%Z) Sample.kv_state = Ok (out', s).
Proof.
  apply (@recurrent_state_ignores_queries Q Qexact 1 1 1 4 2 3
           Sample.r Sample.k Sample.v Sample.w Sample.u Sample.k
           (ztensor [1; 1; 1; 2] [0; 1]%Z) Sample.kv_state
           rational_sample_documented).
  - reflexivity.
  - reflexivity.
  - lia.
Defined.

Lemma recurrent_shared_decay_witness :
  exists w',
    expand [2; 1; 2; 1] (qtensor [1; 1; 2; 1] [1#2; 1#4]%Q) = Ok w'
    /\ shape w' = [2; 1; 2; 1]
    /\ rwkv5_1_recurrent (ztensor [2; 1; 2; 1] [1; 2; 3; 4]%Z)
         (ztensor [2; 1; 2; 1] [1; 0; 2; 1]%Z)
         (ztensor [2; 1; 2; 1] [5; 6; 7; 8]%Z) w'
         (ztensor [1; 1; 1; 1] [3]%Z) (ztensor [2; 1; 1; 1] [1; 2]%Z)
       = rwkv5_1_recurrent (ztensor [2; 1; 2; 1] [1; 2; 3; 4]%Z)
           (ztensor [2; 1; 2; 1] [1; 0; 2; 1]%Z)
           (ztensor [2; 1; 2; 1] [5; 6; 7; 8]%Z)
           (qtensor [1; 1; 2; 1] [1#2; 1#4]%Q)
           (ztensor [1; 1; 1; 1] [3]%Z) (ztensor [2; 1; 1; 1] [1; 2]%Z)
    /\ is_ok (rwkv5_1_recurrent (ztensor [2; 1; 2; 1] [1; 2; 3; 4]%Z)
                (ztensor [2; 1; 2; 1] [1; 0; 2; 1]%Z)
                (ztensor [2; 1; 2; 1] [5; 6; 7; 8]%Z)
                (qtensor [1; 1; 2; 1] [1#2; 1#4]%Q)
                (ztensor [1; 1; 1; 1] [3]%Z)
                (ztensor [2; 1; 1; 1] [1; 2]%Z)) = true.
Proof.
  apply (@recurrent_shared_decay Q Qexact 2 1 2 1 1
           (ztensor [2; 1; 2; 1] [1; 2; 3; 4]%Z)
           (ztensor [2; 1; 2; 1] [1; 0; 2; 1]%Z)
           (ztensor [2; 1; 2; 1] [5; 6; 7; 8]%Z)
           (qtensor [1; 1; 2; 1] [1#2; 1#4]%Q)
           (ztensor [1; 1; 1; 1] [3]%Z) (ztensor [2; 1; 1; 1] [1; 2]%Z)).
  - unfold documented. repeat split; auto.
  - lia.
Defined.

Lemma single_step_one_key_channel_witness :
  rwkv_inner Tiny.r Tiny.k Tiny.v Tiny.w Tiny.u Tiny.kv_state 32%Z float32
  = rwkv5_1_recurrent Tiny.r Tiny.k Tiny.v Tiny.w Tiny.u Tiny.kv_state
  /\ is_ok (rwkv5_1_recurrent Tiny.r Tiny.k Tiny.v Tiny.w Tiny.u
              Tiny.kv_state) = true.
Proof.
  apply (@single_step_one_key_channel Q Qexact 1 1 1 2 Tiny.r Tiny.k Tiny.v
           Tiny.w Tiny.u Tiny.kv_state 32%Z float32).
  unfold documented. repeat split; auto.
Defined.

Lemma unsupported_precision_raises_witness :
  rwkv_inner Sample.r Sample.k Sample.v Sample.w Sample.u Sample.kv_state
    2%Z float16
  = Raise AssertionError.
Proof.
  apply (@unsupported_precision_raises Q Qexact 1 1 4 2 Sample.r Sample.k
           Sample.v Sample.w Sample.u Sample.kv_state 2%Z float16).
  - reflexivity.
  - unfold rank. simpl. lia.
  - lia.
  - lia.
  - discriminate.
  - discriminate.
Defined.

Lemma rwkv_inner_returns_witness :
  exists out kv_state',
    rwkv_inner RealSample.r RealSample.k RealSample.v RealSample.w
      RealSample.u RealSample.kv_state 4%Z float64 = Ok (out, kv_state')
    /\ shape out = [1; 1; 4; 3]
    /\ shape kv_state' = [1; 1; 2; 3].
Proof.
  apply (@rwkv_inner_returns _ RealScalars.Rexact 1 1 1 4 2 3
           RealSample.r RealSample.k RealSample.v RealSample.w RealSample.u
           RealSample.kv_state 4%Z float64).
  - reflexivity.
  - reflexivity.
  - reflexivity.
  - reflexivity.
  - left. reflexivity.
  - reflexivity.
  - reflexivity.
  - lia.
  - lia.
  - reflexivity.
  - reflexivity.
  - right. reflexivity.
Defined.

Lemma rwkv_inner_returns_only_if_witness :
  (0 < 2)%Z /\ Z.even 2 = true /\ (Z.of_nat 4 mod 2 = 0)%Z
  /\ (float32 = float32 \/ float32 = float64).
Proof.
  apply (@rwkv_inner_returns_only_if Q Qexact 1 1 1 4 2 3 Sample.r Sample.k
           Sample.v Sample.w Sample.u Sample.kv_state 2%Z float32
           eq_refl eq_refl eq_refl eq_refl (or_introl eq_refl) eq_refl
           (Sample.out, Sample.kv_state')).
  - lia.
  - lia.
  - lia.
  - lia.
  - vm_compute. reflexivity.
Defined.

Lemma rwkv_inner_state_ignores_queries_witness :
  rwkv_inner Sample.r Sample.k Sample.v Sample.w Sample.u Sample.kv_state
    2%Z float32 = Ok (Sample.out, Sample.kv_state')
  /\ rwkv_inner Sample.k Sample.k Sample.v Sample.w
       (ztensor [1; 1; 1; 2] [0; 1]%Z) Sample.kv_state 2%Z float32
     = Ok (qtensor [1; 1; 4; 3]
             [7; 9; 14; 33; 51 # 4; 39 # 2; 25 # 2; 77 # 8; 49 # 4;
              61 # 4; 305 # 8; 47 # 2]%Q,
           Sample.kv_state')
  /\ Sample.kv_state' = Sample.kv_state'.
Proof.
  assert (E1 : rwkv_inner Sample.r Sample.k Sample.v Sample.w Sample.u
                 Sample.kv_state 2%Z float32
               = Ok (Sample.out, Sample.kv_state'))
    by (vm_compute; reflexivity).
  assert (E2 : rwkv_inner Sample.k Sample.k Sample.v Sample.w
                 (ztensor [1; 1; 1; 2] [0; 1]%Z) Sample.kv_state 2%Z float32
               = Ok (qtensor [1; 1; 4; 3]
                       [7; 9; 14; 33; 51 # 4; 39 # 2; 25 # 2; 77 # 8;
                        49 # 4; 61 # 4; 305 # 8; 47 # 2]%Q,
                     Sample.kv_state'))
    by (vm_compute; reflexivity).
  split; [exact E1|]. split; [exact E2|].
  exact (@rwkv_inner_state_ignores_queries Q Qexact Sample.r Sample.k
           Sample.k Sample.v Sample.w Sample.u
           (ztensor [1; 1; 1; 2] [0; 1]%Z) Sample.kv_state 2%Z float32
           _ _ _ _ E1 E2).
Defined.

Lemma rwkv_inner_empty_raises_witness :
  exists e,
    rwkv_inner (qtensor [1; 1; 0; 2] []) (qtensor [1; 1; 0; 2] [])
      (qtensor [1; 1; 0; 3] []) (qtensor [1; 1; 0; 2] []) Sample.u
      Sample.kv_state 2%Z float32 = Raise e.
Proof.
  apply (@rwkv_inner_empty_raises Q Qexact 1 1 2 (qtensor [1; 1; 0; 2] [])
           (qtensor [1; 1; 0; 2] []) (qtensor [1; 1; 0; 3] [])
           (qtensor [1; 1; 0; 2] []) Sample.u Sample.kv_state 2%Z float32).
  - reflexivity.
  - unfold rank. simpl. lia.
Defined.

Lemma single_step_needs_one_key_channel_witness :
  rwkv_inner OneStep.r OneStep.k OneStep.v OneStep.w OneStep.u
    OneStep.kv_state 2%Z float64
  = Raise (RuntimeError matmul_mismatch).
Proof.
  apply (@single_step_needs_one_key_channel Q Qexact OneStep.r OneStep.k
           OneStep.v OneStep.w OneStep.u OneStep.kv_state 1 1 2 2 2%Z
           float64).
  - reflexivity.
  - reflexivity.
  - lia.
Defined.

Lemma reference_streaming_witness :
  exists out kv_state',
    rwkv5_1_recurrent Sample.r Sample.k Sample.v Sample.w Sample.u
      Sample.kv_state = Ok (out, kv_state')
    /\ streamed rwkv5_1_recurrent 1 Sample.r Sample.k Sample.v Sample.w
         Sample.u Sample.kv_state = Ok (out, kv_state').
Proof.
  apply (@reference_streaming Q Qexact 1 1 1 4 2 3 1 Sample.r Sample.k
           Sample.v Sample.w Sample.u Sample.kv_state
           rational_sample_documented).
  lia.
Defined.
